(** * Medadmit: monotone I-spline fitting, two-factor calibration and
      school parameters

    A shallow embedding of [spline_fitting.py], of the model functions and
    the calibration routine [calibrate_splines] of [calibrate_C.py], and of
    [calibrate_schools.py]: its inline spline evaluator, the parameter
    estimation of a school, the hierarchical adjustment, the validation and
    the computation of [main].

    Numbers.  Python floats are modelled as real numbers: every statement
    below is a statement of exact arithmetic.  A float division by zero does
    not raise in numpy (it yields [nan] or [inf] and a warning); reals have
    no such values, so the places where the source divides without a guard
    return the marker [NonFinite] instead.

    Data.  A school of [md-schools-enhanced.json] is a record of the keys
    the scripts read, each of them optional; the dictionaries the scripts
    build are association lists in insertion order.

    Libraries.  [numpy] and [scipy] are not part of the repository.  Module
    [Np] gives the array operations the source uses with their documented
    meaning, module [BSpline] the constructor checks and the evaluation of
    [scipy.interpolate.BSpline], module [Special] the two functions of
    [scipy.special], and [scipy.optimize.minimize] and the normal random
    draws are parameters of the functions that call them. *)

From Stdlib Require Import Reals Lra Lia List Arith ZArith Bool.
From Stdlib Require String.
Import ListNotations.
Local Open Scope R_scope.

(** ** Outcomes *)

(** The Python exceptions the modelled code can raise, and [NonFinite] for a
    float division by zero (not an exception: see the header). *)
Inductive exn : Type :=
| ValueError
| IndexError
| KeyError
| TypeError
| ZeroDivisionError
| AttributeError
| NonFinite.

Definition result (A : Type) : Type := (exn + A)%type.

Definition ret {A : Type} (a : A) : result A := inr a.
Definition raise {A : Type} (e : exn) : result A := inl e.
Definition bind {A B : Type} (c : result A) (f : A -> result B) : result B :=
  match c with
  | inl e => inl e
  | inr a => f a
  end.

Notation "x <- c ;; k" := (bind c (fun x => k))
  (at level 61, c at next level, right associativity).
Notation "' pat <- c ;; k" := (bind c (fun x => match x with pat => k end))
  (at level 61, pat pattern, c at next level, right associativity).

Fixpoint mapM {A B : Type} (f : A -> result B) (l : list A) : result (list B) :=
  match l with
  | [] => ret []
  | a :: l' => b <- f a ;; bs <- mapM f l' ;; ret (b :: bs)
  end.

Fixpoint map2 {A B C : Type} (f : A -> B -> C) (a : list A) (b : list B) : list C :=
  match a, b with
  | x :: a', y :: b' => f x y :: map2 f a' b'
  | _, _ => []
  end.

(** ** numpy *)

Module Np.

Definition sum (l : list R) : R := fold_right Rplus 0 l.

Definition zeros (n : nat) : list R := repeat 0 n.
Definition ones_like (x : list R) : list R := repeat 1 (length x).

(** [a.min()], [a.max()]: a [ValueError] on an empty array. *)
Definition min (l : list R) : result R :=
  match l with
  | [] => raise ValueError
  | a :: l' => ret (fold_left Rmin l' a)
  end.

Definition max (l : list R) : result R :=
  match l with
  | [] => raise ValueError
  | a :: l' => ret (fold_left Rmax l' a)
  end.

(** [np.mean]: the mean of an empty array is [nan]. *)
Definition mean (l : list R) : result R :=
  match l with
  | [] => raise NonFinite
  | _ => ret (sum l / INR (length l))
  end.

(** [np.linspace(start, stop, num)]: [num] evenly spaced samples over
    [[start, stop]], both ends included. *)
Definition linspace (start stop : R) (num : nat) : list R :=
  map (fun i => start + INR i * ((stop - start) / INR (num - 1))) (seq 0 num).

(** The slice [a[1:-1]]. *)
Definition slice_1_m1 (l : list R) : list R := removelast (tl l).

Fixpoint cumsum_from (acc : R) (l : list R) : list R :=
  match l with
  | [] => []
  | a :: l' => (acc + a) :: cumsum_from (acc + a) l'
  end.

Definition cumsum (l : list R) : list R := cumsum_from 0 l.

Fixpoint diff (l : list R) : list R :=
  match l with
  | a :: ((b :: _) as l') => (b - a) :: diff l'
  | _ => []
  end.

(** [np.clip(a, lo, hi)] is [minimum(maximum(a, lo), hi)]. *)
Definition clip (a lo hi : R) : R := Rmin (Rmax a lo) hi.

(** Elementwise operation on two one-dimensional arrays, with numpy's
    broadcasting of an array of length one. *)
Definition broadcast2 (f : R -> R -> R) (a b : list R) : result (list R) :=
  if Nat.eqb (length a) (length b) then ret (map2 f a b)
  else match a, b with
       | [a0], _ => ret (map (f a0) b)
       | _, [b0] => ret (map (fun v => f v b0) a)
       | _, _ => raise ValueError
       end.

Definition dot (a b : list R) : R := sum (map2 Rmult a b).

(** [m @ v] for a matrix [m] of [ncols] columns, given by its rows. *)
Definition matvec (m : list (list R)) (ncols : nat) (v : list R) : result (list R) :=
  if Nat.eqb ncols (length v) then ret (map (fun row => dot row v) m)
  else raise ValueError.

(** [np.unique]: the sorted distinct values. *)
Fixpoint insert_unique (x : R) (l : list R) : list R :=
  match l with
  | [] => [x]
  | y :: l' =>
      if Rlt_dec x y then x :: y :: l'
      else if Req_dec_T x y then y :: l'
      else y :: insert_unique x l'
  end.

Definition unique (l : list R) : list R := fold_right insert_unique [] l.

(** [np.argmin]: the first index of the least value. *)
Fixpoint argmin_from (best : R) (best_i i : nat) (l : list R) : nat :=
  match l with
  | [] => best_i
  | a :: l' =>
      if Rlt_dec a best then argmin_from a i (S i) l'
      else argmin_from best best_i (S i) l'
  end.

Definition argmin (l : list R) : result nat :=
  match l with
  | [] => raise ValueError
  | a :: l' => ret (argmin_from a 0%nat 1%nat l')
  end.

(** [np.all(a >= c)]. *)
Definition all_ge (l : list R) (c : R) : bool :=
  forallb (fun v => if Rle_dec c v then true else false) l.

(** [np.average(a, weights=w)]. *)
Definition average (a w : list R) : result R :=
  if negb (Nat.eqb (length a) (length w)) then raise TypeError
  else if Req_dec_T (sum w) 0 then raise ZeroDivisionError
  else ret (sum (map2 Rmult a w) / sum w).

(** [np.log] of a scalar: [-inf] or [nan] (and a warning, no exception) when
    the argument is not positive. *)
Definition log (v : R) : result R :=
  if Rlt_dec 0 v then ret (ln v) else raise NonFinite.

(** [np.std]: the population standard deviation. *)
Definition std (l : list R) : result R :=
  m <- mean l ;;
  v <- mean (map (fun a => (a - m) ^ 2) l) ;;
  ret (sqrt v).

(** [np.corrcoef(x, y)[0, 1]]: the covariance with [N - 1] in the
    denominator, divided by the two standard deviations and clipped to
    [[-1, 1]]; [nan] for a single observation or a constant sequence. *)
Definition corrcoef (x y : list R) : result R :=
  if negb (Nat.eqb (length x) (length y)) then raise ValueError
  else
    mx <- mean x ;;
    my <- mean y ;;
    let fact := INR (length x) - 1 in
    if Req_dec_T fact 0 then raise NonFinite
    else
      let cxy := sum (map2 (fun a b => (a - mx) * (b - my)) x y) / fact in
      let cxx := sum (map (fun a => (a - mx) * (a - mx)) x) / fact in
      let cyy := sum (map (fun b => (b - my) * (b - my)) y) / fact in
      if Req_dec_T (sqrt cxx) 0 then raise NonFinite
      else if Req_dec_T (sqrt cyy) 0 then raise NonFinite
      else ret (clip (cxy / sqrt cxx / sqrt cyy) (- 1) 1).

End Np.

(** ** scipy.interpolate.BSpline *)

Module BSpline.

Record t : Type := mk {
  knots : list R;
  c : list R;
  k : nat
}.

Definition knot (ts : list R) (i : nat) : R := nth i ts 0.

Fixpoint nondecreasing (l : list R) : bool :=
  match l with
  | a :: ((b :: _) as l') => (if Rle_dec a b then true else false) && nondecreasing l'
  | _ => true
  end.

(** The checks of the constructor, in its order: at least [2k+2] knots,
    knots in non-decreasing order, two distinct knots among [t[k..n]], and
    at least [n = len(t) - k - 1] coefficients. *)
Definition make (ts cs : list R) (deg : nat) : result t :=
  let n := (Z.of_nat (length ts) - Z.of_nat deg - 1)%Z in
  if (n <? Z.of_nat deg + 1)%Z then raise ValueError
  else if negb (nondecreasing ts) then raise ValueError
  else if (length (Np.unique (firstn (Z.to_nat n + 1 - deg) (skipn deg ts))) <? 2)%nat
       then raise ValueError
  else if (Z.of_nat (length cs) <? n)%Z then raise ValueError
  else ret (mk ts cs deg).

(** The number of basis functions the knots define. *)
Definition n (s : t) : nat := (length (knots s) - k s - 1)%nat.

(** The interval used for [x]: the last [l] in [[k, n-1]] with
    [t[l] <= x], and [k] when there is none; so a point left of [t[k]] or
    right of [t[n]] is evaluated on the first or last polynomial piece
    ([extrapolate=True]). *)
Fixpoint find_interval_from (ts : list R) (x : R) (n fuel l : nat) : nat :=
  match fuel with
  | O => l
  | S fuel' =>
      if Rle_dec (knot ts l) x
      then if Nat.eqb l n then l else find_interval_from ts x n fuel' (S l)
      else l
  end.

Definition find_interval (ts : list R) (deg n : nat) (x : R) : nat :=
  (find_interval_from ts x n (n - (deg + 1)) (deg + 1) - 1)%nat.

(** One term [num / den * b] of the recurrence, zero when the two knots of
    the denominator coincide. *)
Definition term (num den b : R) : R :=
  if Req_dec_T den 0 then 0 else num / den * b.

(** The B-spline basis element [B_{i,deg}] on the polynomial piece [l]
    (Cox-de Boor recurrence started from the piece). *)
Fixpoint basis_element (ts : list R) (l deg i : nat) (x : R) : R :=
  match deg with
  | O => if Nat.eqb i l then 1 else 0
  | S deg' =>
      term (x - knot ts i) (knot ts (i + deg) - knot ts i)
           (basis_element ts l deg' i x)
      + term (knot ts (i + deg + 1) - x) (knot ts (i + deg + 1) - knot ts (i + 1))
             (basis_element ts l deg' (i + 1) x)
  end.

(** [spline(x)]: the sum of [c_j * B_{j,k}(x)] over the [n] basis
    elements. *)
Definition call (s : t) (x : R) : R :=
  let l := find_interval (knots s) (k s) (n s) x in
  Np.sum (map (fun j => nth j (c s) 0 * basis_element (knots s) l (k s) j x)
              (seq 0 (n s))).

End BSpline.

(** ** scipy.special *)

Module Special.

(** [logit(p) = log(p / (1 - p))]: infinite at 0 and 1, [nan] outside
    [[0, 1]]. *)
Definition logit (p : R) : result R :=
  if Rlt_dec 0 p then
    if Rlt_dec p 1 then ret (ln (p / (1 - p))) else raise NonFinite
  else raise NonFinite.

Definition expit (v : R) : R := 1 / (1 + exp (- v)).

End Special.

(** ** The school records *)

(** A key that the code reads with a default and then tests for [None]:
    missing, [null], or a value. *)
Inductive field (A : Type) : Type :=
| Missing
| Null
| Value (a : A).

Arguments Missing {A}.
Arguments Null {A}.
Arguments Value {A} a.

(** [d.get(key, default)] for a key that is missing or holds a value. *)
Definition get_or {A : Type} (v : option A) (d : A) : A :=
  match v with
  | Some a => a
  | None => d
  end.

(** The truth value of a float that may be [None]. *)
Definition truthy (v : option R) : bool :=
  match v with
  | Some r => if Req_dec_T r 0 then false else true
  | None => false
  end.

Module School.

(** The keys of [gpaPercentiles] and [mcatPercentiles] the code reads. *)
Record percentiles : Type := mk_percentiles {
  p25 : option R;
  p75 : option R
}.

(** One entry of [md-schools-enhanced.json], with the keys the two
    calibration scripts read.  [None] is a missing key; for the four rates,
    which are read with [school.get(key)] and tested for [None] or for
    truth, it is also [null].  [totalAccepted] is read with a default and
    then tested for [None]. *)
Record t : Type := mk {
  id : option String.string;
  name : option String.string;
  state : option String.string;
  tier : option Z;
  totalApplicants : option R;
  totalAccepted : field R;
  interviewRate : option R;
  interviewToAcceptRate : option R;
  gpaPercentiles : option percentiles;
  mcatPercentiles : option percentiles;
  medianGPA : option R;
  medianMCAT : option R;
  isPublic : option bool;
  pctInStateMatriculants : option R;
  inStateInterviewRate : option R;
  oosInterviewRate : option R
}.

End School.

(** ** spline_fitting.py *)

Module spline_fitting.

(** [c = np.zeros(n_basis); c[i] = 1.0] *)
Definition one_hot (n_basis i : nat) : list R :=
  map (fun j => if Nat.eqb j i then 1 else 0) (seq 0 n_basis).

Definition default (v : option R) (d : result R) : result R :=
  match v with
  | Some r => ret r
  | None => d
  end.

Definition create_bspline_basis (x : list R) (n_basis degree : nat)
    (x_min x_max : option R) : result (list (list R) * list R) :=
  x_min <- default x_min (Np.min x) ;;
  x_max <- default x_max (Np.max x) ;;
  let n_interior := (Z.of_nat n_basis - Z.of_nat degree - 1)%Z in
  let n_interior := if (n_interior <? 0)%Z then 0%Z else n_interior in
  let interior_knots :=
    Np.slice_1_m1 (Np.linspace x_min x_max (Z.to_nat (n_interior + 2))) in
  let knots :=
    repeat x_min (degree + 1) ++ interior_knots ++ repeat x_max (degree + 1) in
  splines <- mapM (fun i => BSpline.make knots (one_hot n_basis i) degree)
                  (seq 0 n_basis) ;;
  ret (map (fun xr => map (fun s => BSpline.call s xr) splines) x, knots).

(** [np.cumsum(m[:, ::-1], axis=1)[:, ::-1]] on one row. *)
Definition reverse_cumsum (row : list R) : list R := rev (Np.cumsum (rev row)).

(** One entry of [norm_constants[norm_constants == 0] = 1]. *)
Definition zero_to_one (v : R) : R := if Req_dec_T v 0 then 1 else v.

Definition create_ispline_basis (x : list R) (n_basis degree : nat)
    (x_min x_max : option R) : result (list (list R) * list R) :=
  x_min <- default x_min (Np.min x) ;;
  x_max <- default x_max (Np.max x) ;;
  ' (bspline_at_max, knots) <-
    create_bspline_basis [x_max] (n_basis + 1) degree (Some x_min) (Some x_max) ;;
  let bspline_max_reversed := map (@tl R) bspline_at_max in
  let ispline_at_max := map reverse_cumsum bspline_max_reversed in
  let norm_constants := hd [] ispline_at_max in
  let norm_constants := map zero_to_one norm_constants in
  ' (bspline_basis, _) <-
    create_bspline_basis x (n_basis + 1) degree (Some x_min) (Some x_max) ;;
  let bspline_reversed := map (@tl R) bspline_basis in
  let ispline_basis := map reverse_cumsum bspline_reversed in
  let ispline_basis := map (fun row => map2 Rdiv row norm_constants) ispline_basis in
  ret (ispline_basis, knots).

(** The fitted-parameter dictionary.  [degree] is read with
    [params.get('degree', 3)], the other keys with [params[...]];
    [globalIntercept] is the key [calibrate_splines] adds. *)
Record params : Type := mk_params {
  coefficients : list R;
  intercept : R;
  n_basis : nat;
  degree : option nat;
  x_min : R;
  x_max : R;
  knots : list R;
  globalIntercept : option R
}.

Definition get_degree (p : params) : nat :=
  match degree p with
  | Some d => d
  | None => 3%nat
  end.

Definition evaluate_monotone_spline (x : list R) (p : params) : result (list R) :=
  let coef := coefficients p in
  let intercept := intercept p in
  let n_basis := n_basis p in
  let degree := get_degree p in
  let x_min := x_min p in
  let x_max := x_max p in
  ' (basis, _) <- create_ispline_basis x n_basis degree (Some x_min) (Some x_max) ;;
  bc <- Np.matvec basis n_basis coef ;;
  ret (map (fun v => intercept + v) bc).

(** The result object of [scipy.optimize.minimize]. *)
Record OptimizeResult : Type := mk_result {
  res_x : list R;
  res_fun : R;
  res_success : bool;
  res_nit : nat;
  res_message : String.string
}.

(** [minimize(fun, x0, method='L-BFGS-B', options=...)]: any function from
    the objective and the starting point to a result, or an exception. *)
Definition minimizer : Type :=
  (list R -> result R) -> list R -> result OptimizeResult.

Record fit_info : Type := mk_fit_info {
  rmse : result R;
  r2 : R;
  is_monotone : bool;
  converged : bool;
  n_iterations : nat;
  message : String.string
}.

(** [np.log1p(np.exp(t))] *)
Definition softplus (t : R) : R := ln (1 + exp t).

Definition square (v : R) : R := v ^ 2.

(** [a[0]] *)
Definition item0 (l : list R) : result R :=
  match l with
  | v :: _ => ret v
  | [] => raise IndexError
  end.

(** [a[i]] *)
Definition item (l : list R) (i : nat) : result R :=
  match nth_error l i with
  | Some v => ret v
  | None => raise IndexError
  end.

(** [w / s] for an array [w]: each entry is divided by [s]. *)
Definition divide_all (w : list R) (s : R) : result (list R) :=
  match w with
  | [] => ret []
  | _ => if Req_dec_T s 0 then raise NonFinite else ret (map (fun v => v / s) w)
  end.

(** The intercept: fixed by the anchor when there is one, the last
    optimized parameter otherwise. *)
Definition intercept_of (n_basis : nat) (anchor_point : option (R * R))
    (basis_anchor : list (list R)) (coef params : list R) : result R :=
  match anchor_point with
  | Some (x_anchor, y_anchor) =>
      ba <- Np.matvec basis_anchor n_basis coef ;;
      v <- item0 ba ;;
      ret (y_anchor - v)
  | None => item params n_basis
  end.

(** The closure [loss] of [fit_monotone_spline], with the variables it
    captures as arguments. *)
Definition loss (n_basis : nat) (smoothness_penalty : R)
    (anchor_point : option (R * R)) (basis_anchor basis : list (list R))
    (weights y : list R) (params : list R) : result R :=
  let raw_coef := firstn n_basis params in
  let coef := map softplus raw_coef in
  intercept <- intercept_of n_basis anchor_point basis_anchor coef params ;;
  bc <- Np.matvec basis n_basis coef ;;
  let pred := map (fun v => intercept + v) bc in
  res <- Np.broadcast2 Rminus y pred ;;
  wr <- Np.broadcast2 Rmult weights (map square res) ;;
  let mse := Np.sum wr in
  let smooth := smoothness_penalty * Np.sum (map square (Np.diff coef)) in
  ret (mse + smooth).

Section Fit.

Variable minimize : minimizer.

(** [normal trial j]: entry [j] of the array [np.random.randn] returns in
    restart [trial]. *)
Variable normal : nat -> nat -> R.

(** The restarts: [best] is [None] while [best_loss] is [np.inf]. *)
Fixpoint run_trials (loss : list R -> result R) (x0 : list R) (trials : list nat)
    (best : option OptimizeResult) : result (option OptimizeResult) :=
  match trials with
  | [] => ret best
  | trial :: rest =>
      let x0_trial :=
        if (0 <? trial)%nat
        then map2 Rplus x0 (map (fun j => normal trial j * 0.5) (seq 0 (length x0)))
        else x0 in
      result <- minimize loss x0_trial ;;
      let best :=
        match best with
        | None => Some result
        | Some b => if Rlt_dec (res_fun result) (res_fun b) then Some result else Some b
        end in
      run_trials loss x0 rest best
  end.

Definition fit_monotone_spline (x y : list R) (n_basis : nat)
    (weights : option (list R)) (degree : nat) (smoothness_penalty : R)
    (anchor_point : option (R * R)) (x_min x_max : option R)
    : result (params * fit_info) :=
  let weights :=
    match weights with
    | None => Np.ones_like x
    | Some w => w
    end in
  weights <- divide_all weights (Np.sum weights) ;;
  x_min <- default x_min (Np.min x) ;;
  x_max <- default x_max (Np.max x) ;;
  ' (basis, knots) <- create_ispline_basis x n_basis degree (Some x_min) (Some x_max) ;;
  basis_anchor <-
    match anchor_point with
    | Some (x_anchor, y_anchor) =>
        ' (ba, _) <- create_ispline_basis [x_anchor] n_basis degree
                       (Some x_min) (Some x_max) ;;
        ret ba
    | None => ret []
    end ;;
  let loss :=
    loss n_basis smoothness_penalty anchor_point basis_anchor basis weights y in
  let init_coef := Np.zeros n_basis in
  x0 <-
    match anchor_point with
    | Some _ => ret init_coef
    | None => m <- Np.mean y ;; ret (init_coef ++ [m])
    end ;;
  best_result <- run_trials loss x0 [0; 1; 2]%nat None ;;
  result <-
    match best_result with
    | Some r => ret r
    | None => raise AttributeError
    end ;;
  let coef := map softplus (firstn n_basis (res_x result)) in
  intercept <- intercept_of n_basis anchor_point basis_anchor coef (res_x result) ;;
  bc <- Np.matvec basis n_basis coef ;;
  let pred := map (fun v => intercept + v) bc in
  residuals <- Np.broadcast2 Rminus y pred ;;
  wr <- Np.broadcast2 Rmult weights (map square residuals) ;;
  let ss_res := Np.sum wr in
  avg <- Np.average y weights ;;
  wt <- Np.broadcast2 Rmult weights (map (fun v => square (v - avg)) y) ;;
  let ss_tot := Np.sum wt in
  let r2 := if Rlt_dec 0 ss_tot then 1 - ss_res / ss_tot else 0 in
  let rmse := m <- Np.mean (map square residuals) ;; ret (sqrt m) in
  let x_check := Np.linspace x_min x_max 200 in
  ' (basis_check, _) <- create_ispline_basis x_check n_basis degree
                          (Some x_min) (Some x_max) ;;
  bcc <- Np.matvec basis_check n_basis coef ;;
  let y_check := map (fun v => intercept + v) bcc in
  let is_monotone := Np.all_ge (Np.diff y_check) (- 1e-10) in
  ret (mk_params coef intercept n_basis (Some degree) x_min x_max knots None,
       mk_fit_info rmse r2 is_monotone (res_success result) (res_nit result)
                   (res_message result)).

End Fit.

End spline_fitting.

(** ** calibrate_schools.py *)

Module calibrate_schools.

Import spline_fitting.

Definition create_ispline_basis (x : list R) (n_basis degree : nat)
    (x_min x_max : R) : result (list (list R)) :=
  let n_interior := (Z.of_nat n_basis - Z.of_nat degree)%Z in
  let n_interior := if (n_interior <? 0)%Z then 0%Z else n_interior in
  let interior_knots :=
    Np.slice_1_m1 (Np.linspace x_min x_max (Z.to_nat (n_interior + 2))) in
  let knots :=
    repeat x_min (degree + 1) ++ interior_knots ++ repeat x_max (degree + 1) in
  let eval_bspline_basis (pts : list R) (n_b : nat) : result (list (list R)) :=
    splines <- mapM (fun i => BSpline.make knots (one_hot n_b i) degree)
                    (seq 0 n_b) ;;
    ret (map (fun xr => map (fun s => BSpline.call s xr) splines) pts) in
  bspline_at_max <- eval_bspline_basis [x_max] (n_basis + 1)%nat ;;
  let bspline_max_rev := map (@tl R) bspline_at_max in
  let ispline_at_max := map reverse_cumsum bspline_max_rev in
  let norm_constants := hd [] ispline_at_max in
  let norm_constants := map zero_to_one norm_constants in
  bspline_basis <- eval_bspline_basis x (n_basis + 1)%nat ;;
  let bspline_rev := map (@tl R) bspline_basis in
  let ispline_basis := map reverse_cumsum bspline_rev in
  let ispline_basis := map (fun row => map2 Rdiv row norm_constants) ispline_basis in
  ret ispline_basis.

Definition evaluate_spline (x : R) (p : params) : result R :=
  let x_arr := [x] in
  let coef := coefficients p in
  let intercept := intercept p in
  let n_basis := n_basis p in
  let degree := get_degree p in
  let x_min := x_min p in
  let x_max := x_max p in
  basis <- create_ispline_basis x_arr n_basis degree x_min x_max ;;
  bc <- Np.matvec basis n_basis coef ;;
  let result := map (fun v => intercept + v) bc in
  item0 result.

Import String.StringSyntax.
Delimit Scope string_scope with string.

Definition DEFAULT_SLOPES_INTERVIEW (tier : Z) : result R :=
  if (tier =? 1)%Z then ret 1.2
  else if (tier =? 2)%Z then ret 1.0
  else if (tier =? 3)%Z then ret 0.8
  else if (tier =? 4)%Z then ret 0.6
  else raise KeyError.

Definition PUBLIC_IN_STATE_BONUS_MEAN : R := 0.8.
Definition PRIVATE_IN_STATE_BONUS_MEAN : R := 0.1.

(** [competitiveness-splines-v1.json] *)
Record comp_params : Type := mk_comp_params {
  gpaSpline : params;
  mcatSpline : params
}.

Definition compute_C (gpa mcat : R) (cp : comp_params) : result R :=
  gpa_c <- evaluate_spline gpa (gpaSpline cp) ;;
  mcat_c <- evaluate_spline mcat (mcatSpline cp) ;;
  ret (gpa_c + mcat_c).

Definition compute_intercepts (school : School.t) : result (R * R) :=
  let int_rate := School.interviewRate school in
  let ia_rate := School.interviewToAcceptRate school in
  let int_rate :=
    match int_rate with
    | None => 0.10
    | Some r => if Rle_dec r 0 then 0.10 else r
    end in
  let ia_rate :=
    match ia_rate with
    | None => 0.40
    | Some r => if Rle_dec r 0 then 0.40 else r
    end in
  let int_rate := Np.clip int_rate 0.01 0.99 in
  let ia_rate := Np.clip ia_rate 0.01 0.99 in
  intercept_interview <- Special.logit int_rate ;;
  intercept_accept <- Special.logit ia_rate ;;
  ret (intercept_interview, intercept_accept).

Definition estimate_slope_from_iqr (school : School.t) (cp : comp_params)
    : result (R * R) :=
  let tier := get_or (School.tier school) 3%Z in
  let gpa_pct := get_or (School.gpaPercentiles school) (School.mk_percentiles None None) in
  let mcat_pct := get_or (School.mcatPercentiles school) (School.mk_percentiles None None) in
  let gpa_25 := get_or (School.p25 gpa_pct) (get_or (School.medianGPA school) 3.7 - 0.1) in
  let gpa_75 := get_or (School.p75 gpa_pct) (get_or (School.medianGPA school) 3.7 + 0.05) in
  let mcat_25 := get_or (School.p25 mcat_pct) (get_or (School.medianMCAT school) 512 - 4) in
  let mcat_75 := get_or (School.p75 mcat_pct) (get_or (School.medianMCAT school) 512 + 4) in
  C_25 <- compute_C gpa_25 mcat_25 cp ;;
  C_75 <- compute_C gpa_75 mcat_75 cp ;;
  let iqr_C := C_75 - C_25 in
  raw_slope <- (if Rlt_dec 0.1 iqr_C then ret (1.0 / iqr_C)
                else DEFAULT_SLOPES_INTERVIEW tier) ;;
  tier_default <- DEFAULT_SLOPES_INTERVIEW tier ;;
  let shrinkage := 0.5 in
  let slope_interview := shrinkage * tier_default + (1 - shrinkage) * raw_slope in
  let slope_interview := Np.clip slope_interview 0.3 2.0 in
  let slope_accept := slope_interview * 0.5 in
  ret (slope_interview, slope_accept).

Definition compute_in_state_bonus (school : School.t) : result (R * R) :=
  let is_public := get_or (School.isPublic school) false in
  let pct_in_state := get_or (School.pctInStateMatriculants school) 0.5 in
  if is_public && (if Rlt_dec 0.3 pct_in_state then true else false) then
    let is_int_rate := School.inStateInterviewRate school in
    let oos_int_rate := School.oosInterviewRate school in
    bonus_interview <-
      match is_int_rate, oos_int_rate with
      | Some is_r, Some oos_r =>
          if truthy is_int_rate && truthy oos_int_rate
             && (if Rlt_dec oos_r is_r then true else false)
          then
            is_logit <- Special.logit (Np.clip is_r 0.01 0.99) ;;
            oos_logit <- Special.logit (Np.clip oos_r 0.01 0.99) ;;
            ret (is_logit - oos_logit)
          else ret (PUBLIC_IN_STATE_BONUS_MEAN * (pct_in_state / 0.5))
      | _, _ => ret (PUBLIC_IN_STATE_BONUS_MEAN * (pct_in_state / 0.5))
      end ;;
    let bonus_interview := Np.clip bonus_interview 0.2 2.0 in
    let bonus_accept := bonus_interview * 0.3 in
    ret (bonus_interview, bonus_accept)
  else
    let bonus_interview := PRIVATE_IN_STATE_BONUS_MEAN in
    let bonus_accept := bonus_interview * 0.3 in
    ret (bonus_interview, bonus_accept).

(** The dictionary [calibrate_school] returns for one school. *)
Record school_params : Type := mk_school_params {
  schoolId : String.string;
  schoolName : String.string;
  tier : Z;
  interceptInterview : R;
  interceptAccept : R;
  slopeC_interview : R;
  slopeC_accept : R;
  inStateBonus_interview : R;
  inStateBonus_accept : R;
  isPublic : bool;
  state : String.string
}.

(** One entry of the tier statistics. *)
Record tier_stat : Type := mk_tier_stat {
  count : nat;
  interceptInterview_mean : R;
  interceptInterview_sd : R;
  interceptAccept_mean : R;
  interceptAccept_sd : R;
  slopeC_mean : R;
  slopeC_sd : R
}.

(** Python dictionaries with string keys and with tier keys, in insertion
    order: [d[k] = v] replaces the value of a key that is present and
    appends the key otherwise. *)
Definition dict (A : Type) : Type := list (String.string * A).

Fixpoint dict_set {A : Type} (k : String.string) (v : A) (d : dict A) : dict A :=
  match d with
  | [] => [(k, v)]
  | (k', v') :: d' =>
      if String.eqb k' k then (k', v) :: d' else (k', v') :: dict_set k v d'
  end.

Fixpoint dict_get {A : Type} (k : String.string) (d : dict A) : option A :=
  match d with
  | [] => None
  | (k', v') :: d' => if String.eqb k' k then Some v' else dict_get k d'
  end.

Fixpoint tier_get {A : Type} (k : Z) (d : list (Z * A)) : option A :=
  match d with
  | [] => None
  | (k', v') :: d' => if (k' =? k)%Z then Some v' else tier_get k d'
  end.

(** The argument [tier_stats] is not used by the source. *)
Definition calibrate_school (school : School.t) (cp : comp_params)
    (tier_stats : list (Z * tier_stat)) : result school_params :=
  let school_id := get_or (School.id school) "unknown"%string in
  let tier := get_or (School.tier school) 3%Z in
  ' (int_intercept, acc_intercept) <- compute_intercepts school ;;
  ' (slope_int, slope_acc) <- estimate_slope_from_iqr school cp ;;
  ' (is_bonus_int, is_bonus_acc) <- compute_in_state_bonus school ;;
  ret (mk_school_params school_id
         (get_or (School.name school) "Unknown"%string)
         tier int_intercept acc_intercept slope_int slope_acc
         is_bonus_int is_bonus_acc
         (get_or (School.isPublic school) false)
         (get_or (School.state school) String.EmptyString)).

(** [tier_stats[tier].append(v)] *)
Fixpoint append_at {A : Type} (tier : Z) (v : A) (d : list (Z * list A))
    : result (list (Z * list A)) :=
  match d with
  | [] => raise KeyError
  | (k, l) :: d' =>
      if (k =? tier)%Z then ret ((k, l ++ [v]) :: d')
      else d'' <- append_at tier v d' ;; ret ((k, l) :: d'')
  end.

(** The first loop of [compute_tier_statistics]: the three pooled values of
    each school are appended to the list of its tier. *)
Fixpoint group_by_tier (params : dict school_params)
    (tier_stats : list (Z * list (R * R * R))) : result (list (Z * list (R * R * R))) :=
  match params with
  | [] => ret tier_stats
  | (school_id, p) :: rest =>
      let tier := tier p in
      tier_stats <-
        append_at tier (interceptInterview p, interceptAccept p, slopeC_interview p)
                  tier_stats ;;
      group_by_tier rest tier_stats
  end.

(** The argument [schools] is not used by the source. *)
Definition compute_tier_statistics (schools : list School.t)
    (params : dict school_params) : result (list (Z * tier_stat)) :=
  tier_stats <- group_by_tier params [(1%Z, []); (2%Z, []); (3%Z, []); (4%Z, [])] ;;
  mapM (fun entry : Z * list (R * R * R) =>
          let (tier, school_params) := entry in
          if (0 <? length school_params)%nat then
            let int_intercepts := map (fun p => fst (fst p)) school_params in
            let acc_intercepts := map (fun p => snd (fst p)) school_params in
            let slopes := map (fun p => snd p) school_params in
            int_mean <- Np.mean int_intercepts ;;
            int_sd <- Np.std int_intercepts ;;
            acc_mean <- Np.mean acc_intercepts ;;
            acc_sd <- Np.std acc_intercepts ;;
            slope_mean <- Np.mean slopes ;;
            slope_sd <- Np.std slopes ;;
            ret (tier, mk_tier_stat (length school_params) int_mean int_sd
                         acc_mean acc_sd slope_mean slope_sd)
          else
            slope_default <- DEFAULT_SLOPES_INTERVIEW tier ;;
            ret (tier, mk_tier_stat 0 (- 2.0) 0.5 (- 0.5) 0.3 slope_default 0.2))
       tier_stats.

Definition apply_shrinkage (params : dict school_params)
    (tier_stats : list (Z * tier_stat)) (shrinkage_factor : R)
    : result (dict school_params) :=
  mapM (fun entry : String.string * school_params =>
          let (school_id, p) := entry in
          let tier := tier p in
          fallback <- match tier_get 3%Z tier_stats with
                      | Some s => ret s
                      | None => raise KeyError
                      end ;;
          let stats := get_or (tier_get tier tier_stats) fallback in
          let int_int := (1 - shrinkage_factor) * interceptInterview p
                         + shrinkage_factor * interceptInterview_mean stats in
          let int_acc := (1 - shrinkage_factor) * interceptAccept p
                         + shrinkage_factor * interceptAccept_mean stats in
          let slope_int := (1 - shrinkage_factor) * slopeC_interview p
                           + shrinkage_factor * slopeC_mean stats in
          ret (school_id,
               mk_school_params (schoolId p) (schoolName p) (tier) int_int int_acc
                 slope_int (slope_int * 0.5) (inStateBonus_interview p)
                 (inStateBonus_accept p) (isPublic p) (state p)))
       params.

(** The dictionary [validate_parameters] returns; the correlation and the
    mean absolute error are [nan] where the marker stands. *)
Record validation : Type := mk_validation {
  errors : list String.string;
  warnings : list String.string;
  n_schools : nat;
  interview_rate_correlation : result R;
  interview_rate_mae : result R
}.

(** [{s["id"]: s for s in schools}] *)
Fixpoint school_lookup (schools : list School.t) (d : dict School.t)
    : result (dict School.t) :=
  match schools with
  | [] => ret d
  | s :: rest =>
      match School.id s with
      | Some i => school_lookup rest (dict_set i s d)
      | None => raise KeyError
      end
  end.

(** The first loop of [validate_parameters]. *)
Fixpoint check_parameters (lookup : dict School.t) (params : dict school_params)
    (errors warnings : list String.string)
    : list String.string * list String.string :=
  match params with
  | [] => (errors, warnings)
  | (school_id, p) :: rest =>
      match dict_get school_id lookup with
      | None => check_parameters lookup rest errors warnings
      | Some school =>
          let warnings :=
            if Rlt_dec 0 (interceptInterview p)
            then warnings ++ [String.append school_id
                   ": interview intercept > 0 (implies >50% interview rate)"%string]
            else warnings in
          let warnings :=
            if Rlt_dec (interceptInterview p) (- 5)
            then warnings ++ [String.append school_id
                   ": interview intercept very low (<1% rate)"%string]
            else warnings in
          let errors :=
            if Rle_dec (slopeC_interview p) 0
            then errors ++ [String.append school_id
                   ": negative or zero slope on C"%string]
            else errors in
          let warnings :=
            if get_or (School.isPublic school) false
               && (if Rlt_dec (inStateBonus_interview p) 0.1 then true else false)
            then warnings ++ [String.append school_id
                   ": public school with small in-state bonus"%string]
            else warnings in
          check_parameters lookup rest errors warnings
      end
  end.

(** The second loop: the predicted and the observed interview rates of the
    schools that report a positive rate. *)
Fixpoint interview_rates (lookup : dict School.t) (params : dict school_params)
    (predicted observed : list R) : list R * list R :=
  match params with
  | [] => (predicted, observed)
  | (school_id, p) :: rest =>
      match dict_get school_id lookup with
      | None => interview_rates lookup rest predicted observed
      | Some school =>
          match School.interviewRate school with
          | Some obs_rate =>
              if truthy (Some obs_rate) && (if Rlt_dec 0 obs_rate then true else false)
              then interview_rates lookup rest
                     (predicted ++ [Special.expit (interceptInterview p)])
                     (observed ++ [obs_rate])
              else interview_rates lookup rest predicted observed
          | None => interview_rates lookup rest predicted observed
          end
      end
  end.

Definition validate_parameters (params : dict school_params)
    (schools : list School.t) : result validation :=
  lookup <- school_lookup schools [] ;;
  let (errors, warnings) := check_parameters lookup params [] [] in
  let (predicted_int_rates, observed_int_rates) :=
    interview_rates lookup params [] [] in
  let correlation :=
    if (0 <? length predicted_int_rates)%nat
    then Np.corrcoef predicted_int_rates observed_int_rates
    else ret 0 in
  let mae :=
    if (0 <? length predicted_int_rates)%nat
    then Np.mean (map2 (fun a b => Rabs (a - b)) predicted_int_rates observed_int_rates)
    else ret 1 in
  ret (mk_validation errors warnings (length params) correlation mae).

(** The first pass of [main]: [raw_params[school_id] = params]. *)
Fixpoint first_pass (schools : list School.t) (cp : comp_params)
    (raw_params : dict school_params) : result (dict school_params) :=
  match schools with
  | [] => ret raw_params
  | school :: rest =>
      let school_id := get_or (School.id school) "unknown"%string in
      params <- calibrate_school school cp [] ;;
      first_pass rest cp (dict_set school_id params raw_params)
  end.

(** [main] between the loading of the two files, which are its arguments
    here, and the export of the three values it returns here. *)
Definition main (schools : list School.t) (cp : comp_params)
    : result (dict school_params * list (Z * tier_stat) * validation) :=
  raw_params <- first_pass schools cp [] ;;
  tier_stats <- compute_tier_statistics schools raw_params ;;
  final_params <- apply_shrinkage raw_params tier_stats 0.3 ;;
  validation <- validate_parameters final_params schools ;;
  ret (final_params, tier_stats, validation).

End calibrate_schools.

(** ** calibrate_C.py *)

Module calibrate_C.

Import spline_fitting.

Definition GPA_ANCHOR : R := 3.75.
Definition MCAT_ANCHOR : R := 512.
Definition GPA_N_BASIS : nat := 6.
Definition MCAT_N_BASIS : nat := 6.
Definition GPA_MIN : R := 2.0.
Definition GPA_MAX : R := 4.0.
Definition MCAT_MIN : R := 486.
Definition MCAT_MAX : R := 528.

(** One entry of [a23_data["cells"]]. *)
Record cell : Type := mk_cell {
  gpaCenter : R;
  mcatCenter : R;
  acceptanceRate : R;
  weight : R
}.

Record calibration_info : Type := mk_calibration_info {
  rmse : R;
  r2 : result R;
  gpa_monotone : bool;
  mcat_monotone : bool;
  converged : bool;
  n_iterations : nat;
  anchor_gpa : R;
  anchor_mcat : R;
  gpa_spline_r2 : R;
  mcat_spline_r2 : R;
  global_intercept : R
}.

(** [scipy.special.expit] *)
Definition expit (v : R) : R := 1 / (1 + exp (- v)).

(** [np.clip(observed_rates, 0.01, 0.99)] *)
Definition clamped_rates (cells : list cell) : list R :=
  map (fun c => Np.clip (acceptanceRate c) 0.01 0.99) cells.

(** [np.log(observed_rates / (1 - observed_rates))] on the clamped rates. *)
Definition observed_logit (cells : list cell) : list R :=
  map (fun r => ln (r / (1 - r))) (clamped_rates cells).

(** The lookup [to_idx[v]] in [{g: i for i, g in enumerate(values)}]. *)
Fixpoint index_of (v : R) (values : list R) : result nat :=
  match values with
  | [] => raise KeyError
  | g :: rest =>
      if Req_dec_T v g then ret 0%nat
      else i <- index_of v rest ;; ret (S i)
  end.

(** Row [i] of a design matrix: zeros, and a one in column [idx]. *)
Definition indicator_row (n idx : nat) : list R :=
  map (fun j => if Nat.eqb j idx then 1 else 0) (seq 0 n).

(** The closure [loss] of [calibrate_splines]. *)
Definition loss (n_gpa n_mcat : nat) (X_gpa X_mcat : list (list R))
    (weights observed_logit : list R) (params : list R) : result R :=
  let alpha_gpa := firstn n_gpa params in
  let alpha_mcat := firstn n_mcat (skipn n_gpa params) in
  pg <- Np.matvec X_gpa n_gpa alpha_gpa ;;
  pm <- Np.matvec X_mcat n_mcat alpha_mcat ;;
  let pred := map2 Rplus pg pm in
  let mse := Np.sum (map2 Rmult weights (map square (map2 Rminus observed_logit pred))) in
  let mono_gpa :=
    Np.sum (map (fun d => square (Rmax 0 (- d))) (Np.diff alpha_gpa)) * 100 in
  let mono_mcat :=
    Np.sum (map (fun d => square (Rmax 0 (- d))) (Np.diff alpha_mcat)) * 100 in
  let smooth :=
    0.01 * (Np.sum (map square (Np.diff alpha_gpa))
            + Np.sum (map square (Np.diff alpha_mcat))) in
  ret (mse + mono_gpa + mono_mcat + smooth).

(** [params['intercept'] = v] *)
Definition set_intercept (p : params) (v : R) : params :=
  mk_params (coefficients p) v (n_basis p) (degree p) (x_min p) (x_max p)
            (knots p) (globalIntercept p).

(** [params['globalIntercept'] = v] *)
Definition set_globalIntercept (p : params) (v : R) : params :=
  mk_params (coefficients p) (intercept p) (n_basis p) (degree p) (x_min p)
            (x_max p) (knots p) (Some v).

Definition compute_C (gpa mcat : R) (gpa_params mcat_params : params) : result R :=
  g <- evaluate_monotone_spline [gpa] gpa_params ;;
  gpa_contrib <- item0 g ;;
  m <- evaluate_monotone_spline [mcat] mcat_params ;;
  mcat_contrib <- item0 m ;;
  ret (gpa_contrib + mcat_contrib).

Definition compute_p_accept_single (C : R) (school : School.t) (global_slope : R)
    : result R :=
  let total_apps := get_or (School.totalApplicants school) 5000 in
  let total_acc :=
    match School.totalAccepted school with
    | Missing => Some 200
    | Null => None
    | Value v => Some v
    end in
  if Req_dec_T total_apps 0 then ret 0.05
  else
    match total_acc with
    | None => ret 0.05
    | Some total_acc =>
        let base_rate := total_acc / total_apps in
        if Req_dec_T (1 - base_rate + 1e-10) 0 then raise ZeroDivisionError
        else
          base_logit <- Np.log (base_rate / (1 - base_rate + 1e-10)) ;;
          let logit_p := base_logit + global_slope * C in
          ret (expit logit_p)
    end.

(** [sorted(l, key=key, reverse=True)]: descending, and stable. *)
Fixpoint insert_descending {A : Type} (key : A -> R) (a : A) (l : list A) : list A :=
  match l with
  | [] => [a]
  | b :: l' =>
      if Rlt_dec (key a) (key b) then b :: insert_descending key a l'
      else a :: b :: l'
  end.

Definition sorted_descending {A : Type} (key : A -> R) (l : list A) : list A :=
  fold_right (insert_descending key) [] l.

(** The loop of [compute_p_at_least_one]. *)
Fixpoint reject_all (C : R) (global_slope : R) (selected : list School.t)
    (p_reject_all : R) : result R :=
  match selected with
  | [] => ret p_reject_all
  | school :: rest =>
      p_accept <- compute_p_accept_single C school global_slope ;;
      reject_all C global_slope rest (p_reject_all * (1 - p_accept))
  end.

Definition compute_p_at_least_one (C : R) (schools : list School.t)
    (n_applications : nat) (global_slope : R) : result R :=
  let sorted_schools :=
    sorted_descending (fun s => get_or (School.totalApplicants s) 0) schools in
  let selected :=
    firstn (Nat.min (n_applications * 2) (length sorted_schools)) sorted_schools in
  p_reject_all <- reject_all C global_slope (firstn n_applications selected) 1.0 ;;
  ret (1 - p_reject_all).

Section Calibrate.

(** The optimizer call of the additive stage, the one of the spline fits,
    and the normal draws of the two fits. *)
Variable minimize_additive : minimizer.
Variable minimize : minimizer.
Variables normal_gpa normal_mcat : nat -> nat -> R.

Definition calibrate_splines (cells : list cell) (verbose : bool)
    : result (params * params * calibration_info) :=
  let gpa_centers := map gpaCenter cells in
  let mcat_centers := map mcatCenter cells in
  let weights := map weight cells in
  let observed_rates := clamped_rates cells in
  let observed_logit := observed_logit cells in
  let unique_gpas := Np.unique gpa_centers in
  let unique_mcats := Np.unique mcat_centers in
  _ <- (if verbose then Np.min observed_rates else ret 0) ;;
  let n_gpa := length unique_gpas in
  let n_mcat := length unique_mcats in
  X_gpa <- mapM (fun c => i <- index_of (gpaCenter c) unique_gpas ;;
                          ret (indicator_row n_gpa i)) cells ;;
  X_mcat <- mapM (fun c => i <- index_of (mcatCenter c) unique_mcats ;;
                           ret (indicator_row n_mcat i)) cells ;;
  let loss := loss n_gpa n_mcat X_gpa X_mcat weights observed_logit in
  let x0_gpa := Np.linspace (- 2) 2 n_gpa in
  let x0_mcat := Np.linspace (- 2) 2 n_mcat in
  let x0 := x0_gpa ++ x0_mcat in
  result <- minimize_additive loss x0 ;;
  let alpha_gpa := firstn n_gpa (res_x result) in
  let alpha_mcat := firstn n_mcat (skipn n_gpa (res_x result)) in
  gpa_anchor_idx <- Np.argmin (map (fun g => Rabs (g - GPA_ANCHOR)) unique_gpas) ;;
  mcat_anchor_idx <- Np.argmin (map (fun m => Rabs (m - MCAT_ANCHOR)) unique_mcats) ;;
  alpha_gpa_anchor <- item alpha_gpa gpa_anchor_idx ;;
  alpha_mcat_anchor <- item alpha_mcat mcat_anchor_idx ;;
  let global_intercept := alpha_gpa_anchor + alpha_mcat_anchor in
  let alpha_gpa_centered := map (fun v => v - alpha_gpa_anchor) alpha_gpa in
  let alpha_mcat_centered := map (fun v => v - alpha_mcat_anchor) alpha_mcat in
  ' (gpa_params, gpa_info) <-
    fit_monotone_spline minimize normal_gpa unique_gpas alpha_gpa_centered
      GPA_N_BASIS None 3 0.001 None (Some GPA_MIN) (Some GPA_MAX) ;;
  ' (mcat_params, mcat_info) <-
    fit_monotone_spline minimize normal_mcat unique_mcats alpha_mcat_centered
      MCAT_N_BASIS None 3 0.001 None (Some MCAT_MIN) (Some MCAT_MAX) ;;
  ga <- evaluate_monotone_spline [GPA_ANCHOR] gpa_params ;;
  gpa_at_anchor <- item0 ga ;;
  ma <- evaluate_monotone_spline [MCAT_ANCHOR] mcat_params ;;
  mcat_at_anchor <- item0 ma ;;
  let gpa_params := set_intercept gpa_params (intercept gpa_params - gpa_at_anchor) in
  let mcat_params := set_intercept mcat_params (intercept mcat_params - mcat_at_anchor) in
  let gpa_params := set_globalIntercept gpa_params global_intercept in
  pg <- Np.matvec X_gpa n_gpa alpha_gpa ;;
  pm <- Np.matvec X_mcat n_mcat alpha_mcat ;;
  let pred_logit := map2 Rplus pg pm in
  let pred_rates := map expit pred_logit in
  let residuals := map2 Rminus observed_rates pred_rates in
  let rmse := sqrt (Np.sum (map2 Rmult weights (map square residuals))) in
  let ss_res := Np.sum (map2 Rmult weights (map square residuals)) in
  avg <- Np.average observed_rates weights ;;
  let ss_tot :=
    Np.sum (map2 Rmult weights (map (fun v => square (v - avg)) observed_rates)) in
  let r2 := if Req_dec_T ss_tot 0 then raise NonFinite else ret (1 - ss_res / ss_tot) in
  let gpa_test := Np.linspace GPA_MIN GPA_MAX 50 in
  let mcat_test := Np.linspace MCAT_MIN MCAT_MAX 50 in
  gpa_C_test <- evaluate_monotone_spline gpa_test gpa_params ;;
  mcat_C_test <- evaluate_monotone_spline mcat_test mcat_params ;;
  let gpa_monotone := Np.all_ge (Np.diff gpa_C_test) (- 1e-10) in
  let mcat_monotone := Np.all_ge (Np.diff mcat_C_test) (- 1e-10) in
  ret (gpa_params, mcat_params,
       mk_calibration_info rmse r2 gpa_monotone mcat_monotone
         (res_success result) (res_nit result) GPA_ANCHOR MCAT_ANCHOR
         (spline_fitting.r2 gpa_info) (spline_fitting.r2 mcat_info)
         global_intercept).

End Calibrate.

End calibrate_C.

(** * Vocabulary of the statements *)

(** ** B-splines on one polynomial piece *)

(** [x] lies on the non-empty piece [l], and the knots up to index
    [l + deg + 1] exist. *)
Definition on_piece (ts : list R) (l deg : nat) (x : R) : Prop :=
  BSpline.knot ts l <= x <= BSpline.knot ts (l + 1)
  /\ BSpline.knot ts l < BSpline.knot ts (l + 1)
  /\ (l + deg + 1 < length ts)%nat.

(** The weight of the left term of the recurrence, cut to [[0, 1]]: a
    non-decreasing function of [x] that does not depend on the piece. *)
Definition weight (ts : list R) (i deg : nat) (x : R) : R :=
  let den := BSpline.knot ts (i + deg) - BSpline.knot ts i in
  if Rlt_dec 0 den then Rmin (Rmax ((x - BSpline.knot ts i) / den) 0) 1 else 0.

(** The sum of the basis elements of index [j] and above. *)
Definition tail_sum (ts : list R) (l deg j : nat) (x : R) : R :=
  Np.sum (map (fun i => BSpline.basis_element ts l deg i x) (seq j (S l - j))).

(** ** Knots, basis values and curves *)

(** [degree + 1] copies of [x_min], [m] interior knots, [degree + 1] copies
    of [x_max]. *)
Definition clamped_knots (degree m : nat) (x_min x_max : R) : list R :=
  repeat x_min (degree + 1)
  ++ map (fun i => x_min + INR i * ((x_max - x_min) / INR (m + 1))) (seq 1 m)
  ++ repeat x_max (degree + 1).

(** The B-spline elements and the I-spline columns as functions of the
    evaluation point. *)
Definition bspline_value (ks : list R) (degree nb i : nat) (x : R) : R :=
  BSpline.basis_element ks (BSpline.find_interval ks degree nb x) degree i x.

Definition ispline_value (ks : list R) (degree n_basis c : nat) (x : R) : R :=
  tail_sum ks (BSpline.find_interval ks degree (n_basis + 1) x) degree (S c) x.

(** The curve a parameter record stands for. *)
Definition ispline_row_at (p : spline_fitting.params) (x : R) : list R :=
  let ks := clamped_knots (spline_fitting.get_degree p)
              (spline_fitting.n_basis p - spline_fitting.get_degree p)
              (spline_fitting.x_min p) (spline_fitting.x_max p) in
  map (fun c => ispline_value ks (spline_fitting.get_degree p)
                  (spline_fitting.n_basis p) c x)
      (seq 0 (spline_fitting.n_basis p)).

Definition curve (p : spline_fitting.params) (x : R) : R :=
  spline_fitting.intercept p + Np.dot (ispline_row_at p x) (spline_fitting.coefficients p).

(** The record can be evaluated: its knots can be built and it has one
    coefficient per basis function. *)
Definition well_formed (p : spline_fitting.params) : Prop :=
  spline_fitting.x_min p < spline_fitting.x_max p
  /\ (spline_fitting.get_degree p <= spline_fitting.n_basis p)%nat
  /\ length (spline_fitting.coefficients p) = spline_fitting.n_basis p.

(** The keys the re-anchoring leaves alone. *)
Definition same_shape (p q : spline_fitting.params) : Prop :=
  spline_fitting.coefficients p = spline_fitting.coefficients q
  /\ spline_fitting.n_basis p = spline_fitting.n_basis q
  /\ spline_fitting.degree p = spline_fitting.degree q
  /\ spline_fitting.x_min p = spline_fitting.x_min q
  /\ spline_fitting.x_max p = spline_fitting.x_max q
  /\ spline_fitting.knots p = spline_fitting.knots q.

(** An optimizer keeps the dimension when it returns, and returns a point
    of the dimension of its starting point. *)
Definition keeps_dimension (minimize : spline_fitting.minimizer) : Prop :=
  forall (f : list R -> result R) (x0 : list R),
    exists r, minimize f x0 = inr r
              /\ length (spline_fitting.res_x r) = length x0.

(** ** Inputs of the examples *)

(** An optimizer that stops at its starting point, and normal draws that
    are all zero. *)
Definition minimize_start : spline_fitting.minimizer :=
  fun _ x0 => inr (spline_fitting.mk_result x0 0 true 0 String.EmptyString).

Definition normal_zero : nat -> nat -> R := fun _ _ => 0.

(** A table of four cells: two GPA bins by two MCAT bins. *)
Definition example_cells : list calibrate_C.cell :=
  [calibrate_C.mk_cell 3.5 508 0.10 0.25; calibrate_C.mk_cell 3.5 516 0.20 0.25;
   calibrate_C.mk_cell 3.9 508 0.25 0.25; calibrate_C.mk_cell 3.9 516 0.45 0.25].

(** The RMSE diagnostic as the specification words it: the root of the
    weighted mean of the squared residuals, with the weights normalized to
    sum to one. *)
Definition weighted_rmse (weights residuals : list R) : R :=
  sqrt (Np.sum (map2 Rmult (map (fun v => v / Np.sum weights) weights)
                           (map spline_fitting.square residuals))).

(** ** Schools and their calibrated parameters *)

Import String.StringSyntax.
Delimit Scope string_scope with string.

(** [total_apps] and [total_acc] of [compute_p_accept_single]. *)
Definition total_applicants (s : School.t) : R :=
  get_or (School.totalApplicants s) 5000.

Definition total_accepted (s : School.t) : option R :=
  match School.totalAccepted s with
  | Missing => Some 200
  | Null => None
  | Value v => Some v
  end.

(** The school has a positive number of acceptances, not above its number
    of applicants. *)
Definition reports_rate (s : School.t) : Prop :=
  exists acc : R, total_accepted s = Some acc /\ 0 < acc <= total_applicants s.

(** [school.get("tier", 3)], and the keys of [DEFAULT_SLOPES_INTERVIEW]. *)
Definition school_tier (s : School.t) : Z := get_or (School.tier s) 3%Z.

Definition valid_tier (t : Z) : Prop := (1 <= t <= 4)%Z.

(** The four percentile points of [estimate_slope_from_iqr]. *)
Definition gpa_25 (s : School.t) : R :=
  get_or (School.p25 (get_or (School.gpaPercentiles s) (School.mk_percentiles None None)))
         (get_or (School.medianGPA s) 3.7 - 0.1).

Definition gpa_75 (s : School.t) : R :=
  get_or (School.p75 (get_or (School.gpaPercentiles s) (School.mk_percentiles None None)))
         (get_or (School.medianGPA s) 3.7 + 0.05).

Definition mcat_25 (s : School.t) : R :=
  get_or (School.p25 (get_or (School.mcatPercentiles s) (School.mk_percentiles None None)))
         (get_or (School.medianMCAT s) 512 - 4).

Definition mcat_75 (s : School.t) : R :=
  get_or (School.p75 (get_or (School.mcatPercentiles s) (School.mk_percentiles None None)))
         (get_or (School.medianMCAT s) 512 + 4).

(** A public school with more than 30% in-state matriculants (50% when the
    key is missing): the first branch of [compute_in_state_bonus]. *)
Definition in_state_preference (s : School.t) : Prop :=
  School.isPublic s = Some true
  /\ 0.3 < get_or (School.pctInStateMatriculants s) 0.5.

(** The log-odds of the two clamping bounds 0.01 and 0.99. *)
Definition logit_min : R := ln (0.01 / 0.99).
Definition logit_max : R := ln (0.99 / 0.01).

(** The ranges of the six calibrated parameters of a school. *)
Definition in_range (p : calibrate_schools.school_params) : Prop :=
  logit_min <= calibrate_schools.interceptInterview p <= logit_max
  /\ logit_min <= calibrate_schools.interceptAccept p <= logit_max
  /\ 0.3 <= calibrate_schools.slopeC_interview p <= 2.0
  /\ calibrate_schools.slopeC_accept p = calibrate_schools.slopeC_interview p * 0.5
  /\ 0.1 <= calibrate_schools.inStateBonus_interview p <= 2.0
  /\ calibrate_schools.inStateBonus_accept p
     = calibrate_schools.inStateBonus_interview p * 0.3.

Definition stat_in_range (st : calibrate_schools.tier_stat) : Prop :=
  logit_min <= calibrate_schools.interceptInterview_mean st <= logit_max
  /\ logit_min <= calibrate_schools.interceptAccept_mean st <= logit_max
  /\ 0.3 <= calibrate_schools.slopeC_mean st <= 2.0.

(** The parameter sets of a tier, in the order of the dictionary, and the
    three values [compute_tier_statistics] pools for each. *)
Definition of_tier (t : Z) (params : calibrate_schools.dict calibrate_schools.school_params)
    : list calibrate_schools.school_params :=
  filter (fun p => (calibrate_schools.tier p =? t)%Z) (map snd params).

Definition pooled (p : calibrate_schools.school_params) : R * R * R :=
  (calibrate_schools.interceptInterview p, calibrate_schools.interceptAccept p,
   calibrate_schools.slopeC_interview p).

(** Mean and population standard deviation of a non-empty list. *)
Definition mean_of (l : list R) : R := Np.sum l / INR (length l).

Definition sd_of (l : list R) : R :=
  sqrt (mean_of (map (fun a => (a - mean_of l) ^ 2) l)).

(** A dictionary with the keys 1 to 4. *)
Definition four {A : Type} (l1 l2 l3 l4 : A) : list (Z * A) :=
  [(1%Z, l1); (2%Z, l2); (3%Z, l3); (4%Z, l4)].

Definition at_tier {A : Type} (t t' : Z) (l : list A) : list A :=
  if (t' =? t)%Z then l else [].

(** The entry of a tier, from the pooled values of its schools. *)
Definition tier_summary (t : Z) (l : list (R * R * R)) : calibrate_schools.tier_stat :=
  match l with
  | [] => calibrate_schools.mk_tier_stat 0 (- 2.0) 0.5 (- 0.5) 0.3
            (if (t =? 1)%Z then 1.2 else if (t =? 2)%Z then 1.0
             else if (t =? 3)%Z then 0.8 else 0.6) 0.2
  | _ => calibrate_schools.mk_tier_stat (length l)
           (mean_of (map (fun p => fst (fst p)) l)) (sd_of (map (fun p => fst (fst p)) l))
           (mean_of (map (fun p => snd (fst p)) l)) (sd_of (map (fun p => snd (fst p)) l))
           (mean_of (map (fun p => snd p) l)) (sd_of (map (fun p => snd p) l))
  end.

(** One school after the shrinkage toward the statistics [st]. *)
Definition shrink (f : R) (st : calibrate_schools.tier_stat)
    (p : calibrate_schools.school_params) : calibrate_schools.school_params :=
  calibrate_schools.mk_school_params
    (calibrate_schools.schoolId p) (calibrate_schools.schoolName p)
    (calibrate_schools.tier p)
    ((1 - f) * calibrate_schools.interceptInterview p
     + f * calibrate_schools.interceptInterview_mean st)
    ((1 - f) * calibrate_schools.interceptAccept p
     + f * calibrate_schools.interceptAccept_mean st)
    ((1 - f) * calibrate_schools.slopeC_interview p + f * calibrate_schools.slopeC_mean st)
    (((1 - f) * calibrate_schools.slopeC_interview p
      + f * calibrate_schools.slopeC_mean st) * 0.5)
    (calibrate_schools.inStateBonus_interview p) (calibrate_schools.inStateBonus_accept p)
    (calibrate_schools.isPublic p) (calibrate_schools.state p).

(** The statistics [apply_shrinkage] uses for a tier: its entry, and the
    entry of tier 3 when it has none. *)
Definition stats_for (ts : list (Z * calibrate_schools.tier_stat))
    (fallback : calibrate_schools.tier_stat) (t : Z) : calibrate_schools.tier_stat :=
  get_or (calibrate_schools.tier_get t ts) fallback.

(** A school of the list has this id. *)
Definition listed (schools : list School.t) (school_id : String.string) : Prop :=
  exists s, In s schools /\ School.id s = Some school_id.

(** The parameter sets [validate_parameters] reports an error for. *)
Definition offending (lookup : calibrate_schools.dict School.t)
    (e : String.string * calibrate_schools.school_params) : bool :=
  match calibrate_schools.dict_get (fst e) lookup with
  | Some _ => if Rle_dec (calibrate_schools.slopeC_interview (snd e)) 0 then true else false
  | None => false
  end.

(** ** Schools of the examples *)

(** Two curves that can be evaluated, over the GPA and the MCAT domain. *)
Definition example_comp_params : calibrate_schools.comp_params :=
  calibrate_schools.mk_comp_params
    (spline_fitting.mk_params [1; 1; 1; 1; 1; 1] 0 6 (Some 3%nat) 2 4 [] None)
    (spline_fitting.mk_params [1; 1; 1; 1; 1; 1] 0 6 (Some 3%nat) 486 528 [] None).

(** A public school with 6000 applicants, 300 acceptances and no
    percentiles. *)
Definition example_school (school_id : option String.string) (t : Z) : School.t :=
  School.mk school_id None None (Some t) (Some 6000) (Value 300) (Some 0.12) (Some 0.45)
    None None None None (Some true) (Some 0.6) None None.

(** A school of tier 1 whose 25th and 75th percentiles coincide. *)
Definition example_school_narrow : School.t :=
  School.mk None None None (Some 1%Z) None Missing None None
    (Some (School.mk_percentiles (Some 3.7) (Some 3.7)))
    (Some (School.mk_percentiles (Some 512) (Some 512)))
    None None None None None None.

Definition example_schools : list School.t :=
  [example_school (Some "a"%string) 1; example_school (Some "b"%string) 1;
   example_school (Some "c"%string) 3].

Definition example_school_params (school_id : String.string) (t : Z) (slope : R)
    : calibrate_schools.school_params :=
  calibrate_schools.mk_school_params school_id school_id t (- 2) (- 1) slope (slope * 0.5)
    0.1 0.03 false String.EmptyString.

Definition example_params : calibrate_schools.dict calibrate_schools.school_params :=
  [("a"%string, example_school_params "a"%string 1 1);
   ("b"%string, example_school_params "b"%string 1 2);
   ("c"%string, example_school_params "c"%string 3 1)].

(** The key of a school in the first pass of [main]. *)
Definition school_key (s : School.t) : String.string :=
  get_or (School.id s) "unknown"%string.


(** A record with one coefficient for six basis functions. *)
Definition example_malformed : spline_fitting.params :=
  spline_fitting.mk_params [1] 0 6 (Some 3%nat) 0 1 [] None.

(** * Properties *)

(** ** The error monad *)

Lemma bind_inr {A B : Type} (c : result A) (f : A -> result B) (b : B) :
  bind c f = inr b -> exists a, c = inr a /\ f a = inr b.
Proof.
  destruct c as [e | a]; simpl; intros H; [discriminate | eauto].
Qed.

Lemma mapM_const_inr {A B : Type} (f : A -> result B) (g : A -> B) (l : list A) :
  (forall a, In a l -> f a = inr (g a)) -> mapM f l = inr (map g l).
Proof.
  induction l as [| a l IH]; intros H; simpl; [reflexivity |].
  rewrite (H a (or_introl eq_refl)). simpl.
  rewrite IH by (intros; apply H; now right). reflexivity.
Qed.

Lemma mapM_inl_head {A B : Type} (f : A -> result B) (e : exn) (l : list A) :
  l <> [] -> (forall a, In a l -> f a = inl e) -> mapM f l = inl e.
Proof.
  destruct l as [| a l]; intros Hne H; [congruence |].
  simpl. now rewrite (H a (or_introl eq_refl)).
Qed.

(** ** Sums and lists *)

Lemma map2_length {A B C : Type} (f : A -> B -> C) (a : list A) (b : list B) :
  length a = length b -> length (map2 f a b) = length a.
Proof.
  revert b; induction a as [| x a IH]; intros [| y b] H; simpl in *; try congruence.
  f_equal; apply IH; congruence.
Qed.

Lemma map2_map_seq {C : Type} (f : R -> R -> C) (g h : nat -> R) (s n : nat) :
  map2 f (map g (seq s n)) (map h (seq s n)) = map (fun i => f (g i) (h i)) (seq s n).
Proof.
  revert s; induction n as [| n IH]; intros s; simpl; [reflexivity |].
  now rewrite IH.
Qed.

Lemma sum_app (a b : list R) : Np.sum (a ++ b) = Np.sum a + Np.sum b.
Proof.
  induction a as [| x a IH]; simpl; [lra |]. rewrite IH. lra.
Qed.

Lemma sum_map_zero {A : Type} (f : A -> R) (l : list A) :
  (forall a, In a l -> f a = 0) -> Np.sum (map f l) = 0.
Proof.
  induction l as [| a l IH]; intros H; simpl; [reflexivity |].
  rewrite (H a (or_introl eq_refl)), IH; [lra |]. intros; apply H; now right.
Qed.

Lemma sum_map_ext {A : Type} (f g : A -> R) (l : list A) :
  (forall a, In a l -> f a = g a) -> Np.sum (map f l) = Np.sum (map g l).
Proof.
  induction l as [| a l IH]; intros H; simpl; [reflexivity |].
  rewrite (H a (or_introl eq_refl)), IH; [lra |]. intros; apply H; now right.
Qed.

Lemma sum_map_le {A : Type} (f g : A -> R) (l : list A) :
  (forall a, In a l -> f a <= g a) -> Np.sum (map f l) <= Np.sum (map g l).
Proof.
  induction l as [| a l IH]; intros H; simpl; [lra |].
  pose proof (H a (or_introl eq_refl)).
  assert (Np.sum (map f l) <= Np.sum (map g l)) by (apply IH; intros; apply H; now right).
  lra.
Qed.

Lemma nth_map_lt {A : Type} (f : A -> R) (l : list A) (d : A) (i : nat) :
  (i < length l)%nat -> nth i (map f l) 0 = f (nth i l d).
Proof.
  intros H. rewrite (nth_indep _ 0 (f d)) by (now rewrite length_map).
  apply map_nth.
Qed.

Lemma tl_map_seq {A : Type} (f : nat -> A) (n : nat) :
  tl (map f (seq 0 (n + 1))) = map f (seq 1 n).
Proof. replace (n + 1)%nat with (S n) by lia. reflexivity. Qed.

(** The sum of an indicator of one index over a range. *)
Lemma sum_indicator (g : nat -> R) (i s n : nat) :
  Np.sum (map (fun j => (if Nat.eqb j i then 1 else 0) * g j) (seq s n))
  = if (s <=? i)%nat && (i <? s + n)%nat then g i else 0.
Proof.
  revert s; induction n as [| n IH]; intros s; simpl.
  - destruct (s <=? i)%nat eqn:E1; simpl; [| reflexivity].
    destruct (i <? s + 0)%nat eqn:E2; [| reflexivity].
    apply Nat.leb_le in E1. apply Nat.ltb_lt in E2. lia.
  - rewrite IH. destruct (Nat.eqb s i) eqn:E.
    + apply Nat.eqb_eq in E. subst s.
      replace (S i <=? i)%nat with false by (symmetry; apply Nat.leb_gt; lia).
      replace (i <=? i)%nat with true by (symmetry; apply Nat.leb_le; lia).
      replace (i <? i + S n)%nat with true by (symmetry; apply Nat.ltb_lt; lia).
      simpl. lra.
    + apply Nat.eqb_neq in E.
      destruct (S s <=? i)%nat eqn:E1.
      * apply Nat.leb_le in E1.
        replace (s <=? i)%nat with true by (symmetry; apply Nat.leb_le; lia).
        replace (s + S n)%nat with (S s + n)%nat by lia. simpl. lra.
      * apply Nat.leb_gt in E1.
        replace (s <=? i)%nat with false by (symmetry; apply Nat.leb_gt; lia).
        simpl. lra.
Qed.

Lemma cumsum_from_app (acc : R) (a b : list R) :
  Np.cumsum_from acc (a ++ b)
  = Np.cumsum_from acc a ++ Np.cumsum_from (acc + Np.sum a) b.
Proof.
  revert acc; induction a as [| x a IH]; intros acc; simpl.
  - now rewrite Rplus_0_r.
  - rewrite IH. do 3 f_equal. lra.
Qed.

(** The reverse cumulative sum lists the sums of the suffixes. *)
Lemma reverse_cumsum_cons (a : R) (l : list R) :
  spline_fitting.reverse_cumsum (a :: l)
  = (a + Np.sum l) :: spline_fitting.reverse_cumsum l.
Proof.
  unfold spline_fitting.reverse_cumsum, Np.cumsum. simpl.
  rewrite cumsum_from_app. simpl. rewrite rev_app_distr. simpl.
  f_equal. assert (Np.sum (rev l) = Np.sum l) as ->.
  { clear. induction l as [| x l IH]; simpl; [reflexivity |].
    rewrite sum_app, IH. simpl. lra. }
  lra.
Qed.

Lemma reverse_cumsum_map_seq (g : nat -> R) (s n : nat) :
  spline_fitting.reverse_cumsum (map g (seq s n))
  = map (fun j => Np.sum (map g (seq j (s + n - j)))) (seq s n).
Proof.
  revert s; induction n as [| n IH]; intros s.
  - reflexivity.
  - cbn [seq map]. rewrite reverse_cumsum_cons, IH. f_equal.
    + replace (s + S n - s)%nat with (S n) by lia. reflexivity.
    + apply map_ext_in. intros j Hj. apply in_seq in Hj.
      replace (S s + n - j)%nat with (s + S n - j)%nat by lia. reflexivity.
Qed.

(** ** B-spline basis elements on one polynomial piece *)

Section BSplineTheory.

Import BSpline.

Variable ts : list R.
Hypothesis ts_sorted :
  forall i j : nat, (i <= j < length ts)%nat -> knot ts i <= knot ts j.

Lemma on_piece_lower (l deg deg' : nat) (x : R) :
  (deg' <= deg)%nat -> on_piece ts l deg x -> on_piece ts l deg' x.
Proof. unfold on_piece; intros; intuition lia. Qed.

Lemma term_zero (num den : R) : term num den 0 = 0.
Proof. unfold term; destruct (Req_dec_T den 0); lra. Qed.

Lemma basis_element_support (l deg i : nat) (x : R) :
  (l < i \/ i + deg < l)%nat -> basis_element ts l deg i x = 0.
Proof.
  revert i; induction deg as [| deg IH]; intros i H; simpl.
  - destruct (Nat.eqb_spec i l); [lia | reflexivity].
  - rewrite (IH i), (IH (i + 1)%nat) by lia. rewrite !term_zero. lra.
Qed.

(** Where the element of degree [deg] at [i] is not zero, the two knots of
    its support are apart and [x] lies between them. *)
Lemma support_knots (l deg i : nat) (x : R) :
  on_piece ts l deg x -> basis_element ts l deg i x <> 0 ->
  knot ts i <= x <= knot ts (i + deg + 1) /\ knot ts i < knot ts (i + deg + 1).
Proof.
  intros (Hx & Hlt & Hlen) Hne.
  assert (i <= l <= i + deg)%nat as Hil.
  { destruct (le_lt_dec i l); [destruct (le_lt_dec l (i + deg)) |]; try lia;
      exfalso; apply Hne, basis_element_support; lia. }
  assert (knot ts i <= knot ts l) by (apply ts_sorted; lia).
  assert (knot ts (l + 1) <= knot ts (i + deg + 1)) by (apply ts_sorted; lia).
  lra.
Qed.

Lemma basis_element_nonneg (l deg i : nat) (x : R) :
  on_piece ts l deg x -> 0 <= basis_element ts l deg i x.
Proof.
  revert i; induction deg as [| deg IH]; intros i Hp; simpl.
  - destruct (Nat.eqb i l); lra.
  - assert (on_piece ts l deg x) as Hp' by (apply (on_piece_lower l (S deg)); auto).
    assert (forall j num,
      (basis_element ts l deg j x <> 0 -> 0 <= num) ->
      0 <= term num (knot ts (j + deg + 1) - knot ts j) (basis_element ts l deg j x))
      as Hterm.
    { intros j num Hnum. unfold term.
      destruct (Req_dec_T _ 0) as [| Hden]; [lra |].
      destruct (Req_dec_T (basis_element ts l deg j x) 0) as [-> | Hb]; [lra |].
      destruct (support_knots l deg j x Hp' Hb) as [_ Hlt].
      pose proof (IH j Hp'). specialize (Hnum Hb).
      apply Rmult_le_pos; [| assumption].
      apply Rmult_le_pos; [assumption |].
      left. apply Rinv_0_lt_compat. lra. }
    apply Rplus_le_le_0_compat.
    + replace (i + S deg)%nat with (i + deg + 1)%nat by lia.
      apply Hterm. intros Hb. destruct (support_knots l deg i x Hp' Hb). lra.
    + replace (i + S deg + 1)%nat with (i + 1 + deg + 1)%nat by lia.
      apply Hterm. intros Hb. destruct (support_knots l deg (i + 1) x Hp' Hb). lra.
Qed.

(** The two terms fed by one element of the lower degree add up to it. *)
Lemma term_pair (l deg i : nat) (x : R) :
  on_piece ts l deg x ->
  let b := basis_element ts l deg i x in
  let den := knot ts (i + deg + 1) - knot ts i in
  term (x - knot ts i) den b + term (knot ts (i + deg + 1) - x) den b = b.
Proof.
  intros Hp b den. unfold term.
  destruct (Req_dec_T b 0) as [Hb | Hb].
  - rewrite Hb. destruct (Req_dec_T den 0); lra.
  - destruct (support_knots l deg i x Hp Hb) as [_ Hlt].
    destruct (Req_dec_T den 0) as [Hd | Hd]; [unfold den in Hd; lra |].
    unfold den in *. clear den. clearbody b. field. exact Hd.
Qed.

Lemma weight_range (i deg : nat) (x : R) : 0 <= weight ts i deg x <= 1.
Proof.
  unfold weight. destruct (Rlt_dec 0 _); [| lra].
  unfold Rmin, Rmax.
  repeat match goal with |- context [Rle_dec ?a ?b] => destruct (Rle_dec a b) end; lra.
Qed.

Lemma weight_mono (i deg : nat) (x1 x2 : R) :
  x1 <= x2 -> weight ts i deg x1 <= weight ts i deg x2.
Proof.
  intros Hx. unfold weight. destruct (Rlt_dec 0 _) as [Hd |]; [| lra].
  assert ((x1 - knot ts i) / (knot ts (i + deg) - knot ts i)
          <= (x2 - knot ts i) / (knot ts (i + deg) - knot ts i)).
  { unfold Rdiv. apply Rmult_le_compat_r; [| lra].
    left. now apply Rinv_0_lt_compat. }
  apply Rle_min_compat_r, Rle_max_compat_r. assumption.
Qed.

Lemma term_weight (l deg i : nat) (x : R) :
  on_piece ts l deg x ->
  let b := basis_element ts l deg i x in
  term (x - knot ts i) (knot ts (i + S deg) - knot ts i) b = weight ts i (S deg) x * b.
Proof.
  intros Hp b. unfold term, weight.
  destruct (Req_dec_T b 0) as [Hb | Hb].
  - rewrite Hb. destruct (Req_dec_T _ 0); lra.
  - destruct (support_knots l deg i x Hp Hb) as [Hx Hlt].
    replace (i + S deg)%nat with (i + deg + 1)%nat by lia.
    set (den := knot ts (i + deg + 1) - knot ts i) in *.
    assert (0 < den) as Hd by (unfold den; lra).
    destruct (Req_dec_T den 0); [lra |].
    destruct (Rlt_dec 0 den); [| lra].
    assert (0 <= (x - knot ts i) / den <= 1) as Hr.
    { split.
      - apply Rmult_le_pos; [lra |]. left; now apply Rinv_0_lt_compat.
      - apply (Rmult_le_reg_r den); [assumption |].
        unfold Rdiv. rewrite Rmult_assoc, Rinv_l by lra. unfold den. lra. }
    rewrite Rmax_left, Rmin_left by lra. reflexivity.
Qed.

Lemma tail_sum_above (l deg j : nat) (x : R) :
  (l < j)%nat -> tail_sum ts l deg j x = 0.
Proof.
  intros H. unfold tail_sum. replace (S l - j)%nat with 0%nat by lia. reflexivity.
Qed.

Lemma tail_sum_cons (l deg j : nat) (x : R) :
  tail_sum ts l deg j x = basis_element ts l deg j x + tail_sum ts l deg (S j) x.
Proof.
  destruct (le_lt_dec j l) as [H | H].
  - unfold tail_sum. replace (S l - j)%nat with (S (S l - S j)) by lia. reflexivity.
  - rewrite !tail_sum_above by lia. rewrite basis_element_support by lia. lra.
Qed.

(** Any range that reaches the piece gives the same sum. *)
Lemma sum_range_tail (l deg j m : nat) (x : R) :
  (l < j + m)%nat ->
  Np.sum (map (fun i => basis_element ts l deg i x) (seq j m)) = tail_sum ts l deg j x.
Proof.
  intros H. unfold tail_sum.
  destruct (le_lt_dec j l) as [Hj | Hj].
  - replace m with ((S l - j) + (j + m - S l))%nat by lia.
    rewrite seq_app, map_app, sum_app.
    rewrite (sum_map_zero _ (seq (j + (S l - j)) _)).
    + replace (S l - j + (j + m - S l) - (j + m - S l))%nat with (S l - j)%nat by lia.
      replace (S l - j + (j + m - S l))%nat with m by lia. lra.
    + intros i Hi. apply in_seq in Hi. apply basis_element_support. lia.
  - replace (S l - j)%nat with 0%nat by lia. simpl.
    apply sum_map_zero. intros i Hi. apply in_seq in Hi.
    apply basis_element_support. lia.
Qed.

Lemma tail_sum_degree_0 (l j : nat) (x : R) :
  tail_sum ts l 0 j x = if (j <=? l)%nat then 1 else 0.
Proof.
  unfold tail_sum. cbn [basis_element].
  rewrite (sum_map_ext _ (fun i => (if Nat.eqb i l then 1 else 0) * 1))
    by (intros; lra).
  rewrite (sum_indicator (fun _ => 1)).
  destruct (Nat.leb_spec j l); cbn [andb]; [| reflexivity].
  replace (l <? j + (S l - j))%nat with true by (symmetry; apply Nat.ltb_lt; lia).
  reflexivity.
Qed.

(** The recurrence of the tail sums: only the left term of the first
    element is left over. *)
Lemma tail_sum_step (l deg j : nat) (x : R) :
  on_piece ts l deg x ->
  tail_sum ts l (S deg) j x
  = weight ts j (S deg) x * basis_element ts l deg j x + tail_sum ts l deg (S j) x.
Proof.
  intros Hp.
  destruct (le_lt_dec j l) as [Hj | Hj].
  2:{ rewrite !tail_sum_above by lia. rewrite basis_element_support by lia. lra. }
  remember (l - j)%nat as d eqn:Hd. revert j Hj Hd.
  induction d as [| d IH]; intros j Hj Hd.
  - assert (j = l) by lia. subst j.
    rewrite (tail_sum_cons l (S deg) l), !(tail_sum_above l _ (S l)) by lia.
    cbn [basis_element].
    rewrite (basis_element_support l deg (l + 1)) by lia.
    rewrite term_zero, (term_weight l deg l x Hp). lra.
  - rewrite (tail_sum_cons l (S deg) j), (IH (S j)) by lia.
    rewrite (tail_sum_cons l deg (S j)).
    cbn [basis_element]. rewrite (term_weight l deg j x Hp).
    pose proof (term_pair l deg (S j) x Hp) as Hpair. cbv zeta in Hpair.
    replace (S j + deg + 1)%nat with (S j + S deg)%nat in Hpair by lia.
    rewrite (term_weight l deg (S j) x Hp) in Hpair.
    replace (j + S deg + 1)%nat with (S j + S deg)%nat by lia.
    replace (j + 1)%nat with (S j) by lia.
    lra.
Qed.

(** Monotonicity: moving right, on the same piece or a later one, never
    lowers a tail sum. *)
Theorem tail_sum_monotone (deg j l1 l2 : nat) (x1 x2 : R) :
  on_piece ts l1 deg x1 -> on_piece ts l2 deg x2 -> (l1 <= l2)%nat -> x1 <= x2 ->
  tail_sum ts l1 deg j x1 <= tail_sum ts l2 deg j x2.
Proof.
  revert j; induction deg as [| deg IH]; intros j Hp1 Hp2 Hl Hx.
  - rewrite !tail_sum_degree_0.
    destruct (Nat.leb_spec j l1), (Nat.leb_spec j l2); try lra; lia.
  - assert (on_piece ts l1 deg x1) as Hq1 by (apply (on_piece_lower l1 (S deg)); auto).
    assert (on_piece ts l2 deg x2) as Hq2 by (apply (on_piece_lower l2 (S deg)); auto).
    rewrite !tail_sum_step by assumption.
    pose proof (IH j Hq1 Hq2 Hl Hx) as Ha.
    pose proof (IH (S j) Hq1 Hq2 Hl Hx) as Hc.
    rewrite (tail_sum_cons l1 deg j), (tail_sum_cons l2 deg j) in Ha.
    pose proof (basis_element_nonneg l2 deg j x2 Hq2) as Hb2.
    pose proof (weight_range j (S deg) x1) as Hw1.
    pose proof (weight_mono j (S deg) x1 x2 Hx) as Hw.
    set (w1 := weight ts j (S deg) x1) in *. set (w2 := weight ts j (S deg) x2) in *.
    set (b1 := basis_element ts l1 deg j x1) in *.
    set (b2 := basis_element ts l2 deg j x2) in *.
    set (c1 := tail_sum ts l1 deg (S j) x1) in *.
    set (c2 := tail_sum ts l2 deg (S j) x2) in *.
    assert (0 <= w1 * (b2 + c2 - (b1 + c1))) by (apply Rmult_le_pos; lra).
    assert (0 <= (1 - w1) * (c2 - c1)) by (apply Rmult_le_pos; lra).
    assert (0 <= (w2 - w1) * b2) by (apply Rmult_le_pos; lra).
    lra.
Qed.

(** At the right end of a piece followed by [deg] more copies of its end
    knot, the last element is one and the others vanish. *)
Lemma basis_element_right_end (l deg i : nat) :
  knot ts l < knot ts (l + 1) ->
  (forall m : nat, (1 <= m <= deg + 1)%nat -> knot ts (l + m) = knot ts (l + 1)) ->
  basis_element ts l deg i (knot ts (l + 1)) = if Nat.eqb i l then 1 else 0.
Proof.
  intros Hlt. revert i; induction deg as [| deg IH]; intros i Hrep; [reflexivity |].
  cbn [basis_element]. rewrite !IH by (intros; apply Hrep; lia).
  destruct (Nat.eqb_spec i l) as [-> | Hne].
  - destruct (Nat.eqb_spec (l + 1) l); [lia |].
    rewrite term_zero. unfold term.
    rewrite (Hrep (S deg)) by lia.
    destruct (Req_dec_T _ 0); [lra |]. field. lra.
  - rewrite term_zero. destruct (Nat.eqb_spec (i + 1) l) as [E | E].
    + unfold term. subst l.
      replace (i + S deg + 1)%nat with (i + 1 + (S deg))%nat by lia.
      rewrite (Hrep (S deg)) by lia.
      destruct (Req_dec_T _ 0); [lra |]. field. assumption.
    + rewrite term_zero. lra.
Qed.

(** At the left end of a piece preceded by [deg] more copies of its start
    knot, the element [l - deg] is one and the others vanish. *)
Lemma basis_element_left_end (l deg i : nat) :
  knot ts l < knot ts (l + 1) -> (deg <= l)%nat ->
  (forall m : nat, (m <= deg)%nat -> knot ts (l - m) = knot ts l) ->
  basis_element ts l deg i (knot ts l) = if Nat.eqb i (l - deg) then 1 else 0.
Proof.
  intros Hlt. revert i; induction deg as [| deg IH]; intros i Hle Hrep.
  - simpl. now rewrite Nat.sub_0_r.
  - cbn [basis_element]. rewrite !IH by (try lia; intros; apply Hrep; lia).
    destruct (Nat.eqb_spec i (l - deg)) as [-> | Hne].
    + destruct (Nat.eqb_spec (l - deg + 1) (l - deg)); [lia |].
      destruct (Nat.eqb_spec (l - deg) (l - S deg)); [lia |].
      rewrite term_zero. unfold term. rewrite (Hrep deg) by lia.
      destruct (Req_dec_T _ 0); lra.
    + rewrite term_zero. destruct (Nat.eqb_spec (i + 1) (l - deg)) as [E | E].
      * assert (i = l - S deg)%nat by lia. subst i.
        destruct (Nat.eqb_spec (l - S deg) (l - S deg)); [| lia].
        unfold term.
        replace (l - S deg + S deg + 1)%nat with (l + 1)%nat by lia.
        replace (l - S deg + 1)%nat with (l - deg)%nat by lia.
        rewrite (Hrep deg) by lia.
        destruct (Req_dec_T _ 0); [lra |]. field. assumption.
      * destruct (Nat.eqb_spec i (l - S deg)); [lia |]. rewrite term_zero. lra.
Qed.

End BSplineTheory.

(** ** The interval search *)

Section FindInterval.

Import BSpline.

Variables (ts : list R) (x : R) (n : nat).

Lemma find_interval_from_spec (fuel l : nat) :
  (l <= n)%nat -> (n - l <= fuel)%nat ->
  let r := find_interval_from ts x n fuel l in
  (l <= r <= n)%nat
  /\ (forall i : nat, (l <= i < r)%nat -> knot ts i <= x)
  /\ (r = n \/ x < knot ts r).
Proof.
  revert l; induction fuel as [| fuel IH]; intros l Hl Hf; simpl.
  - assert (l = n) by lia. subst l.
    split; [lia |]. split; [intros; lia | now left].
  - destruct (Rle_dec (knot ts l) x) as [Hk | Hk].
    + destruct (Nat.eqb_spec l n) as [-> | Hne].
      * split; [lia |]. split; [intros; lia | now left].
      * destruct (IH (S l)) as (Hr & Hbelow & Hstop); try lia.
        split; [lia |]. split; [| exact Hstop].
        intros i Hi. destruct (Nat.eq_dec i l) as [-> | Hil]; [exact Hk |].
        apply Hbelow. lia.
    + split; [lia |]. split; [intros; lia | right; lra].
Qed.

End FindInterval.

Lemma find_interval_range (ts : list R) (deg n : nat) (x : R) :
  (deg + 1 <= n)%nat ->
  (deg <= BSpline.find_interval ts deg n x <= n - 1)%nat.
Proof.
  intros Hn. unfold BSpline.find_interval.
  destruct (find_interval_from_spec ts x n (n - (deg + 1)) (deg + 1)) as (Hr & _); lia.
Qed.

Lemma find_interval_bounds (ts : list R) (deg n : nat) (x : R) :
  (deg + 1 <= n)%nat ->
  BSpline.knot ts deg <= x <= BSpline.knot ts n ->
  let l := BSpline.find_interval ts deg n x in
  BSpline.knot ts l <= x <= BSpline.knot ts (l + 1).
Proof.
  intros Hn [Hlo Hhi]. unfold BSpline.find_interval.
  destruct (find_interval_from_spec ts x n (n - (deg + 1)) (deg + 1))
    as (Hr & Hbelow & Hstop); try lia.
  set (r := BSpline.find_interval_from ts x n (n - (deg + 1)) (deg + 1)) in *.
  cbv zeta. replace (r - 1 + 1)%nat with r by lia. split.
  - destruct (Nat.eq_dec r (deg + 1)) as [E | E].
    + replace (r - 1)%nat with deg by lia. exact Hlo.
    + apply Hbelow. lia.
  - destruct Hstop as [-> | Hlt]; lra.
Qed.

Lemma find_interval_monotone (ts : list R) (deg n : nat) (x1 x2 : R) :
  (deg + 1 <= n)%nat -> x1 <= x2 ->
  (BSpline.find_interval ts deg n x1 <= BSpline.find_interval ts deg n x2)%nat.
Proof.
  intros Hn Hx. unfold BSpline.find_interval.
  destruct (find_interval_from_spec ts x1 n (n - (deg + 1)) (deg + 1))
    as (Hr1 & Hbelow1 & _); try lia.
  destruct (find_interval_from_spec ts x2 n (n - (deg + 1)) (deg + 1))
    as (Hr2 & _ & Hstop2); try lia.
  set (r1 := BSpline.find_interval_from ts x1 n _ _) in *.
  set (r2 := BSpline.find_interval_from ts x2 n _ _) in *.
  destruct (le_lt_dec r1 r2) as [| Hlt]; [lia |].
  destruct Hstop2 as [E | Hx2]; [lia |].
  specialize (Hbelow1 r2). assert (BSpline.knot ts r2 <= x1) by (apply Hbelow1; lia).
  lra.
Qed.

(** ** The knot sequence *)

Lemma interior_linspace (a b : R) (m : nat) :
  Np.slice_1_m1 (Np.linspace a b (m + 2))
  = map (fun i => a + INR i * ((b - a) / INR (m + 1))) (seq 1 m).
Proof.
  unfold Np.slice_1_m1, Np.linspace.
  replace (m + 2 - 1)%nat with (m + 1)%nat by lia.
  replace (m + 2)%nat with (S (S m)) by lia.
  replace (seq 0 (S (S m))) with (0%nat :: seq 1 m ++ [(1 + m)%nat])
    by (rewrite <- seq_S; reflexivity).
  cbn [map tl]. rewrite map_app. cbn [map].
  apply removelast_last.
Qed.

Lemma clamped_knots_length (degree m : nat) (a b : R) :
  length (clamped_knots degree m a b) = (2 * degree + m + 2)%nat.
Proof.
  unfold clamped_knots.
  rewrite !length_app, !repeat_length, length_map, length_seq. lia.
Qed.

(** Closed form of the knots. *)
Lemma clamped_knots_nth (degree m : nat) (a b : R) (i : nat) :
  (i < 2 * degree + m + 2)%nat ->
  BSpline.knot (clamped_knots degree m a b) i
  = a + INR (Nat.min (i - degree) (m + 1)) * ((b - a) / INR (m + 1)).
Proof.
  intros Hi. unfold BSpline.knot, clamped_knots.
  destruct (le_lt_dec (degree + 1) i) as [H1 | H1].
  - rewrite app_nth2 by (rewrite repeat_length; lia). rewrite repeat_length.
    destruct (le_lt_dec (degree + 1 + m) i) as [H2 | H2].
    + rewrite app_nth2 by (rewrite length_map, length_seq; lia).
      rewrite nth_repeat_lt by (rewrite length_map, length_seq; lia).
      replace (Nat.min (i - degree) (m + 1)) with (m + 1)%nat by lia.
      field. apply not_0_INR. lia.
    + rewrite app_nth1 by (rewrite length_map, length_seq; lia).
      rewrite (nth_map_lt _ _ 0%nat) by (rewrite length_seq; lia).
      rewrite seq_nth by lia.
      replace (Nat.min (i - degree) (m + 1)) with (1 + (i - (degree + 1)))%nat by lia.
      reflexivity.
  - rewrite app_nth1 by (rewrite repeat_length; lia).
    rewrite nth_repeat_lt by lia.
    replace (Nat.min (i - degree) (m + 1)) with 0%nat by lia.
    simpl. lra.
Qed.

Section ClampedKnots.

Variables (degree m : nat) (a b : R).

Let ks := clamped_knots degree m a b.

Lemma clamped_knots_first (i : nat) :
  (i <= degree)%nat -> BSpline.knot ks i = a.
Proof.
  intros H. unfold ks. rewrite clamped_knots_nth by lia.
  replace (Nat.min (i - degree) (m + 1)) with 0%nat by lia. simpl. lra.
Qed.

Lemma clamped_knots_last (i : nat) :
  (degree + m + 1 <= i < 2 * degree + m + 2)%nat -> BSpline.knot ks i = b.
Proof.
  intros H. unfold ks. rewrite clamped_knots_nth by lia.
  replace (Nat.min (i - degree) (m + 1)) with (m + 1)%nat by lia.
  field. apply not_0_INR. lia.
Qed.

Lemma clamped_knots_sorted (i j : nat) :
  a <= b -> (i <= j < length ks)%nat -> BSpline.knot ks i <= BSpline.knot ks j.
Proof.
  intros Hab Hij. unfold ks in *. rewrite clamped_knots_length in Hij.
  rewrite !clamped_knots_nth by lia.
  assert (0 <= (b - a) / INR (m + 1)).
  { apply Rmult_le_pos; [lra |]. left. apply Rinv_0_lt_compat, lt_0_INR. lia. }
  assert (INR (Nat.min (i - degree) (m + 1)) <= INR (Nat.min (j - degree) (m + 1)))
    by (apply le_INR; lia).
  apply Rplus_le_compat_l, Rmult_le_compat_r; assumption.
Qed.

Lemma clamped_knots_strict (i j : nat) :
  a < b -> (degree <= i)%nat -> (i < j)%nat -> (j <= degree + m + 1)%nat ->
  BSpline.knot ks i < BSpline.knot ks j.
Proof.
  intros Hab Hi Hij Hj. unfold ks. rewrite !clamped_knots_nth by lia.
  assert (0 < (b - a) / INR (m + 1)).
  { apply Rmult_lt_0_compat; [lra |]. apply Rinv_0_lt_compat, lt_0_INR. lia. }
  assert (INR (Nat.min (i - degree) (m + 1)) < INR (Nat.min (j - degree) (m + 1)))
    by (apply lt_INR; lia).
  apply Rplus_lt_compat_l, Rmult_lt_compat_r; assumption.
Qed.

(** On the domain the interval search lands on a piece that holds [x]. *)
Lemma clamped_on_piece (x : R) :
  a < b -> a <= x <= b ->
  on_piece ks (BSpline.find_interval ks degree (degree + m + 1) x) degree x.
Proof.
  intros Hab Hx.
  pose proof (find_interval_range ks degree (degree + m + 1) x ltac:(lia)) as Hr.
  pose proof (find_interval_bounds ks degree (degree + m + 1) x ltac:(lia)) as Hb.
  rewrite clamped_knots_first, clamped_knots_last in Hb by lia.
  specialize (Hb Hx). cbv zeta in Hb.
  set (l := BSpline.find_interval ks degree (degree + m + 1) x) in *.
  repeat split; try tauto.
  - apply clamped_knots_strict; try lia. assumption.
  - unfold ks. rewrite clamped_knots_length. lia.
Qed.

End ClampedKnots.

(** ** The constructor checks on the knots of the repository *)

Lemma nondecreasing_spec (l : list R) :
  BSpline.nondecreasing l = true
  <-> (forall i : nat, (S i < length l)%nat -> nth i l 0 <= nth (S i) l 0).
Proof.
  induction l as [| a [| b l] IH].
  - simpl. split; [intros _ i H; lia | reflexivity].
  - simpl. split; [intros _ i H; lia | reflexivity].
  - change (BSpline.nondecreasing (a :: b :: l))
      with ((if Rle_dec a b then true else false) && BSpline.nondecreasing (b :: l)).
    rewrite andb_true_iff, IH. split.
    + intros [Hab Hrest] [| i] Hi.
      * simpl. destruct (Rle_dec a b); [assumption | discriminate].
      * apply (Hrest i). simpl in *. lia.
    + intros H. split.
      * specialize (H 0%nat). simpl in H.
        destruct (Rle_dec a b) as [| Hn]; [reflexivity |]. exfalso. apply Hn, H. lia.
      * intros i Hi. apply (H (S i)). simpl in *. lia.
Qed.

Lemma adjacent_chain (l : list R) (i j : nat) :
  (forall p : nat, (S p < length l)%nat -> nth p l 0 <= nth (S p) l 0) ->
  (i <= j < length l)%nat -> nth i l 0 <= nth j l 0.
Proof.
  intros Hadj [Hij Hj]. induction Hij as [| j Hij IH]; [lra |].
  apply Rle_trans with (nth j l 0); [apply IH; lia | apply Hadj; lia].
Qed.

Lemma insert_unique_In (x v : R) (l : list R) :
  v = x \/ In v l -> In v (Np.insert_unique x l).
Proof.
  induction l as [| y l IH]; simpl; intros H.
  - destruct H as [-> | []]. now left.
  - destruct (Rlt_dec x y).
    + destruct H as [-> | H]; [now left | now right].
    + destruct (Req_dec_T x y) as [-> | Hne].
      * destruct H as [-> | H]; [now left | exact H].
      * destruct H as [-> | [-> | H]].
        -- right. apply IH. now left.
        -- now left.
        -- right. apply IH. now right.
Qed.

Lemma unique_In (v : R) (l : list R) : In v l -> In v (Np.unique l).
Proof.
  induction l as [| x l IH]; simpl; [tauto |].
  intros [-> | H]; apply insert_unique_In; [now left | right; auto].
Qed.

Lemma unique_two (a b : R) (l : list R) :
  a <> b -> In a l -> In b l -> (2 <= length (Np.unique l))%nat.
Proof.
  intros Hab Ha Hb.
  apply (NoDup_incl_length (l := [a; b])).
  - constructor; [simpl; intuition congruence |].
    constructor; [simpl; tauto | constructor].
  - intros v [<- | [<- | []]]; now apply unique_In.
Qed.

Lemma unique_constant (a : R) (l : list R) :
  (forall v, In v l -> v = a) -> (length (Np.unique l) <= 1)%nat.
Proof.
  intros H.
  assert (Np.unique l = [] \/ Np.unique l = [a]) as [-> | ->]; simpl; try lia.
  induction l as [| x l IH]; simpl; [now left |].
  rewrite (H x (or_introl eq_refl)).
  destruct IH as [-> | ->]; [intros; apply H; now right | |]; simpl.
  - now right.
  - destruct (Rlt_dec a a); [lra |].
    destruct (Req_dec_T a a); [now right | congruence].
Qed.

Section MakeClamped.

Variables (degree m : nat) (a b : R) (cs : list R).

Let ks := clamped_knots degree m a b.

Let inner := firstn (m + 2) (skipn degree ks).

Lemma inner_nth (j : nat) :
  (j < m + 2)%nat -> nth j inner 0 = BSpline.knot ks (degree + j).
Proof.
  intros H. unfold inner. rewrite nth_firstn.
  destruct (Nat.ltb_spec j (m + 2)); [| lia]. now rewrite nth_skipn.
Qed.

Lemma inner_length : length inner = (m + 2)%nat.
Proof.
  unfold inner, ks. rewrite length_firstn, length_skipn, clamped_knots_length. lia.
Qed.

Lemma make_checks :
  BSpline.make ks cs degree
  = if negb (BSpline.nondecreasing ks) then raise ValueError
    else if (length (Np.unique inner) <? 2)%nat then raise ValueError
    else if (length cs <? degree + m + 1)%nat then raise ValueError
    else ret (BSpline.mk ks cs degree).
Proof.
  assert (length ks = 2 * degree + m + 2)%nat as Hlen
    by apply clamped_knots_length.
  unfold BSpline.make. rewrite !Hlen.
  destruct (Z.ltb_spec (Z.of_nat (2 * degree + m + 2) - Z.of_nat degree - 1)
                       (Z.of_nat degree + 1)); [lia |].
  replace (Z.to_nat (Z.of_nat (2 * degree + m + 2) - Z.of_nat degree - 1) + 1 - degree)%nat
    with (m + 2)%nat by lia.
  fold inner.
  destruct (negb (BSpline.nondecreasing ks)); [reflexivity |].
  destruct (length (Np.unique inner) <? 2)%nat; [reflexivity |].
  destruct (Z.ltb_spec (Z.of_nat (length cs))
              (Z.of_nat (2 * degree + m + 2) - Z.of_nat degree - 1)),
           (Nat.ltb_spec (length cs) (degree + m + 1)); try lia; reflexivity.
Qed.

Lemma make_clamped_ok :
  a < b -> (degree + m + 1 <= length cs)%nat ->
  BSpline.make ks cs degree = inr (BSpline.mk ks cs degree).
Proof.
  intros Hab Hcs. rewrite make_checks.
  assert (BSpline.nondecreasing ks = true) as ->.
  { apply nondecreasing_spec. intros i Hi.
    apply (clamped_knots_sorted degree m a b i (S i)); [lra | ]. fold ks. lia. }
  cbn [negb].
  assert (2 <= length (Np.unique inner))%nat as H2.
  { apply (unique_two a b); [lra | |].
    - pose proof (nth_In inner 0 (n := 0)) as H.
      rewrite inner_length, inner_nth in H by lia. unfold ks in H.
      rewrite clamped_knots_first in H by lia. apply H. lia.
    - pose proof (nth_In inner 0 (n := m + 1)) as H.
      rewrite inner_length, inner_nth in H by lia. unfold ks in H.
      rewrite clamped_knots_last in H by lia. apply H. lia. }
  destruct (Nat.ltb_spec (length (Np.unique inner)) 2); [lia |].
  destruct (Nat.ltb_spec (length cs) (degree + m + 1)); [lia | reflexivity].
Qed.

Lemma make_clamped_inv (s : BSpline.t) :
  BSpline.make ks cs degree = inr s ->
  a < b /\ (degree + m + 1 <= length cs)%nat /\ s = BSpline.mk ks cs degree.
Proof.
  rewrite make_checks.
  destruct (BSpline.nondecreasing ks) eqn:Hs; cbn [negb]; [| discriminate].
  destruct (Nat.ltb_spec (length (Np.unique inner)) 2) as [| H2]; [discriminate |].
  destruct (Nat.ltb_spec (length cs) (degree + m + 1)); [discriminate |].
  intros [= <-]. split; [| split; [assumption | reflexivity]].
  assert (a <= b) as Hle.
  { pose proof (adjacent_chain ks 0 (2 * degree + m + 1)) as Hc.
    fold (BSpline.knot ks 0) in Hc. fold (BSpline.knot ks (2 * degree + m + 1)) in Hc.
    unfold ks in Hc.
    rewrite clamped_knots_first, clamped_knots_last, clamped_knots_length in Hc by lia.
    apply Hc; [| lia]. intros p Hp.
    apply (proj1 (nondecreasing_spec ks) Hs). unfold ks.
    rewrite clamped_knots_length. exact Hp. }
  destruct (Rle_lt_or_eq_dec a b Hle) as [| Heq]; [assumption | exfalso].
  assert (length (Np.unique inner) <= 1)%nat; [| lia].
  apply (unique_constant a). intros v Hv.
  destruct (In_nth _ _ 0 Hv) as (j & Hj & <-). rewrite inner_length in Hj.
  rewrite inner_nth by assumption. unfold ks.
  rewrite clamped_knots_nth by lia. rewrite <- Heq. unfold Rdiv. lra.
Qed.

End MakeClamped.

(** ** The basis matrices *)

Lemma n_interior_nat (nb degree : nat) :
  Z.to_nat ((if (Z.of_nat nb - Z.of_nat degree - 1 <? 0)%Z then 0%Z
             else (Z.of_nat nb - Z.of_nat degree - 1)%Z) + 2)
  = (nb - degree - 1 + 2)%nat.
Proof.
  destruct (Z.ltb_spec (Z.of_nat nb - Z.of_nat degree - 1) 0); lia.
Qed.

Lemma one_hot_length (nb i : nat) : length (spline_fitting.one_hot nb i) = nb.
Proof. unfold spline_fitting.one_hot. now rewrite length_map, length_seq. Qed.

Lemma one_hot_nth (nb i j : nat) :
  (j < nb)%nat ->
  nth j (spline_fitting.one_hot nb i) 0 = if Nat.eqb j i then 1 else 0.
Proof.
  intros H. unfold spline_fitting.one_hot.
  rewrite (nth_map_lt _ _ 0%nat) by (now rewrite length_seq).
  now rewrite seq_nth.
Qed.

Lemma call_one_hot (ks : list R) (degree nb i : nat) (x : R) :
  (length ks - degree - 1 = nb)%nat -> (i < nb)%nat ->
  BSpline.call (BSpline.mk ks (spline_fitting.one_hot nb i) degree) x
  = bspline_value ks degree nb i x.
Proof.
  intros Hn Hi. unfold BSpline.call, BSpline.n, bspline_value.
  cbn [BSpline.knots BSpline.c BSpline.k]. rewrite Hn.
  set (l := BSpline.find_interval ks degree nb x).
  rewrite (sum_map_ext _
    (fun j => (if Nat.eqb j i then 1 else 0) * BSpline.basis_element ks l degree j x)).
  - rewrite sum_indicator. destruct (Nat.ltb_spec i (0 + nb)); [reflexivity | lia].
  - intros j Hj. apply in_seq in Hj. rewrite one_hot_nth by lia. reflexivity.
Qed.

Section BasisMatrices.

Import spline_fitting.

Variables (degree : nat) (a b : R).

Lemma create_bspline_basis_knots (x : list R) (nb : nat) r :
  create_bspline_basis x nb degree (Some a) (Some b) = inr r ->
  snd r = clamped_knots degree (nb - degree - 1) a b.
Proof.
  unfold create_bspline_basis. cbn [default bind ret].
  rewrite n_interior_nat, interior_linspace. fold (clamped_knots degree (nb - degree - 1) a b).
  intros H. apply bind_inr in H. destruct H as (splines & _ & H).
  injection H as <-. reflexivity.
Qed.

Lemma create_bspline_basis_ok (x : list R) (nb : nat) :
  a < b -> (degree + 1 <= nb)%nat ->
  let ks := clamped_knots degree (nb - degree - 1) a b in
  create_bspline_basis x nb degree (Some a) (Some b)
  = inr (map (fun xr => map (fun i => bspline_value ks degree nb i xr) (seq 0 nb)) x, ks).
Proof.
  intros Hab Hnb ks. unfold create_bspline_basis. cbn [default bind ret].
  rewrite n_interior_nat, interior_linspace. fold (clamped_knots degree (nb - degree - 1) a b).
  fold ks.
  rewrite (mapM_const_inr _ (fun i => BSpline.mk ks (one_hot nb i) degree)).
  - unfold ret. cbn [bind]. f_equal. f_equal. apply map_ext. intros xr.
    rewrite map_map. apply map_ext_in. intros i Hi. apply in_seq in Hi.
    apply call_one_hot; [| lia]. unfold ks. rewrite clamped_knots_length. lia.
  - intros i _. apply make_clamped_ok; [assumption |]. rewrite one_hot_length. lia.
Qed.

Lemma create_bspline_basis_inv (x : list R) (nb : nat) r :
  (1 <= nb)%nat ->
  create_bspline_basis x nb degree (Some a) (Some b) = inr r ->
  a < b /\ (degree + 1 <= nb)%nat.
Proof.
  intros Hnb. unfold create_bspline_basis. cbn [default bind ret].
  rewrite n_interior_nat, interior_linspace. fold (clamped_knots degree (nb - degree - 1) a b).
  intros H. apply bind_inr in H. destruct H as (splines & H & _).
  destruct nb as [| nb]; [lia |]. cbn [seq mapM] in H.
  apply bind_inr in H. destruct H as (s & H & _).
  apply make_clamped_inv in H. rewrite one_hot_length in H.
  destruct H as (Hab & Hlen & _). split; [assumption | lia].
Qed.

End BasisMatrices.

Section ISplineBasis.

Import spline_fitting.

Variables (degree n_basis : nat) (a b : R).
Hypothesis a_lt_b : a < b.
Hypothesis degree_le : (degree <= n_basis)%nat.

Let ks := clamped_knots degree (n_basis - degree) a b.

Lemma ks_length : length ks = (n_basis + 1 + degree + 1)%nat.
Proof. unfold ks. rewrite clamped_knots_length. lia. Qed.

Lemma find_interval_at_max :
  BSpline.find_interval ks degree (n_basis + 1) b = n_basis.
Proof.
  unfold BSpline.find_interval.
  destruct (find_interval_from_spec ks b (n_basis + 1) (n_basis + 1 - (degree + 1))
              (degree + 1)) as (Hr & _ & Hstop); try lia.
  set (r := BSpline.find_interval_from ks b _ _ _) in *.
  destruct Hstop as [-> | Hlt]; [lia | exfalso].
  assert (BSpline.knot ks r <= BSpline.knot ks (n_basis + 1)).
  { apply clamped_knots_sorted; [lra |]. fold ks. rewrite ks_length. lia. }
  unfold ks in H. rewrite (clamped_knots_last _ _ _ _ (n_basis + 1)) in H by lia.
  fold ks in H. lra.
Qed.

Lemma find_interval_at_min :
  BSpline.find_interval ks degree (n_basis + 1) a = degree.
Proof.
  unfold BSpline.find_interval.
  destruct (find_interval_from_spec ks a (n_basis + 1) (n_basis + 1 - (degree + 1))
              (degree + 1)) as (Hr & Hbelow & _); try lia.
  set (r := BSpline.find_interval_from ks a _ _ _) in *.
  destruct (Nat.eq_dec r (degree + 1)) as [-> | Hne]; [lia | exfalso].
  assert (BSpline.knot ks (degree + 1) <= a) by (apply Hbelow; lia).
  pose proof (clamped_knots_strict degree (n_basis - degree) a b degree (degree + 1)
                a_lt_b ltac:(lia) ltac:(lia) ltac:(lia)) as Hs.
  rewrite clamped_knots_first in Hs by lia. fold ks in Hs. lra.
Qed.

Lemma ispline_value_at_max (c : nat) :
  (c < n_basis)%nat -> ispline_value ks degree n_basis c b = 1.
Proof.
  intros Hc. unfold ispline_value. rewrite find_interval_at_max.
  assert (BSpline.knot ks (n_basis + 1) = b) as Hb
    by (unfold ks; apply clamped_knots_last; lia).
  assert (BSpline.knot ks n_basis < BSpline.knot ks (n_basis + 1)) as Hlt
    by (apply clamped_knots_strict; try lia; assumption).
  unfold tail_sum.
  rewrite (sum_map_ext _ (fun i => BSpline.basis_element ks n_basis 0 i b)).
  - fold (tail_sum ks n_basis 0 (S c) b). rewrite tail_sum_degree_0.
    destruct (Nat.leb_spec (S c) n_basis); [reflexivity | lia].
  - intros i _. rewrite <- Hb at 1.
    rewrite basis_element_right_end; [reflexivity | assumption |].
    intros m Hm. rewrite Hb. unfold ks. apply clamped_knots_last. lia.
Qed.

Lemma ispline_value_at_min (c : nat) :
  ispline_value ks degree n_basis c a = 0.
Proof.
  unfold ispline_value. rewrite find_interval_at_min.
  assert (BSpline.knot ks degree = a) as Ha
    by (unfold ks; apply clamped_knots_first; lia).
  assert (BSpline.knot ks degree < BSpline.knot ks (degree + 1)) as Hlt
    by (apply clamped_knots_strict; try lia; assumption).
  unfold tail_sum. apply sum_map_zero. intros i Hi. apply in_seq in Hi.
  rewrite <- Ha at 1.
  rewrite basis_element_left_end; try assumption; try lia.
  - destruct (Nat.eqb_spec i (degree - degree)); [lia | reflexivity].
  - intros m Hm. rewrite Ha. unfold ks. apply clamped_knots_first. lia.
Qed.

Lemma ispline_row (x : R) :
  reverse_cumsum
    (tl (map (fun i => bspline_value ks degree (n_basis + 1) i x) (seq 0 (n_basis + 1))))
  = map (fun c => ispline_value ks degree n_basis c x) (seq 0 n_basis).
Proof.
  rewrite tl_map_seq, reverse_cumsum_map_seq, <- seq_shift, map_map.
  apply map_ext_in. intros c Hc. apply in_seq in Hc.
  unfold bspline_value, ispline_value. apply sum_range_tail.
  pose proof (find_interval_range ks degree (n_basis + 1) x). lia.
Qed.

Theorem create_ispline_basis_ok (x : list R) :
  create_ispline_basis x n_basis degree (Some a) (Some b)
  = inr (map (fun xr => map (fun c => ispline_value ks degree n_basis c xr)
                            (seq 0 n_basis)) x, ks).
Proof.
  unfold create_ispline_basis. cbn [default]. unfold ret at 1 2. cbn [bind].
  rewrite !create_bspline_basis_ok by (assumption || lia).
  replace (n_basis + 1 - degree - 1)%nat with (n_basis - degree)%nat by lia.
  fold ks. cbv zeta. cbn [bind map hd]. unfold ret. f_equal. f_equal.
  rewrite !map_map. apply map_ext. intros xr.
  rewrite !ispline_row.
  rewrite map_map, map2_map_seq. apply map_ext_in. intros c Hc. apply in_seq in Hc.
  rewrite ispline_value_at_max by lia. unfold zero_to_one.
  destruct (Req_dec_T 1 0); [lra |]. field.
Qed.

End ISplineBasis.

Lemma create_ispline_basis_inv (x : list R) (n_basis degree : nat) (a b : R) r :
  spline_fitting.create_ispline_basis x n_basis degree (Some a) (Some b) = inr r ->
  a < b /\ (degree <= n_basis)%nat.
Proof.
  unfold spline_fitting.create_ispline_basis. cbn [spline_fitting.default].
  unfold ret at 1 2. cbn [bind]. intros H.
  apply bind_inr in H. destruct H as (r1 & H & _).
  apply create_bspline_basis_inv in H; [| lia]. split; [tauto | lia].
Qed.

(** ** Evaluation of a parameter record *)

Ltac bind_inv H :=
  let v := fresh "v" in
  let E := fresh "E" in
  apply bind_inr in H; destruct H as (v & E & H).

Lemma matvec_inr (m : list (list R)) (ncols : nat) (v r : list R) :
  Np.matvec m ncols v = inr r ->
  ncols = length v /\ r = map (fun row => Np.dot row v) m.
Proof.
  unfold Np.matvec. destruct (Nat.eqb_spec ncols (length v)); [| discriminate].
  intros [= <-]. auto.
Qed.

Lemma matvec_ok (m : list (list R)) (ncols : nat) (v : list R) :
  ncols = length v -> Np.matvec m ncols v = inr (map (fun row => Np.dot row v) m).
Proof.
  intros ->. unfold Np.matvec. now rewrite Nat.eqb_refl.
Qed.

Lemma evaluate_ok (x : list R) (p : spline_fitting.params) :
  well_formed p ->
  spline_fitting.evaluate_monotone_spline x p = inr (map (curve p) x).
Proof.
  intros (Hab & Hdeg & Hlen). unfold spline_fitting.evaluate_monotone_spline.
  rewrite create_ispline_basis_ok by assumption. cbn [bind].
  rewrite matvec_ok by (now rewrite Hlen). cbn [bind]. unfold ret.
  rewrite !map_map. reflexivity.
Qed.

Lemma evaluate_inv (x : list R) (p : spline_fitting.params) (r : list R) :
  spline_fitting.evaluate_monotone_spline x p = inr r ->
  well_formed p /\ r = map (curve p) x.
Proof.
  intros H. assert (well_formed p) as Hwf.
  { unfold spline_fitting.evaluate_monotone_spline in H. bind_inv H.
    destruct v as [basis ks]. bind_inv H.
    apply create_ispline_basis_inv in E. apply matvec_inr in E0.
    unfold well_formed. intuition congruence. }
  split; [assumption |]. rewrite evaluate_ok in H by assumption. congruence.
Qed.

(** ** Monotonicity of the curve *)

Lemma ispline_value_monotone (degree n_basis c : nat) (a b x1 x2 : R) :
  a < b -> (degree <= n_basis)%nat -> a <= x1 -> x1 <= x2 -> x2 <= b ->
  let ks := clamped_knots degree (n_basis - degree) a b in
  ispline_value ks degree n_basis c x1 <= ispline_value ks degree n_basis c x2.
Proof.
  intros Hab Hdeg H1 H12 H2 ks. unfold ispline_value.
  assert (n_basis + 1 = degree + (n_basis - degree) + 1)%nat as Hn by lia.
  apply tail_sum_monotone.
  - intros i j Hij. apply clamped_knots_sorted; [lra | assumption].
  - rewrite Hn. apply clamped_on_piece; [assumption | lra].
  - rewrite Hn. apply clamped_on_piece; [assumption | lra].
  - apply find_interval_monotone; [lia | assumption].
  - assumption.
Qed.

Lemma dot_map_seq_le (f g : nat -> R) (s n : nat) (coef : list R) :
  (forall c : nat, (s <= c < s + n)%nat -> f c <= g c) ->
  (forall v : R, In v coef -> 0 <= v) ->
  Np.dot (map f (seq s n)) coef <= Np.dot (map g (seq s n)) coef.
Proof.
  unfold Np.dot. revert s coef; induction n as [| n IH]; intros s coef Hfg Hpos.
  - simpl. lra.
  - destruct coef as [| v coef]; [simpl; lra |].
    cbn [seq map map2 Np.sum fold_right].
    assert (f s * v <= g s * v)
      by (apply Rmult_le_compat_r; [apply Hpos; now left | apply Hfg; lia]).
    specialize (IH (S s) coef).
    assert (fold_right Rplus 0 (map2 Rmult (map f (seq (S s) n)) coef)
            <= fold_right Rplus 0 (map2 Rmult (map g (seq (S s) n)) coef)).
    { apply IH; [intros; apply Hfg; lia | intros; apply Hpos; now right]. }
    lra.
Qed.

Theorem curve_monotone (p : spline_fitting.params) (x1 x2 : R) :
  well_formed p ->
  (forall v : R, In v (spline_fitting.coefficients p) -> 0 <= v) ->
  spline_fitting.x_min p <= x1 -> x1 <= x2 -> x2 <= spline_fitting.x_max p ->
  curve p x1 <= curve p x2.
Proof.
  intros (Hab & Hdeg & Hlen) Hpos H1 H12 H2. unfold curve, ispline_row_at.
  apply Rplus_le_compat_l, dot_map_seq_le; [| assumption].
  intros c _. now apply ispline_value_monotone.
Qed.

Lemma softplus_pos (t : R) : 0 < spline_fitting.softplus t.
Proof.
  unfold spline_fitting.softplus. rewrite <- ln_1.
  apply ln_increasing; [lra |]. pose proof (exp_pos t). lra.
Qed.

(** ** What [fit_monotone_spline] returns *)

Section FitProperties.

Import spline_fitting.

Variable minimize : minimizer.
Variable normal : nat -> nat -> R.

Lemma fit_inv (x y : list R) (n_basis : nat) (weights : option (list R))
    (degree : nat) (sp : R) (anchor : option (R * R)) (x_min x_max : option R)
    (p : params) (info : fit_info) :
  fit_monotone_spline minimize normal x y n_basis weights degree sp anchor x_min x_max
  = inr (p, info) ->
  exists (a b : R) (w : list R) (res : OptimizeResult) (icpt : R) (residuals : list R),
    default x_min (Np.min x) = inr a /\ default x_max (Np.max x) = inr b
    /\ a < b /\ (degree <= n_basis)%nat
    /\ p = mk_params (map softplus (firstn n_basis (res_x res))) icpt n_basis
                     (Some degree) a b (clamped_knots degree (n_basis - degree) a b) None
    /\ length (firstn n_basis (res_x res)) = n_basis
    /\ match anchor with
       | Some (xa, ya) => icpt = ya - Np.dot (ispline_row_at p xa) (coefficients p)
       | None => nth_error (res_x res) n_basis = Some icpt
       end
    /\ divide_all (match weights with None => Np.ones_like x | Some w0 => w0 end)
         (Np.sum (match weights with None => Np.ones_like x | Some w0 => w0 end)) = inr w
    /\ Np.broadcast2 Rminus y (map (curve p) x) = inr residuals
    /\ rmse info = (m <- Np.mean (map square residuals) ;; ret (sqrt m))
    /\ exists (objective : list R -> result R) (x0 : list R),
         run_trials minimize normal objective x0 [0; 1; 2]%nat None = inr (Some res)
         /\ match anchor with
            | Some _ => x0 = Np.zeros n_basis
            | None => exists m, Np.mean y = inr m /\ x0 = Np.zeros n_basis ++ [m]
            end
         /\ exists avg, Np.average y w = inr avg.
Proof.
  unfold fit_monotone_spline. intros H.
  bind_inv H. rename v into w, E into Ew.
  bind_inv H. rename v into a, E into Ea.
  bind_inv H. rename v into b, E into Eb.
  bind_inv H. destruct v as [basis ks]. rename E into Ebasis.
  destruct (create_ispline_basis_inv _ _ _ _ _ _ Ebasis) as [Hab Hdeg].
  rewrite create_ispline_basis_ok in Ebasis by assumption.
  injection Ebasis as <- <-.
  bind_inv H. rename v into basis_anchor, E into Eanchor.
  bind_inv H. rename v into x0, E into Ex0.
  bind_inv H. rename v into best, E into Ebest.
  bind_inv H. rename v into result, E into Eresult.
  bind_inv H. rename v into icpt, E into Eicpt.
  bind_inv H. rename v into bc, E into Ebc.
  bind_inv H. rename v into residuals, E into Eres.
  bind_inv H. rename v into wr, E into Ewr.
  bind_inv H. rename v into avg, E into Eavg.
  bind_inv H. rename v into wt, E into Ewt.
  bind_inv H. destruct v as [basis_check ks']. rename E into Echeck.
  bind_inv H. rename v into bcc, E into Ebcc.
  injection H as <- <-.
  apply matvec_inr in Ebc. destruct Ebc as [Hlen ->].
  rewrite length_map in Hlen.
  exists a, b, w, result, icpt, residuals.
  repeat match goal with |- _ /\ _ => split end; try assumption; try reflexivity.
  - congruence.
  - destruct anchor as [[xa ya] |].
    + rewrite create_ispline_basis_ok in Eanchor by assumption.
      cbn [bind map] in Eanchor. injection Eanchor as <-.
      unfold intercept_of in Eicpt. rewrite matvec_ok in Eicpt by (now rewrite length_map).
      cbn [bind map item0] in Eicpt. unfold ret in Eicpt. cbn [bind] in Eicpt.
      injection Eicpt as <-. reflexivity.
    + unfold intercept_of, item in Eicpt.
      destruct (nth_error (res_x result) n_basis); [| discriminate].
      injection Eicpt as ->. reflexivity.
  - rewrite <- Eres. f_equal. rewrite !map_map. reflexivity.
  - eexists _, x0. split; [| split].
    + rewrite Ebest. destruct best; [| discriminate].
      injection Eresult as ->. reflexivity.
    + destruct anchor as [[xa ya] |].
      * now injection Ex0 as <-.
      * bind_inv Ex0. injection Ex0 as <-. eauto.
    + eauto.
Qed.

End FitProperties.

(** ** The two basis constructions agree *)

Lemma schools_basis_agrees (x : list R) (n_basis degree : nat) (a b : R) :
  calibrate_schools.create_ispline_basis x n_basis degree a b
  = (r <- spline_fitting.create_ispline_basis x n_basis degree (Some a) (Some b) ;;
     ret (fst r)).
Proof.
  unfold calibrate_schools.create_ispline_basis, spline_fitting.create_ispline_basis,
    spline_fitting.create_bspline_basis.
  cbn [spline_fitting.default]. unfold ret, bind.
  replace (Z.of_nat (n_basis + 1) - Z.of_nat degree - 1)%Z
    with (Z.of_nat n_basis - Z.of_nat degree)%Z by lia.
  cbv zeta.
  destruct (mapM _ (seq 0 (n_basis + 1))) as [e | splines]; reflexivity.
Qed.

(** ** A run of the fit *)

Lemma run_trials_start (normal : nat -> nat -> R) (f : list R -> result R)
    (x0 : list R) :
  spline_fitting.run_trials minimize_start normal f x0 [0; 1; 2]%nat None
  = inr (Some (spline_fitting.mk_result x0 0 true 0 String.EmptyString)).
Proof.
  cbn. destruct (Rlt_dec 0 0); [lra |]. cbn.
  destruct (Rlt_dec 0 0); [lra | reflexivity].
Qed.

Lemma broadcast2_ok (f : R -> R -> R) (a b : list R) :
  length a = length b -> Np.broadcast2 f a b = inr (map2 f a b).
Proof.
  intros H. unfold Np.broadcast2. rewrite H, Nat.eqb_refl. reflexivity.
Qed.

Lemma sum_repeat (v : R) (n : nat) : Np.sum (repeat v n) = INR n * v.
Proof.
  induction n as [| n IH]; [simpl; lra |].
  cbn [repeat Np.sum fold_right]. fold (Np.sum (repeat v n)).
  rewrite IH, S_INR. lra.
Qed.

Lemma sum_map_div (s : R) (l : list R) :
  Np.sum (map (fun v => v / s) l) = Np.sum l / s.
Proof.
  induction l as [| a l IH]; simpl; [lra |].
  fold (Np.sum (map (fun v => v / s) l)). fold (Np.sum l). rewrite IH. lra.
Qed.

Lemma divide_all_ok (w : list R) :
  Np.sum w <> 0 ->
  spline_fitting.divide_all w (Np.sum w) = inr (map (fun v => v / Np.sum w) w).
Proof.
  intros H. unfold spline_fitting.divide_all.
  destruct w as [| a w]; [reflexivity |].
  destruct (Req_dec_T _ 0); [contradiction | reflexivity].
Qed.

Lemma sum_normalized (w : list R) :
  Np.sum w <> 0 -> Np.sum (map (fun v => v / Np.sum w) w) = 1.
Proof.
  intros H. rewrite sum_map_div. now field.
Qed.

Lemma zeros_length (n : nat) : length (Np.zeros n) = n.
Proof. apply repeat_length. Qed.

Section FitRuns.

Import spline_fitting.

Variable minimize : minimizer.
Variable normal : nat -> nat -> R.
Hypothesis minimize_keeps : keeps_dimension minimize.

Lemma run_trials_ok (f : list R -> result R) (x0 : list R) (trials : list nat)
    (best : option OptimizeResult) :
  (forall r, best = Some r -> length (res_x r) = length x0) ->
  exists best',
    run_trials minimize normal f x0 trials best = inr best'
    /\ (forall r, best' = Some r -> length (res_x r) = length x0)
    /\ (trials <> [] \/ best <> None -> best' <> None).
Proof.
  revert best; induction trials as [| trial rest IH]; intros best Hbest.
  - exists best. split; [reflexivity |]. split; [exact Hbest |]. intros [H | H]; congruence.
  - cbn [run_trials].
    set (x0_trial := if (0 <? trial)%nat then _ else x0).
    assert (length x0_trial = length x0) as Hlen.
    { unfold x0_trial. destruct (0 <? trial)%nat; [| reflexivity].
      apply map2_length. now rewrite length_map, length_seq. }
    destruct (minimize_keeps f x0_trial) as (r & -> & Hr). cbn [bind].
    set (best1 := match best with None => Some r | Some b => _ end).
    destruct (IH best1) as (best' & E & Hb & Hn).
    { unfold best1. destruct best as [b |].
      - destruct (Rlt_dec _ _); intros r' [= <-]; [congruence | now apply Hbest].
      - intros r' [= <-]. congruence. }
    exists best'. split; [exact E |]. split; [exact Hb |].
    intros _. apply Hn. right. unfold best1.
    destruct best; [destruct (Rlt_dec _ _) |]; discriminate.
Qed.

(** The fit returns: for every optimizer that keeps the dimension, every
    configuration with [degree <= n_basis] on a non-empty domain, and data
    of one length with weights that do not sum to zero. *)
Theorem fit_ok (x y : list R) (n_basis : nat) (weights : option (list R))
    (degree : nat) (sp : R) (anchor : option (R * R)) (a b : R) :
  a < b -> (degree <= n_basis)%nat -> x <> [] -> length y = length x ->
  match weights with
  | None => True
  | Some w => length w = length x /\ Np.sum w <> 0
  end ->
  exists p info,
    fit_monotone_spline minimize normal x y n_basis weights degree sp anchor
      (Some a) (Some b) = inr (p, info).
Proof.
  intros Hab Hdeg Hx Hy Hw.
  set (w0 := match weights with None => Np.ones_like x | Some w => w end).
  assert (length w0 = length x /\ Np.sum w0 <> 0) as [Hw0 Hs0].
  { unfold w0. destruct weights as [w |]; [exact Hw |].
    unfold Np.ones_like. rewrite repeat_length, sum_repeat. split; [reflexivity |].
    rewrite Rmult_1_r. apply not_0_INR. destruct x; [congruence | simpl; lia]. }
  unfold fit_monotone_spline. fold w0. cbv zeta.
  rewrite (divide_all_ok w0 Hs0). cbn [bind default]. unfold ret at 1 2. cbn [bind].
  rewrite create_ispline_basis_ok by assumption. cbn [bind].
  set (ks := clamped_knots degree (n_basis - degree) a b).
  set (basis := map _ x).
  set (w := map (fun v => v / Np.sum w0) w0).
  assert (length w = length x) as Hwlen by (unfold w; now rewrite length_map).
  assert (Np.sum w <> 0) as Hsw by (unfold w; rewrite sum_normalized; [lra | assumption]).
  assert (exists ba, match anchor with
            | Some (x_anchor, _) =>
                ' (ba0, _) <- create_ispline_basis [x_anchor] n_basis degree
                                (Some a) (Some b) ;; ret ba0
            | None => ret []
            end = inr ba /\ (anchor <> None -> length ba = 1)%nat) as (ba & -> & Hba).
  { destruct anchor as [[xa ya] |].
    - rewrite create_ispline_basis_ok by assumption. cbn [bind]. eexists. split; [reflexivity |].
      reflexivity.
    - eexists. split; [reflexivity | congruence]. }
  cbn [bind].
  assert (exists x0, match anchor with
            | Some _ => ret (Np.zeros n_basis)
            | None => m <- Np.mean y ;; ret (Np.zeros n_basis ++ [m])
            end = inr x0
            /\ (n_basis <= length x0)%nat
            /\ (anchor = None -> n_basis < length x0)%nat)
    as (x0 & -> & Hx0 & Hm).
  { destruct anchor as [[xa ya] |].
    - eexists. split; [reflexivity |]. split; [| discriminate].
      rewrite zeros_length. lia.
    - assert (exists m, Np.mean y = inr m) as [m ->].
      { destruct y; [destruct x; [congruence | discriminate] | eexists; reflexivity]. }
      cbn [bind]. eexists. split; [reflexivity |].
      rewrite length_app, zeros_length. simpl. split; intros; lia. }
  cbn [bind].
  destruct (run_trials_ok (loss n_basis sp anchor ba basis w y) x0 [0; 1; 2]%nat None)
    as (best & -> & Hbest & Hsome); [discriminate |].
  cbn [bind].
  destruct best as [res |]; [| exfalso; apply Hsome; [left; discriminate | reflexivity]].
  specialize (Hbest res eq_refl).
  unfold ret at 1. cbn [bind].
  set (coef := map softplus (firstn n_basis (res_x res))).
  assert (length coef = n_basis) as Hcoef
    by (unfold coef; rewrite length_map, length_firstn; lia).
  assert (exists icpt, intercept_of n_basis anchor ba coef (res_x res) = inr icpt)
    as [icpt ->].
  { unfold intercept_of. destruct anchor as [[xa ya] |].
    - rewrite matvec_ok by (now rewrite Hcoef). cbn [bind].
      destruct ba as [| row ba]; [specialize (Hba ltac:(discriminate)); discriminate |].
      cbn [map item0 bind]. eexists. reflexivity.
    - unfold item. destruct (nth_error (res_x res) n_basis) as [m |] eqn:Em.
      + eexists. reflexivity.
      + apply nth_error_None in Em. specialize (Hm eq_refl). lia. }
  cbn [bind]. rewrite matvec_ok by (now rewrite Hcoef). cbn [bind].
  set (pred := map _ (map _ basis)).
  assert (length pred = length x) as Hpred by (unfold pred, basis; now rewrite !length_map).
  rewrite broadcast2_ok by congruence. cbn [bind].
  rewrite broadcast2_ok by (rewrite length_map, map2_length; congruence). cbn [bind].
  unfold Np.average.
  replace (Nat.eqb (length y) (length w)) with true
    by (symmetry; apply Nat.eqb_eq; congruence).
  cbn [negb]. destruct (Req_dec_T (Np.sum w) 0); [contradiction |].
  unfold ret at 1. cbn [bind].
  rewrite broadcast2_ok by (rewrite length_map; congruence). cbn [bind].
  rewrite create_ispline_basis_ok by assumption. cbn [bind].
  rewrite matvec_ok by (now rewrite Hcoef). cbn [bind].
  eexists _, _. reflexivity.
Qed.

End FitRuns.

Lemma minimize_start_keeps : keeps_dimension minimize_start.
Proof. intros f x0. eexists. split; reflexivity. Qed.

Lemma fit_start_ok (normal : nat -> nat -> R) (x y : list R) (n_basis : nat)
    (weights : option (list R)) (degree : nat) (sp : R) (anchor : option (R * R))
    (a b : R) :
  a < b -> (degree <= n_basis)%nat -> x <> [] -> length y = length x ->
  match weights with
  | None => True
  | Some w => length w = length x /\ Np.sum w <> 0
  end ->
  exists p info,
    spline_fitting.fit_monotone_spline minimize_start normal x y n_basis weights degree
      sp anchor (Some a) (Some b) = inr (p, info).
Proof. apply fit_ok, minimize_start_keeps. Qed.

(** ** What [calibrate_splines] returns *)

Lemma same_shape_well_formed (p q : spline_fitting.params) :
  same_shape p q -> well_formed p -> well_formed q.
Proof.
  unfold same_shape, well_formed, spline_fitting.get_degree.
  intros (Hc & Hn & Hd & Ha & Hb & _). rewrite <- Hc, <- Hn, <- Hd, <- Ha, <- Hb. tauto.
Qed.

Lemma same_shape_curve (p q : spline_fitting.params) (x : R) :
  same_shape p q ->
  curve q x = curve p x + (spline_fitting.intercept q - spline_fitting.intercept p).
Proof.
  unfold same_shape, curve, ispline_row_at, spline_fitting.get_degree.
  intros (Hc & Hn & Hd & Ha & Hb & _). rewrite <- Hc, <- Hn, <- Hd, <- Ha, <- Hb. lra.
Qed.

Section CalibrateProperties.

Import spline_fitting calibrate_C.

Variables minimize_additive minimize : minimizer.
Variables normal_gpa normal_mcat : nat -> nat -> R.

Lemma calibrate_inv (cells : list cell) (verbose : bool) (gp mp : params)
    (info : calibration_info) :
  calibrate_splines minimize_additive minimize normal_gpa normal_mcat cells verbose
  = inr (gp, mp, info) ->
  exists (gp0 mp0 : params) (gi mi : fit_info) (ag am : list R) (g_at m_at gl : R),
    fit_monotone_spline minimize normal_gpa (Np.unique (map gpaCenter cells)) ag
      GPA_N_BASIS None 3 0.001 None (Some GPA_MIN) (Some GPA_MAX) = inr (gp0, gi)
    /\ fit_monotone_spline minimize normal_mcat (Np.unique (map mcatCenter cells)) am
         MCAT_N_BASIS None 3 0.001 None (Some MCAT_MIN) (Some MCAT_MAX) = inr (mp0, mi)
    /\ evaluate_monotone_spline [GPA_ANCHOR] gp0 = inr [g_at]
    /\ evaluate_monotone_spline [MCAT_ANCHOR] mp0 = inr [m_at]
    /\ gp = set_globalIntercept (set_intercept gp0 (intercept gp0 - g_at)) gl
    /\ mp = set_intercept mp0 (intercept mp0 - m_at).
Proof.
  unfold calibrate_splines. intros H.
  bind_inv H. bind_inv H. rename v0 into X_gpa. bind_inv H. rename v0 into X_mcat.
  bind_inv H. rename v0 into res. bind_inv H. bind_inv H. bind_inv H. bind_inv H.
  bind_inv H. destruct v4 as [gp0 gi]. rename E7 into Egp.
  bind_inv H. destruct v4 as [mp0 mi]. rename E7 into Emp.
  bind_inv H. rename v4 into ga, E7 into Ega.
  bind_inv H. rename v4 into g_at, E7 into Eg.
  bind_inv H. rename v4 into ma, E7 into Ema.
  bind_inv H. rename v4 into m_at, E7 into Em.
  bind_inv H. bind_inv H. bind_inv H. bind_inv H. bind_inv H.
  injection H as <- <- _.
  destruct (evaluate_inv _ _ _ Ega) as [_ ->].
  destruct (evaluate_inv _ _ _ Ema) as [_ ->].
  cbn [map item0] in Eg, Em. injection Eg as <-. injection Em as <-.
  eexists gp0, mp0, gi, mi, _, _, _, _, _.
  repeat split; eassumption || reflexivity.
Qed.

End CalibrateProperties.

Lemma fit_well_formed (minimize : spline_fitting.minimizer) (normal : nat -> nat -> R)
    (x y : list R) (n_basis : nat) (weights : option (list R)) (degree : nat) (sp : R)
    (anchor : option (R * R)) (x_min x_max : option R)
    (p : spline_fitting.params) (info : spline_fitting.fit_info) :
  spline_fitting.fit_monotone_spline minimize normal x y n_basis weights degree sp
    anchor x_min x_max = inr (p, info) ->
  well_formed p.
Proof.
  intros H. apply fit_inv in H.
  destruct H as (a & b & w & res & icpt & residuals & _ & _ & Hab & Hdeg & -> & Hlen & _).
  unfold well_formed, spline_fitting.get_degree. cbn.
  rewrite length_map. auto.
Qed.

Lemma index_of_ok (v : R) (values : list R) :
  In v values -> exists i, calibrate_C.index_of v values = inr i.
Proof.
  induction values as [| g rest IH]; intros H; [destruct H |].
  cbn [calibrate_C.index_of]. destruct (Req_dec_T v g) as [| Hne]; [eexists; reflexivity |].
  destruct H as [-> | H]; [congruence |].
  destruct (IH H) as [i ->]. eexists. reflexivity.
Qed.

Lemma mapM_ok {A B : Type} (f : A -> result B) (l : list A) :
  (forall a, In a l -> exists b, f a = inr b) -> exists bs, mapM f l = inr bs.
Proof.
  induction l as [| a l IH]; intros H; [eexists; reflexivity |].
  cbn [mapM]. destruct (H a (or_introl eq_refl)) as [b ->].
  destruct IH as [bs ->]; [intros; apply H; now right |].
  eexists. reflexivity.
Qed.

Lemma argmin_from_bound (l : list R) (best : R) (best_i i : nat) :
  (best_i < i)%nat -> (Np.argmin_from best best_i i l < i + length l)%nat.
Proof.
  revert best best_i i; induction l as [| a l IH]; intros best best_i i H; simpl; [lia |].
  destruct (Rlt_dec a best).
  - specialize (IH a i (S i)). lia.
  - specialize (IH best best_i (S i)). lia.
Qed.

Lemma argmin_ok (l : list R) :
  l <> [] -> exists i, Np.argmin l = inr i /\ (i < length l)%nat.
Proof.
  destruct l as [| a l]; [congruence |]. intros _.
  eexists. split; [reflexivity |].
  pose proof (argmin_from_bound l a 0 1). simpl. lia.
Qed.

Lemma linspace_length (a b : R) (n : nat) : length (Np.linspace a b n) = n.
Proof. unfold Np.linspace. now rewrite length_map, length_seq. Qed.

Lemma unique_nonempty (l : list R) : l <> [] -> Np.unique l <> [].
Proof.
  destruct l as [| a l]; [congruence |]. intros _ H.
  assert (In a (Np.unique (a :: l))) as Hin by (apply unique_In; now left).
  rewrite H in Hin. destruct Hin.
Qed.

Section CalibrateRuns.

Import spline_fitting calibrate_C.

Variables minimize_additive minimize : minimizer.
Variables normal_gpa normal_mcat : nat -> nat -> R.
Hypothesis additive_keeps : keeps_dimension minimize_additive.
Hypothesis minimize_keeps : keeps_dimension minimize.

(** The calibration returns: for every non-empty table whose weights do
    not sum to zero and optimizers that keep the dimension. *)
Theorem calibrate_ok (cells : list cell) (verbose : bool) :
  cells <> [] -> Np.sum (map weight cells) <> 0 ->
  exists gp mp info,
    calibrate_splines minimize_additive minimize normal_gpa normal_mcat cells verbose
    = inr (gp, mp, info).
Proof.
  intros Hne Hsum. unfold calibrate_splines. cbv zeta.
  set (ug := Np.unique (map gpaCenter cells)).
  set (um := Np.unique (map mcatCenter cells)).
  assert (ug <> []) as Hug by (apply unique_nonempty; destruct cells; [congruence | discriminate]).
  assert (um <> []) as Hum by (apply unique_nonempty; destruct cells; [congruence | discriminate]).
  assert (exists v, (if verbose then Np.min (clamped_rates cells) else ret 0) = inr v)
    as [v0 ->].
  { destruct verbose; [| eexists; reflexivity].
    unfold clamped_rates. destruct cells; [congruence | eexists; reflexivity]. }
  cbn [bind].
  destruct (mapM_ok (fun c => i <- index_of (gpaCenter c) ug ;;
                              ret (indicator_row (length ug) i)) cells) as [X_gpa ->].
  { intros c Hc. destruct (index_of_ok (gpaCenter c) ug) as [i ->].
    - apply unique_In, in_map, Hc.
    - eexists. reflexivity. }
  cbn [bind].
  destruct (mapM_ok (fun c => i <- index_of (mcatCenter c) um ;;
                              ret (indicator_row (length um) i)) cells) as [X_mcat ->].
  { intros c Hc. destruct (index_of_ok (mcatCenter c) um) as [i ->].
    - apply unique_In, in_map, Hc.
    - eexists. reflexivity. }
  cbn [bind].
  destruct (additive_keeps
              (loss (length ug) (length um) X_gpa X_mcat (map weight cells)
                    (observed_logit cells))
              (Np.linspace (- 2) 2 (length ug) ++ Np.linspace (- 2) 2 (length um)))
    as (res & -> & Hres).
  rewrite length_app, !linspace_length in Hres. cbn [bind].
  set (alpha_gpa := firstn (length ug) (res_x res)).
  set (alpha_mcat := firstn (length um) (skipn (length ug) (res_x res))).
  assert (length alpha_gpa = length ug) as Hag
    by (unfold alpha_gpa; rewrite length_firstn; lia).
  assert (length alpha_mcat = length um) as Ham
    by (unfold alpha_mcat; rewrite length_firstn, length_skipn; lia).
  destruct (argmin_ok (map (fun g => Rabs (g - GPA_ANCHOR)) ug)) as (gi & -> & Hgi).
  { destruct ug; [congruence | discriminate]. }
  destruct (argmin_ok (map (fun m => Rabs (m - MCAT_ANCHOR)) um)) as (mi & -> & Hmi).
  { destruct um; [congruence | discriminate]. }
  rewrite length_map in Hgi, Hmi. cbn [bind]. unfold item.
  destruct (nth_error alpha_gpa gi) as [ag |] eqn:Eag;
    [| apply nth_error_None in Eag; lia].
  destruct (nth_error alpha_mcat mi) as [am |] eqn:Eam;
    [| apply nth_error_None in Eam; lia].
  unfold ret at 1 2. cbn [bind].
  destruct (fit_ok minimize normal_gpa minimize_keeps ug
              (map (fun v => v - ag) alpha_gpa) GPA_N_BASIS None 3 0.001 None
              GPA_MIN GPA_MAX) as (gp0 & ginfo & Egp);
    [unfold GPA_MIN, GPA_MAX; lra | unfold GPA_N_BASIS; lia | assumption
    | now rewrite length_map | exact I |].
  rewrite Egp. cbn [bind].
  destruct (fit_ok minimize normal_mcat minimize_keeps um
              (map (fun v => v - am) alpha_mcat) MCAT_N_BASIS None 3 0.001 None
              MCAT_MIN MCAT_MAX) as (mp0 & minfo & Emp);
    [unfold MCAT_MIN, MCAT_MAX; lra | unfold MCAT_N_BASIS; lia | assumption
    | now rewrite length_map | exact I |].
  rewrite Emp. cbn [bind].
  pose proof (fit_well_formed _ _ _ _ _ _ _ _ _ _ _ _ _ Egp) as Hgp.
  pose proof (fit_well_formed _ _ _ _ _ _ _ _ _ _ _ _ _ Emp) as Hmp.
  rewrite !evaluate_ok by assumption.
  cbn [bind map item0]. unfold ret at 1 2. cbn [bind].
  rewrite !matvec_ok by congruence. cbn [bind].
  unfold Np.average. unfold clamped_rates at 1. rewrite !length_map, Nat.eqb_refl.
  cbn [negb]. destruct (Req_dec_T (Np.sum (map weight cells)) 0); [contradiction |].
  unfold ret at 1. cbn [bind].
  rewrite !evaluate_ok; [cbn [bind]; eexists _, _, _; reflexivity | |].
  - apply (same_shape_well_formed mp0); [| assumption].
    unfold same_shape. cbn. tauto.
  - apply (same_shape_well_formed gp0); [| assumption].
    unfold same_shape. cbn. tauto.
Qed.

End CalibrateRuns.

Lemma calibrate_example_ok :
  exists gp mp info,
    calibrate_C.calibrate_splines minimize_start minimize_start normal_zero normal_zero
      example_cells false = inr (gp, mp, info).
Proof.
  apply calibrate_ok; try apply minimize_start_keeps; [discriminate |].
  cbn. lra.
Qed.

(** ** Configurations the constructor refuses *)

Lemma make_clamped_short (degree m : nat) (a b : R) (cs : list R) :
  (length cs < degree + m + 1)%nat ->
  BSpline.make (clamped_knots degree m a b) cs degree = inl ValueError.
Proof.
  intros H. rewrite make_checks.
  destruct (negb _); [reflexivity |].
  destruct (_ <? 2)%nat; [reflexivity |].
  destruct (Nat.ltb_spec (length cs) (degree + m + 1)); [reflexivity | lia].
Qed.

Lemma create_ispline_basis_small (x : list R) (n_basis degree : nat) (a b : R) :
  (n_basis < degree)%nat ->
  spline_fitting.create_ispline_basis x n_basis degree (Some a) (Some b)
  = inl ValueError.
Proof.
  intros H. unfold spline_fitting.create_ispline_basis, spline_fitting.create_bspline_basis.
  cbn [spline_fitting.default]. unfold ret at 1 2 3 4. cbn [bind].
  rewrite n_interior_nat, interior_linspace.
  fold (clamped_knots degree (n_basis + 1 - degree - 1) a b).
  rewrite (mapM_inl_head _ ValueError); [reflexivity | |].
  - replace (n_basis + 1)%nat with (S n_basis) by lia. discriminate.
  - intros i _. apply make_clamped_short. rewrite one_hot_length. lia.
Qed.

Lemma sum_all_zero (w : list R) : (forall v, In v w -> v = 0) -> Np.sum w = 0.
Proof.
  induction w as [| a w IH]; intros H; simpl; [reflexivity |].
  fold (Np.sum w). rewrite (H a (or_introl eq_refl)), IH; [lra |].
  intros; apply H; now right.
Qed.

Lemma nth_map_seq_le (f g : nat -> R) (n j : nat) :
  (forall c : nat, (c < n)%nat -> f c <= g c) ->
  nth j (map f (seq 0 n)) 0 <= nth j (map g (seq 0 n)) 0.
Proof.
  intros H. destruct (le_lt_dec n j) as [Hj | Hj].
  - rewrite !nth_overflow by (rewrite length_map, length_seq; lia). lra.
  - rewrite !(nth_map_lt _ _ 0%nat) by (rewrite length_seq; lia).
    rewrite seq_nth by lia. apply H. lia.
Qed.

Lemma mean_nonempty (l : list R) :
  l <> [] -> Np.mean l = inr (Np.sum l / INR (length l)).
Proof. destruct l; [congruence | reflexivity]. Qed.

Lemma fit_bounds (minimize : spline_fitting.minimizer) (normal : nat -> nat -> R)
    (x y : list R) (n_basis : nat) (weights : option (list R)) (degree : nat) (sp : R)
    (anchor : option (R * R)) (a b : R)
    (p : spline_fitting.params) (info : spline_fitting.fit_info) :
  spline_fitting.fit_monotone_spline minimize normal x y n_basis weights degree sp
    anchor (Some a) (Some b) = inr (p, info) ->
  spline_fitting.x_min p = a /\ spline_fitting.x_max p = b
  /\ spline_fitting.n_basis p = n_basis /\ spline_fitting.degree p = Some degree.
Proof.
  intros H. apply fit_inv in H.
  destruct H as (a' & b' & w & res & icpt & residuals & Ea & Eb & _ & _ & -> & _).
  cbn in *. injection Ea as <-. injection Eb as <-. auto.
Qed.

(** * The claims *)

Section Claims.

Import spline_fitting.

Variable minimize : minimizer.
Variable normal : nat -> nat -> R.

(** C1.  Every curve [fit_monotone_spline] returns is non-decreasing on its
    domain: whatever the inputs, the weights, the anchor and the optimizer,
    each fitted coefficient is strictly positive (it is a softplus value),
    each column of the I-spline basis at [x1] is at most the column at
    [x2], and so for [x_min <= x1 <= x2 <= x_max] the evaluated curve
    satisfies [evaluate(x1) <= evaluate(x2)], hence
    [evaluate(x1) <= evaluate(x2) + 1e-10]. *)
Theorem C1_fitted_curve_monotone
    (x y : list R) (nb : nat) (weights : option (list R)) (deg : nat) (sp : R)
    (anchor : option (R * R)) (xmin xmax : option R)
    (p : params) (info : fit_info) (x1 x2 : R) :
  fit_monotone_spline minimize normal x y nb weights deg sp anchor xmin xmax
  = inr (p, info) ->
  x_min p <= x1 -> x1 <= x2 -> x2 <= x_max p ->
  (forall c : R, In c (coefficients p) -> 0 < c)
  /\ (exists (row1 row2 ks : list R),
        create_ispline_basis [x1; x2] (n_basis p) (get_degree p)
          (Some (x_min p)) (Some (x_max p)) = inr ([row1; row2], ks)
        /\ forall j : nat, nth j row1 0 <= nth j row2 0)
  /\ (exists v1 v2 : R,
        evaluate_monotone_spline [x1] p = inr [v1]
        /\ evaluate_monotone_spline [x2] p = inr [v2]
        /\ v1 <= v2 /\ v1 <= v2 + 1e-10).
Proof.
  intros Hfit H1 H12 H2.
  pose proof (fit_well_formed _ _ _ _ _ _ _ _ _ _ _ _ _ Hfit) as Hwf.
  assert (forall c : R, In c (coefficients p) -> 0 < c) as Hpos.
  { apply fit_inv in Hfit.
    destruct Hfit as (a & b & w & res & icpt & residuals & _ & _ & _ & _ & -> & _).
    cbn. intros c Hc. apply in_map_iff in Hc. destruct Hc as (t & <- & _).
    apply softplus_pos. }
  destruct Hwf as (Hab & Hdeg & Hlen).
  split; [exact Hpos |]. split.
  - rewrite create_ispline_basis_ok by assumption. cbn [map].
    eexists _, _, _. split; [reflexivity |].
    intros j. apply nth_map_seq_le. intros c _.
    now apply ispline_value_monotone.
  - exists (curve p x1), (curve p x2).
    rewrite !evaluate_ok by (repeat split; assumption).
    assert (curve p x1 <= curve p x2).
    { apply curve_monotone; try assumption; [repeat split; assumption |].
      intros v Hv. left. now apply Hpos. }
    repeat split; try reflexivity; lra.
Qed.


End Claims.

Section CalibrationClaims.

Import spline_fitting calibrate_C.

Variables minimize_additive minimize : minimizer.
Variables normal_gpa normal_mcat : nat -> nat -> R.

(** C3.  When [calibrate_splines] completes, the intercept of each returned
    curve is the fitted intercept minus the fitted curve's own value at its
    anchor, so the returned GPA curve evaluates to 0 at [GPA_ANCHOR], the
    returned MCAT curve evaluates to 0 at [MCAT_ANCHOR] (exact arithmetic),
    and the sum of the two values is within [1e-6] of 0. *)
Theorem C3_zero_at_anchor (cells : list cell) (verbose : bool)
    (gpa_params mcat_params : params) (info : calibration_info) :
  calibrate_splines minimize_additive minimize normal_gpa normal_mcat cells verbose
  = inr (gpa_params, mcat_params, info) ->
  (exists (gp0 mp0 : params) (gi mi : fit_info) (ag am : list R) (g_at m_at : R),
     fit_monotone_spline minimize normal_gpa (Np.unique (map gpaCenter cells)) ag
       GPA_N_BASIS None 3 0.001 None (Some GPA_MIN) (Some GPA_MAX) = inr (gp0, gi)
     /\ fit_monotone_spline minimize normal_mcat (Np.unique (map mcatCenter cells)) am
          MCAT_N_BASIS None 3 0.001 None (Some MCAT_MIN) (Some MCAT_MAX) = inr (mp0, mi)
     /\ evaluate_monotone_spline [GPA_ANCHOR] gp0 = inr [g_at]
     /\ evaluate_monotone_spline [MCAT_ANCHOR] mp0 = inr [m_at]
     /\ intercept gpa_params = intercept gp0 - g_at
     /\ intercept mcat_params = intercept mp0 - m_at)
  /\ evaluate_monotone_spline [GPA_ANCHOR] gpa_params = inr [0]
  /\ evaluate_monotone_spline [MCAT_ANCHOR] mcat_params = inr [0]
  /\ (exists g m : R,
        evaluate_monotone_spline [GPA_ANCHOR] gpa_params = inr [g]
        /\ evaluate_monotone_spline [MCAT_ANCHOR] mcat_params = inr [m]
        /\ Rabs (g + m) <= 1e-6).
Proof.
  intros H. apply calibrate_inv in H.
  destruct H as (gp0 & mp0 & gi & mi & ag & am & g_at & m_at & gl
                 & Egp & Emp & Eg & Em & -> & ->).
  destruct (evaluate_inv _ _ _ Eg) as [Hgwf Hg].
  destruct (evaluate_inv _ _ _ Em) as [Hmwf Hm].
  cbn [map] in Hg, Hm. injection Hg as Hg. injection Hm as Hm.
  set (gp := set_globalIntercept (set_intercept gp0 (intercept gp0 - g_at)) gl).
  set (mp := set_intercept mp0 (intercept mp0 - m_at)).
  assert (same_shape gp0 gp) as Sg by (unfold same_shape; cbn; tauto).
  assert (same_shape mp0 mp) as Sm by (unfold same_shape; cbn; tauto).
  assert (evaluate_monotone_spline [GPA_ANCHOR] gp = inr [0]) as Zg.
  { rewrite evaluate_ok by (apply (same_shape_well_formed gp0); assumption).
    cbn [map]. rewrite (same_shape_curve gp0 gp) by assumption.
    do 2 f_equal. subst gp. cbn [intercept set_globalIntercept set_intercept]. lra. }
  assert (evaluate_monotone_spline [MCAT_ANCHOR] mp = inr [0]) as Zm.
  { rewrite evaluate_ok by (apply (same_shape_well_formed mp0); assumption).
    cbn [map]. rewrite (same_shape_curve mp0 mp) by assumption.
    do 2 f_equal. subst mp. cbn [intercept set_intercept]. lra. }
  split; [| split; [exact Zg | split; [exact Zm |]]].
  - exists gp0, mp0, gi, mi, ag, am, g_at, m_at.
    repeat split; assumption || reflexivity.
  - exists 0, 0. repeat split; try assumption.
    rewrite Rplus_0_r, Rabs_R0. lra.
Qed.

(** C10.  The re-anchoring at the end of [calibrate_splines] changes only
    the intercept: each returned record has the coefficients, [n_basis],
    [degree], [x_min], [x_max] and knots of the record the fit returned,
    and for every two points the difference of the evaluated values is the
    same before and after, so the curve is shifted vertically and keeps its
    shape. *)
Theorem C10_reanchoring_keeps_shape (cells : list cell) (verbose : bool)
    (gpa_params mcat_params : params) (info : calibration_info) :
  calibrate_splines minimize_additive minimize normal_gpa normal_mcat cells verbose
  = inr (gpa_params, mcat_params, info) ->
  exists (gp0 mp0 : params) (gi mi : fit_info) (ag am : list R),
    fit_monotone_spline minimize normal_gpa (Np.unique (map gpaCenter cells)) ag
      GPA_N_BASIS None 3 0.001 None (Some GPA_MIN) (Some GPA_MAX) = inr (gp0, gi)
    /\ fit_monotone_spline minimize normal_mcat (Np.unique (map mcatCenter cells)) am
         MCAT_N_BASIS None 3 0.001 None (Some MCAT_MIN) (Some MCAT_MAX) = inr (mp0, mi)
    /\ same_shape gp0 gpa_params /\ same_shape mp0 mcat_params
    /\ forall x1 x2 : R,
         exists v1 v2 w1 w2 u1 u2 t1 t2 : R,
           evaluate_monotone_spline [x1; x2] gp0 = inr [v1; v2]
           /\ evaluate_monotone_spline [x1; x2] gpa_params = inr [w1; w2]
           /\ w2 - w1 = v2 - v1
           /\ evaluate_monotone_spline [x1; x2] mp0 = inr [u1; u2]
           /\ evaluate_monotone_spline [x1; x2] mcat_params = inr [t1; t2]
           /\ t2 - t1 = u2 - u1.
Proof.
  intros H. apply calibrate_inv in H.
  destruct H as (gp0 & mp0 & gi & mi & ag & am & g_at & m_at & gl
                 & Egp & Emp & Eg & Em & -> & ->).
  destruct (evaluate_inv _ _ _ Eg) as [Hgwf _].
  destruct (evaluate_inv _ _ _ Em) as [Hmwf _].
  set (gp := set_globalIntercept (set_intercept gp0 (intercept gp0 - g_at)) gl).
  set (mp := set_intercept mp0 (intercept mp0 - m_at)).
  assert (same_shape gp0 gp) as Sg by (unfold same_shape; cbn; tauto).
  assert (same_shape mp0 mp) as Sm by (unfold same_shape; cbn; tauto).
  exists gp0, mp0, gi, mi, ag, am.
  repeat match goal with |- _ /\ _ => split end; try assumption.
  intros x1 x2.
  exists (curve gp0 x1), (curve gp0 x2), (curve gp x1), (curve gp x2),
         (curve mp0 x1), (curve mp0 x2), (curve mp x1), (curve mp x2).
  rewrite !evaluate_ok
    by (assumption || (eapply same_shape_well_formed; eassumption)).
  cbn [map].
  rewrite !(same_shape_curve gp0 gp), !(same_shape_curve mp0 mp) by assumption.
  repeat split; try reflexivity; lra.
Qed.

End CalibrationClaims.


(** C9.  For every parameter record and every point, the inline evaluator
    [evaluate_spline] of [calibrate_schools.py] gives what
    [evaluate_monotone_spline] of [spline_fitting.py] gives at that point,
    errors included: the two basis constructions are the same. *)
Theorem C9_inline_evaluator_agrees (x : R) (p : spline_fitting.params) :
  calibrate_schools.evaluate_spline x p
  = (r <- spline_fitting.evaluate_monotone_spline [x] p ;; spline_fitting.item0 r).
Proof.
  unfold calibrate_schools.evaluate_spline, spline_fitting.evaluate_monotone_spline.
  rewrite schools_basis_agrees.
  destruct (spline_fitting.create_ispline_basis _ _ _ _ _) as [e | [basis ks]];
    [reflexivity |].
  cbn [bind fst]. unfold ret at 1. cbn [bind].
  destruct (Np.matvec basis _ _) as [e | bc]; reflexivity.
Qed.




Section FitClaims.

Import spline_fitting.

Variable minimize : minimizer.
Variable normal : nat -> nat -> R.

(** C5, amended.  When the weights given to [fit_monotone_spline] are all
    zero, no configuration error is raised: the renormalization divides the
    weights by their zero sum, a float division by zero. *)
Theorem C5_zero_weights_divide
    (x y : list R) (nb : nat) (w : list R) (deg : nat) (sp : R)
    (anchor : option (R * R)) (xmin xmax : option R) :
  w <> [] -> (forall v : R, In v w -> v = 0) ->
  Np.sum w = 0
  /\ fit_monotone_spline minimize normal x y nb (Some w) deg sp anchor xmin xmax
     = inl NonFinite.
Proof.
  intros Hne Hzero. pose proof (sum_all_zero w Hzero) as Hs.
  split; [exact Hs |].
  unfold fit_monotone_spline, divide_all. rewrite Hs.
  destruct w as [| v w]; [congruence |].
  destruct (Req_dec_T 0 0); [reflexivity | congruence].
Qed.


(** The RMSE diagnostic of every fit: the root of the plain mean of the
    squared residuals of the returned curve. *)
Lemma fit_rmse
    (x y : list R) (nb : nat) (weights : option (list R)) (deg : nat) (sp : R)
    (anchor : option (R * R)) (xmin xmax : option R)
    (p : params) (info : fit_info) :
  fit_monotone_spline minimize normal x y nb weights deg sp anchor xmin xmax
  = inr (p, info) ->
  exists pred residuals : list R,
    evaluate_monotone_spline x p = inr pred
    /\ Np.broadcast2 Rminus y pred = inr residuals
    /\ rmse info = (m <- Np.mean (map square residuals) ;; ret (sqrt m)).
Proof.
  intros Hfit.
  pose proof (fit_well_formed _ _ _ _ _ _ _ _ _ _ _ _ _ Hfit) as Hwf.
  apply fit_inv in Hfit.
  destruct Hfit as (a & b & w & res & icpt & residuals & _ & _ & _ & _ & _ & _ & _ & _
                    & Hres & Hrmse & _).
  exists (map (curve p) x), residuals. rewrite evaluate_ok by assumption. auto.
Qed.

(** With the default uniform weights the plain and the weighted
    root-mean-square errors are the same number. *)
Lemma fit_rmse_uniform
    (x y : list R) (nb : nat) (deg : nat) (sp : R)
    (anchor : option (R * R)) (xmin xmax : option R)
    (p : params) (info : fit_info) :
  fit_monotone_spline minimize normal x y nb None deg sp anchor xmin xmax
  = inr (p, info) ->
  exists pred residuals : list R,
    evaluate_monotone_spline x p = inr pred
    /\ Np.broadcast2 Rminus y pred = inr residuals
    /\ rmse info = inr (weighted_rmse (Np.ones_like x) residuals).
Proof.
  intros Hfit.
  pose proof (fit_well_formed _ _ _ _ _ _ _ _ _ _ _ _ _ Hfit) as Hwf.
  apply fit_inv in Hfit.
  destruct Hfit as (a & b & w & res & icpt & residuals & _ & _ & _ & _ & _ & _ & _ & Hw
                    & Hres & Hrmse & _ & _ & _ & _ & avg & Havg).
  exists (map (curve p) x), residuals. rewrite evaluate_ok by assumption.
  split; [reflexivity |]. split; [exact Hres |].
  assert (length w = length x /\ length y = length w /\ x <> []) as (Hwx & Hyw & Hx).
  { unfold Np.average in Havg.
    destruct (Nat.eqb_spec (length y) (length w)) as [Hyw |]; [| discriminate].
    cbn [negb] in Havg. destruct (Req_dec_T (Np.sum w) 0) as [| Hs]; [discriminate |].
    unfold divide_all, Np.ones_like in Hw. destruct x as [| x1 x].
    - injection Hw as <-. exfalso. apply Hs. reflexivity.
    - cbn [length repeat] in Hw. destruct (Req_dec_T _ 0); [discriminate |].
      unfold ret in Hw. injection Hw as Hw.
      assert (length w = length (x1 :: x)) as Hwx
        by (rewrite <- Hw; cbn [length]; now rewrite length_map, repeat_length).
      repeat split; [exact Hwx | exact Hyw | discriminate]. }
  rewrite broadcast2_ok in Hres by (rewrite length_map; congruence).
  injection Hres as <-.
  set (residuals := map2 Rminus y (map (curve p) x)) in *.
  assert (length residuals = length x) as Hlen
    by (unfold residuals; rewrite map2_length; rewrite ?length_map; congruence).
  rewrite Hrmse, mean_nonempty.
  2:{ intros E. apply (f_equal (@length R)) in E. rewrite length_map, Hlen in E.
      destruct x; [congruence | discriminate]. }
  cbn [bind]. unfold ret, weighted_rmse, Np.ones_like. do 2 f_equal.
  rewrite length_map, Hlen, sum_repeat, Rmult_1_r.
  assert (forall (n : nat) (s : R) (l : list R), length l = n ->
            Np.sum (map2 Rmult (map (fun v => v / s) (repeat 1 n)) l) = Np.sum l / s)
    as Hsum.
  { clear. induction n as [| n IH]; intros s [| v l] Hl; try discriminate.
    - simpl. lra.
    - cbn [repeat map map2 Np.sum fold_right].
      fold (Np.sum (map2 Rmult (map (fun v0 => v0 / s) (repeat 1 n)) l)).
      fold (Np.sum l). rewrite IH by (simpl in Hl; lia). lra. }
  symmetry. apply Hsum. now rewrite length_map.
Qed.

End FitClaims.

(** A fit of two points on [[0, 1]], with the optimizer that stops at its
    starting point. *)
Lemma C1_witness :
  exists (p : spline_fitting.params) (info : spline_fitting.fit_info),
    spline_fitting.fit_monotone_spline minimize_start normal_zero [0; 1] [0; 1] 6 None
      3 0.001 None (Some 0) (Some 1) = inr (p, info)
    /\ spline_fitting.x_min p <= 1 / 4 /\ 1 / 4 <= 3 / 4
    /\ 3 / 4 <= spline_fitting.x_max p
    /\ exists v1 v2 : R,
         spline_fitting.evaluate_monotone_spline [1 / 4] p = inr [v1]
         /\ spline_fitting.evaluate_monotone_spline [3 / 4] p = inr [v2]
         /\ v1 <= v2 /\ v1 <= v2 + 1e-10.
Proof.
  destruct (fit_start_ok normal_zero [0; 1] [0; 1] 6 None 3 0.001 None 0 1)
    as (p & info & H); [lra | lia | discriminate | reflexivity | exact I |].
  destruct (fit_bounds _ _ _ _ _ _ _ _ _ _ _ _ _ H) as (Ha & Hb & _).
  assert (spline_fitting.x_min p <= 1 / 4) as H1 by (rewrite Ha; lra).
  assert (1 / 4 <= 3 / 4) as H12 by lra.
  assert (3 / 4 <= spline_fitting.x_max p) as H2 by (rewrite Hb; lra).
  exists p, info. repeat split; try assumption.
  exact (proj2 (proj2 (C1_fitted_curve_monotone minimize_start normal_zero
                         _ _ _ _ _ _ _ _ _ p info (1 / 4) (3 / 4) H H1 H12 H2))).
Defined.


(** The calibration of the four-cell table. *)
Lemma C3_witness :
  exists (gp mp : spline_fitting.params) (info : calibrate_C.calibration_info),
    calibrate_C.calibrate_splines minimize_start minimize_start normal_zero normal_zero
      example_cells false = inr (gp, mp, info)
    /\ spline_fitting.evaluate_monotone_spline [calibrate_C.GPA_ANCHOR] gp = inr [0]
    /\ spline_fitting.evaluate_monotone_spline [calibrate_C.MCAT_ANCHOR] mp = inr [0].
Proof.
  destruct calibrate_example_ok as (gp & mp & info & H).
  exists gp, mp, info. split; [exact H |].
  pose proof (C3_zero_at_anchor minimize_start minimize_start normal_zero normal_zero
                example_cells false gp mp info H) as (_ & Zg & Zm & _).
  split; assumption.
Defined.

Lemma C10_witness :
  exists (gp mp : spline_fitting.params) (info : calibrate_C.calibration_info),
    calibrate_C.calibrate_splines minimize_start minimize_start normal_zero normal_zero
      example_cells false = inr (gp, mp, info)
    /\ exists (gp0 mp0 : spline_fitting.params),
         same_shape gp0 gp /\ same_shape mp0 mp.
Proof.
  destruct calibrate_example_ok as (gp & mp & info & H).
  exists gp, mp, info. split; [exact H |].
  pose proof (C10_reanchoring_keeps_shape minimize_start minimize_start normal_zero
                normal_zero example_cells false gp mp info H)
    as (gp0 & mp0 & _ & _ & _ & _ & _ & _ & Sg & Sm & _).
  exists gp0, mp0. split; assumption.
Defined.

Lemma C5_witness :
  [0; 0] <> [] /\ (forall v : R, In v [0; 0] -> v = 0)
  /\ spline_fitting.fit_monotone_spline minimize_start normal_zero [0; 1] [0; 1] 6
       (Some [0; 0]) 3 0.001 None (Some 0) (Some 1) = inl NonFinite.
Proof.
  assert ([0; 0] <> ([] : list R)) as Hne by discriminate.
  assert (forall v : R, In v [0; 0] -> v = 0) as Hz
    by (intros v [<- | [<- | []]]; reflexivity).
  split; [exact Hne |]. split; [exact Hz |].
  exact (proj2 (C5_zero_weights_divide minimize_start normal_zero [0; 1] [0; 1] 6 [0; 0]
                  3 0.001 None (Some 0) (Some 1) Hne Hz)).
Defined.

(** C5 as stated fails: with the weights [[0, 0]] the call reaches the
    division by the zero sum; no configuration error is raised. *)
Lemma C5_counterexample :
  spline_fitting.fit_monotone_spline minimize_start normal_zero [0; 1] [0; 1] 6
    (Some [0; 0]) 3 0.001 None (Some 0) (Some 1) = inl NonFinite.
Proof.
  unfold spline_fitting.fit_monotone_spline, spline_fitting.divide_all.
  cbn [Np.sum fold_right].
  destruct (Req_dec_T (0 + (0 + 0)) 0) as [_ | Hn]; [reflexivity | exfalso; lra].
Qed.



(** C8 at the input [x = [0, 1]], [y = [0, 0]], [weights = [3, 1]]: the
    diagnostic [rmse] is the root of the plain mean of the squared
    residuals, and differs from the weighted root-mean-square error. *)
Theorem C8_rmse_at_failing_input :
  exists (p : spline_fitting.params) (info : spline_fitting.fit_info)
         (pred : list R) (r : R),
    spline_fitting.fit_monotone_spline minimize_start normal_zero [0; 1] [0; 0] 6
      (Some [3; 1]) 3 0.001 None (Some 0) (Some 1) = inr (p, info)
    /\ spline_fitting.evaluate_monotone_spline [0; 1] p = inr pred
    /\ spline_fitting.rmse info = inr r
    /\ r = sqrt (Np.sum (map spline_fitting.square (map2 Rminus [0; 0] pred)) / 2)
    /\ r <> weighted_rmse [3; 1] (map2 Rminus [0; 0] pred).
Proof.
  destruct (fit_start_ok normal_zero [0; 1] [0; 0] 6 (Some [3; 1]) 3 0.001 None 0 1)
    as (p & info & H); [lra | lia | discriminate | reflexivity | |].
  { split; [reflexivity |]. cbn. lra. }
  pose proof (fit_well_formed _ _ _ _ _ _ _ _ _ _ _ _ _ H) as Hwf.
  pose proof H as Hinv. apply fit_inv in Hinv.
  destruct Hinv as (a & b & w & res & icpt & residuals & Ea & Eb & Hab & Hdeg & Hp & _
                    & Hicpt & _ & Hres & Hrmse & objective & x0 & Hrun & (m & Hm & Hx0)
                    & _).
  cbn in Ea, Eb. injection Ea as <-. injection Eb as <-.
  rewrite run_trials_start in Hrun. injection Hrun as <-.
  cbn [spline_fitting.res_x] in *.
  cbn in Hm. injection Hm as <-. subst x0.
  cbn [Np.zeros repeat app firstn map nth_error] in Hp, Hicpt.
  injection Hicpt as <-.
  set (s := spline_fitting.softplus 0) in *.
  assert (0 < s) as Hs by apply softplus_pos.
  assert (ispline_row_at p 0 = [0; 0; 0; 0; 0; 0]) as Hrow0.
  { rewrite Hp. unfold ispline_row_at, spline_fitting.get_degree.
    cbn [spline_fitting.n_basis spline_fitting.degree spline_fitting.x_min
         spline_fitting.x_max seq map].
    rewrite !ispline_value_at_min by (lra || lia). reflexivity. }
  assert (ispline_row_at p 1 = [1; 1; 1; 1; 1; 1]) as Hrow1.
  { rewrite Hp. unfold ispline_row_at, spline_fitting.get_degree.
    cbn [spline_fitting.n_basis spline_fitting.degree spline_fitting.x_min
         spline_fitting.x_max seq map].
    rewrite !ispline_value_at_max by (lra || lia). reflexivity. }
  assert (curve p 0 = 0) as Hc0.
  { unfold curve. rewrite Hrow0, Hp. cbn. lra. }
  assert (curve p 1 = 6 * s) as Hc1.
  { unfold curve. rewrite Hrow1, Hp. cbn. lra. }
  cbn [map] in Hres. rewrite Hc0, Hc1 in Hres.
  cbn in Hres. injection Hres as <-.
  cbn in Hrmse.
  exists p, info, [0; 6 * s], (sqrt ((spline_fitting.square (0 - 0)
                                      + (spline_fitting.square (0 - 6 * s) + 0))
                                     / (1 + 1))).
  rewrite evaluate_ok by assumption. cbn [map]. rewrite Hc0, Hc1.
  split; [exact H |]. split; [reflexivity |]. split; [exact Hrmse |].
  split.
  - cbn. apply (f_equal sqrt). lra.
  - unfold weighted_rmse. cbn. unfold spline_fitting.square.
    intros Heq. apply sqrt_inj in Heq; nra.
Qed.

(** * Further properties *)

(** ** The basis matrices on the domain *)

Section PartitionOfUnity.

Import BSpline.

Variable ts : list R.
Hypothesis ts_sorted :
  forall i j : nat, (i <= j < length ts)%nat -> knot ts i <= knot ts j.

(** The basis elements of a piece sum to one. *)
Lemma tail_sum_all (l deg : nat) (x : R) :
  on_piece ts l deg x -> (deg <= l)%nat -> tail_sum ts l deg 0 x = 1.
Proof.
  revert l. induction deg as [| deg IH]; intros l Hp Hl.
  - rewrite tail_sum_degree_0. reflexivity.
  - assert (on_piece ts l deg x) as Hp'
      by (apply (on_piece_lower ts l (S deg)); [lia | assumption]).
    rewrite tail_sum_step by assumption.
    assert (basis_element ts l deg 0 x = 0) as Hz
      by (apply basis_element_support; right; lia).
    pose proof (tail_sum_cons ts l deg 0 x) as Hc.
    rewrite Hz in *. rewrite (IH l Hp') in Hc by lia. lra.
Qed.

Lemma tail_sum_nonneg (l deg j : nat) (x : R) :
  on_piece ts l deg x -> 0 <= tail_sum ts l deg j x.
Proof.
  intros Hp. unfold tail_sum.
  generalize (seq j (S l - j)). intros s. induction s as [| i s IH]; simpl; [lra |].
  pose proof (basis_element_nonneg ts ts_sorted l deg i x Hp). lra.
Qed.

Lemma tail_sum_antitone (l deg j : nat) (x : R) :
  on_piece ts l deg x -> tail_sum ts l deg (S j) x <= tail_sum ts l deg j x.
Proof.
  intros Hp. rewrite (tail_sum_cons ts l deg j).
  pose proof (basis_element_nonneg ts ts_sorted l deg j x Hp). lra.
Qed.

Lemma tail_sum_le_one (l deg j : nat) (x : R) :
  on_piece ts l deg x -> (deg <= l)%nat -> tail_sum ts l deg j x <= 1.
Proof.
  intros Hp Hl. induction j as [| j IH].
  - rewrite tail_sum_all by assumption. lra.
  - pose proof (tail_sum_antitone l deg j x Hp). lra.
Qed.

End PartitionOfUnity.

Lemma clamped_sorted_all (degree m : nat) (a b : R) :
  a < b ->
  forall i j : nat, (i <= j < length (clamped_knots degree m a b))%nat ->
    BSpline.knot (clamped_knots degree m a b) i <= BSpline.knot (clamped_knots degree m a b) j.
Proof. intros Hab i j Hij. apply clamped_knots_sorted; [lra | assumption]. Qed.

Lemma bspline_on_piece (degree nb : nat) (a b x : R) :
  a < b -> (degree + 1 <= nb)%nat -> a <= x <= b ->
  let ks := clamped_knots degree (nb - degree - 1) a b in
  on_piece ks (BSpline.find_interval ks degree nb x) degree x
  /\ (degree <= BSpline.find_interval ks degree nb x <= nb - 1)%nat.
Proof.
  intros Hab Hnb Hx ks. split.
  - replace nb with (degree + (nb - degree - 1) + 1)%nat at 1 by lia.
    apply clamped_on_piece; assumption.
  - apply find_interval_range. lia.
Qed.

(** X1.  On a domain [[x_min, x_max]] with [x_min < x_max] and at least
    [degree + 1] basis functions, [create_bspline_basis] returns one row per
    point; at every point of the domain the row has [n_basis] entries, none
    of them negative, and the entries sum to 1 (the B-spline basis is a
    partition of unity). *)
Theorem bspline_rows_sum_to_one (x : list R) (nb degree : nat) (a b : R) :
  a < b -> (degree + 1 <= nb)%nat -> (forall xr, In xr x -> a <= xr <= b) ->
  exists basis ks,
    spline_fitting.create_bspline_basis x nb degree (Some a) (Some b) = inr (basis, ks)
    /\ length basis = length x
    /\ forall row, In row basis ->
         length row = nb /\ (forall v, In v row -> 0 <= v) /\ Np.sum row = 1.
Proof.
  intros Hab Hnb Hx. eexists _, _.
  split; [apply create_bspline_basis_ok; assumption |].
  split; [apply length_map |].
  intros row Hrow. apply in_map_iff in Hrow. destruct Hrow as (xr & <- & Hxr).
  set (ks := clamped_knots degree (nb - degree - 1) a b).
  destruct (bspline_on_piece degree nb a b xr Hab Hnb (Hx xr Hxr)) as [Hp Hl].
  fold ks in Hp, Hl.
  pose proof (clamped_sorted_all degree (nb - degree - 1) a b Hab) as Hs. fold ks in Hs.
  split; [now rewrite length_map, length_seq |]. split.
  - intros v Hv. apply in_map_iff in Hv. destruct Hv as (i & <- & _).
    unfold bspline_value. apply basis_element_nonneg; assumption.
  - unfold bspline_value. rewrite sum_range_tail by lia.
    apply tail_sum_all; [assumption | assumption | lia].
Qed.

Lemma bspline_rows_sum_to_one_witness :
  0 < 1 /\ (3 + 1 <= 4)%nat
  /\ exists basis ks,
       spline_fitting.create_bspline_basis [0; 1 / 2; 1] 4 3 (Some 0) (Some 1)
       = inr (basis, ks)
       /\ length basis = 3%nat
       /\ forall row, In row basis ->
            length row = 4%nat /\ (forall v, In v row -> 0 <= v) /\ Np.sum row = 1.
Proof.
  split; [lra |]. split; [lia |].
  apply (bspline_rows_sum_to_one [0; 1 / 2; 1] 4 3 0 1); [lra | lia |].
  intros xr [<- | [<- | [<- | []]]]; lra.
Defined.

Lemma ispline_on_piece (degree n_basis : nat) (a b x : R) :
  a < b -> (degree <= n_basis)%nat -> a <= x <= b ->
  let ks := clamped_knots degree (n_basis - degree) a b in
  on_piece ks (BSpline.find_interval ks degree (n_basis + 1) x) degree x
  /\ (degree <= BSpline.find_interval ks degree (n_basis + 1) x)%nat.
Proof.
  intros Hab Hdeg Hx ks.
  destruct (bspline_on_piece degree (n_basis + 1) a b x Hab ltac:(lia) Hx) as [Hp Hl].
  replace (n_basis + 1 - degree - 1)%nat with (n_basis - degree)%nat in * by lia.
  split; [exact Hp | unfold ks; lia].
Qed.

Lemma ispline_value_range (degree n_basis c : nat) (a b x : R) :
  a < b -> (degree <= n_basis)%nat -> a <= x <= b ->
  let ks := clamped_knots degree (n_basis - degree) a b in
  0 <= ispline_value ks degree n_basis c x <= 1
  /\ ispline_value ks degree n_basis (S c) x <= ispline_value ks degree n_basis c x.
Proof.
  intros Hab Hdeg Hx ks.
  destruct (ispline_on_piece degree n_basis a b x Hab Hdeg Hx) as [Hp Hl]. fold ks in Hp, Hl.
  pose proof (clamped_sorted_all degree (n_basis - degree) a b Hab) as Hs. fold ks in Hs.
  unfold ispline_value. repeat split.
  - apply tail_sum_nonneg; assumption.
  - apply tail_sum_le_one; assumption.
  - apply tail_sum_antitone; assumption.
Qed.

(** X2.  On a domain [[x_min, x_max]] with [x_min < x_max] and
    [degree <= n_basis], [create_ispline_basis] returns one row of [n_basis]
    entries per point; at every point of the domain each entry lies in
    [[0, 1]], and along a row the entries do not increase from one column to
    the next. *)
Theorem ispline_entries_in_unit_interval (x : list R) (n_basis degree : nat) (a b : R) :
  a < b -> (degree <= n_basis)%nat -> (forall xr, In xr x -> a <= xr <= b) ->
  exists basis ks,
    spline_fitting.create_ispline_basis x n_basis degree (Some a) (Some b) = inr (basis, ks)
    /\ length basis = length x
    /\ forall row, In row basis ->
         length row = n_basis
         /\ (forall v, In v row -> 0 <= v <= 1)
         /\ (forall c, (S c < n_basis)%nat -> nth (S c) row 0 <= nth c row 0).
Proof.
  intros Hab Hdeg Hx. eexists _, _.
  split; [apply create_ispline_basis_ok; assumption |].
  split; [apply length_map |].
  intros row Hrow. apply in_map_iff in Hrow. destruct Hrow as (xr & <- & Hxr).
  split; [now rewrite length_map, length_seq |]. split.
  - intros v Hv. apply in_map_iff in Hv. destruct Hv as (c & <- & _).
    apply ispline_value_range; auto.
  - intros c Hc.
    rewrite !(nth_map_lt _ _ 0%nat) by (rewrite length_seq; lia).
    rewrite !seq_nth by lia. cbn [Nat.add].
    apply ispline_value_range; auto.
Qed.

Lemma ispline_entries_in_unit_interval_witness :
  0 < 1 /\ (3 <= 6)%nat
  /\ exists basis ks,
       spline_fitting.create_ispline_basis [0; 1 / 3; 1] 6 3 (Some 0) (Some 1)
       = inr (basis, ks)
       /\ length basis = 3%nat
       /\ forall row, In row basis ->
            length row = 6%nat
            /\ (forall v, In v row -> 0 <= v <= 1)
            /\ (forall c, (S c < 6)%nat -> nth (S c) row 0 <= nth c row 0).
Proof.
  split; [lra |]. split; [lia |].
  apply (ispline_entries_in_unit_interval [0; 1 / 3; 1] 6 3 0 1); [lra | lia |].
  intros xr [<- | [<- | [<- | []]]]; lra.
Defined.

(** ** The range of a curve *)

Lemma dot_zeros (g : nat -> R) (s n : nat) (coef : list R) :
  (forall c, g c = 0) -> Np.dot (map g (seq s n)) coef = 0.
Proof.
  intros Hg. unfold Np.dot. revert s coef.
  induction n as [| n IH]; intros s [| v coef]; cbn [seq map map2 Np.sum fold_right]; try lra.
  rewrite Hg. fold (Np.sum (map2 Rmult (map g (seq (S s) n)) coef)). rewrite IH. lra.
Qed.

Lemma dot_ones (g : nat -> R) (s n : nat) (coef : list R) :
  (forall c, (s <= c < s + n)%nat -> g c = 1) -> length coef = n ->
  Np.dot (map g (seq s n)) coef = Np.sum coef.
Proof.
  unfold Np.dot. revert s coef.
  induction n as [| n IH]; intros s [| v coef] Hg Hlen; try discriminate;
    cbn [seq map map2 Np.sum fold_right]; try lra.
  rewrite Hg by lia. fold (Np.sum (map2 Rmult (map g (seq (S s) n)) coef)).
  rewrite IH; [fold (Np.sum coef); lra | intros; apply Hg; lia | now injection Hlen].
Qed.

Lemma curve_at_min (p : spline_fitting.params) :
  well_formed p -> curve p (spline_fitting.x_min p) = spline_fitting.intercept p.
Proof.
  intros (Hab & Hdeg & Hlen). unfold curve, ispline_row_at.
  rewrite dot_zeros; [lra |]. intros c. now apply ispline_value_at_min.
Qed.

Lemma curve_at_max (p : spline_fitting.params) :
  well_formed p ->
  curve p (spline_fitting.x_max p)
  = spline_fitting.intercept p + Np.sum (spline_fitting.coefficients p).
Proof.
  intros (Hab & Hdeg & Hlen). unfold curve, ispline_row_at.
  rewrite dot_ones; [reflexivity | | assumption].
  intros c Hc. apply ispline_value_at_max; [assumption | assumption | lia].
Qed.

(** X3.  For a parameter record that can be evaluated,
    [evaluate_monotone_spline] gives the intercept at [x_min] and the
    intercept plus the sum of the coefficients at [x_max]; when no
    coefficient is negative, every value on the domain lies between the
    two. *)
Theorem evaluate_range (p : spline_fitting.params) :
  well_formed p ->
  spline_fitting.evaluate_monotone_spline
    [spline_fitting.x_min p; spline_fitting.x_max p] p
  = inr [spline_fitting.intercept p;
         spline_fitting.intercept p + Np.sum (spline_fitting.coefficients p)]
  /\ ((forall v, In v (spline_fitting.coefficients p) -> 0 <= v) ->
      forall x, spline_fitting.x_min p <= x <= spline_fitting.x_max p ->
        exists v, spline_fitting.evaluate_monotone_spline [x] p = inr [v]
                  /\ spline_fitting.intercept p <= v
                     <= spline_fitting.intercept p + Np.sum (spline_fitting.coefficients p)).
Proof.
  intros Hwf. split.
  - rewrite evaluate_ok by assumption. cbn [map].
    now rewrite curve_at_min, curve_at_max.
  - intros Hpos x Hx. exists (curve p x). split; [now rewrite evaluate_ok |].
    pose proof Hwf as (Hab & _).
    rewrite <- (curve_at_min p Hwf) at 1. rewrite <- (curve_at_max p Hwf).
    split; apply curve_monotone; try assumption; lra.
Qed.

Lemma example_comp_params_well_formed :
  well_formed (calibrate_schools.gpaSpline example_comp_params)
  /\ well_formed (calibrate_schools.mcatSpline example_comp_params).
Proof.
  unfold well_formed. cbn. repeat split; try lra; try lia.
Qed.

Lemma evaluate_range_witness :
  well_formed (calibrate_schools.gpaSpline example_comp_params)
  /\ spline_fitting.evaluate_monotone_spline [2; 4]
       (calibrate_schools.gpaSpline example_comp_params)
     = inr [0; 0 + Np.sum [1; 1; 1; 1; 1; 1]].
Proof.
  split; [exact (proj1 example_comp_params_well_formed) |].
  exact (proj1 (evaluate_range (calibrate_schools.gpaSpline example_comp_params)
                  (proj1 example_comp_params_well_formed))).
Defined.

(** ** The diagnostics of a fit *)

Lemma make_clamped_degenerate (degree m : nat) (a b : R) (cs : list R) :
  ~ a < b -> BSpline.make (clamped_knots degree m a b) cs degree = inl ValueError.
Proof.
  intros Hab.
  destruct (BSpline.make (clamped_knots degree m a b) cs degree) as [e | s] eqn:E.
  - rewrite make_checks in E.
    destruct (negb _); [symmetry; exact E |].
    destruct (_ <? 2)%nat; [symmetry; exact E |].
    destruct (_ <? _)%nat; [symmetry; exact E | discriminate].
  - apply make_clamped_inv in E. tauto.
Qed.

Lemma create_ispline_basis_degenerate (x : list R) (n_basis degree : nat) (a b : R) :
  ~ a < b ->
  spline_fitting.create_ispline_basis x n_basis degree (Some a) (Some b) = inl ValueError.
Proof.
  intros H. unfold spline_fitting.create_ispline_basis, spline_fitting.create_bspline_basis.
  cbn [spline_fitting.default]. unfold ret at 1 2 3 4. cbn [bind].
  rewrite n_interior_nat, interior_linspace.
  fold (clamped_knots degree (n_basis + 1 - degree - 1) a b).
  rewrite (mapM_inl_head _ ValueError); [reflexivity | |].
  - replace (n_basis + 1)%nat with (S n_basis) by lia. discriminate.
  - intros i _. now apply make_clamped_degenerate.
Qed.

Lemma fold_left_Rmin_const (c : R) (l : list R) :
  (forall v, In v l -> v = c) -> fold_left Rmin l c = c.
Proof.
  induction l as [| a l IH]; intros H; simpl; [reflexivity |].
  rewrite (H a (or_introl eq_refl)). unfold Rmin at 2.
  destruct (Rle_dec c c); apply IH; intros; apply H; now right.
Qed.

Lemma fold_left_Rmax_const (c : R) (l : list R) :
  (forall v, In v l -> v = c) -> fold_left Rmax l c = c.
Proof.
  induction l as [| a l IH]; intros H; simpl; [reflexivity |].
  rewrite (H a (or_introl eq_refl)). unfold Rmax at 2.
  destruct (Rle_dec c c); apply IH; intros; apply H; now right.
Qed.

Lemma linspace_nth (a b : R) (n i : nat) :
  (i < n)%nat -> nth i (Np.linspace a b n) 0 = a + INR i * ((b - a) / INR (n - 1)).
Proof.
  intros H. unfold Np.linspace. rewrite (nth_map_lt _ _ 0%nat) by (now rewrite length_seq).
  now rewrite seq_nth.
Qed.

Lemma linspace_in_range (a b : R) (n i : nat) :
  a <= b -> (i < n)%nat -> a <= nth i (Np.linspace a b n) 0 <= b.
Proof.
  intros Hab Hi. rewrite linspace_nth by assumption.
  destruct (Nat.eq_dec n 1) as [-> | Hn].
  - replace i with 0%nat by lia. simpl. lra.
  - assert (0 < INR (n - 1)) as Hpos by (apply lt_0_INR; lia).
    assert (0 <= INR i) by apply pos_INR.
    assert (INR i <= INR (n - 1)) by (apply le_INR; lia).
    assert (0 <= (b - a) / INR (n - 1)) as Hh
      by (apply Rmult_le_pos; [lra | left; now apply Rinv_0_lt_compat]).
    split.
    + assert (0 <= INR i * ((b - a) / INR (n - 1))) by (now apply Rmult_le_pos). lra.
    + assert (INR i * ((b - a) / INR (n - 1)) <= INR (n - 1) * ((b - a) / INR (n - 1)))
        by (apply Rmult_le_compat_r; assumption).
      replace (INR (n - 1) * ((b - a) / INR (n - 1))) with (b - a) in * by (field; lra).
      lra.
Qed.

Lemma linspace_increasing (a b : R) (n i : nat) :
  a <= b -> (S i < n)%nat ->
  nth i (Np.linspace a b n) 0 <= nth (S i) (Np.linspace a b n) 0.
Proof.
  intros Hab Hi. rewrite !linspace_nth by lia.
  assert (0 < INR (n - 1)) as Hpos by (apply lt_0_INR; lia).
  assert (0 <= (b - a) / INR (n - 1)) as Hh
    by (apply Rmult_le_pos; [lra | left; now apply Rinv_0_lt_compat]).
  rewrite S_INR. nra.
Qed.

Lemma all_ge_diff (l : list R) (c : R) :
  c <= 0 -> (forall i : nat, (S i < length l)%nat -> nth i l 0 <= nth (S i) l 0) ->
  Np.all_ge (Np.diff l) c = true.
Proof.
  intros Hc. induction l as [| a [| b l] IH]; intros H; try reflexivity.
  change (Np.all_ge (Np.diff (a :: b :: l)) c)
    with ((if Rle_dec c (b - a) then true else false) && Np.all_ge (Np.diff (b :: l)) c).
  rewrite IH.
  - pose proof (H 0%nat ltac:(simpl; lia)) as H0. simpl in H0.
    destruct (Rle_dec c (b - a)); [reflexivity | lra].
  - intros i Hi. apply (H (S i)). simpl in *. lia.
Qed.

(** The monotonicity check of the two scripts, on a curve with no negative
    coefficient. *)
Lemma monotone_check_passes (p : spline_fitting.params) (a b : R) (n : nat) :
  well_formed p -> (forall v, In v (spline_fitting.coefficients p) -> 0 <= v) ->
  spline_fitting.x_min p <= a -> a <= b -> b <= spline_fitting.x_max p ->
  Np.all_ge (Np.diff (map (curve p) (Np.linspace a b n))) (- 1e-10) = true.
Proof.
  intros Hwf Hpos Ha Hab Hb. apply all_ge_diff; [lra |].
  intros i Hi. rewrite length_map, linspace_length in Hi.
  rewrite !(nth_map_lt _ _ 0) by (rewrite linspace_length; lia).
  pose proof (linspace_in_range a b n i Hab ltac:(lia)).
  pose proof (linspace_in_range a b n (S i) Hab ltac:(lia)).
  apply curve_monotone; try assumption; try lra.
  now apply linspace_increasing.
Qed.

Lemma fit_coefficients_pos (minimize : spline_fitting.minimizer) (normal : nat -> nat -> R)
    (x y : list R) (n_basis : nat) (weights : option (list R)) (degree : nat) (sp : R)
    (anchor : option (R * R)) (x_min x_max : option R)
    (p : spline_fitting.params) (info : spline_fitting.fit_info) :
  spline_fitting.fit_monotone_spline minimize normal x y n_basis weights degree sp
    anchor x_min x_max = inr (p, info) ->
  forall v, In v (spline_fitting.coefficients p) -> 0 < v.
Proof.
  intros H. apply fit_inv in H.
  destruct H as (a & b & w & res & icpt & residuals & _ & _ & _ & _ & -> & _).
  cbn [spline_fitting.coefficients]. intros v Hv. apply in_map_iff in Hv.
  destruct Hv as (t & <- & _). apply softplus_pos.
Qed.

Section FitDiagnostics.

Import spline_fitting.

Variable minimize : minimizer.
Variable normal : nat -> nat -> R.

Lemma fit_info_inv (x y : list R) (n_basis : nat) (weights : option (list R))
    (degree : nat) (sp : R) (anchor : option (R * R)) (x_min x_max : option R)
    (p : params) (info : fit_info) :
  fit_monotone_spline minimize normal x y n_basis weights degree sp anchor x_min x_max
  = inr (p, info) ->
  is_monotone info
  = Np.all_ge (Np.diff (map (curve p)
                 (Np.linspace (spline_fitting.x_min p) (spline_fitting.x_max p) 200)))
              (- 1e-10)
  /\ exists (w wt : list R) (avg : R),
       divide_all (match weights with None => Np.ones_like x | Some w0 => w0 end)
         (Np.sum (match weights with None => Np.ones_like x | Some w0 => w0 end)) = inr w
       /\ Np.average y w = inr avg
       /\ Np.broadcast2 Rmult w (map (fun v => square (v - avg)) y) = inr wt
       /\ (~ 0 < Np.sum wt -> r2 info = 0).
Proof.
  unfold fit_monotone_spline. intros H.
  bind_inv H. rename v into w, E into Ew.
  bind_inv H. rename v into a, E into Ea.
  bind_inv H. rename v into b, E into Eb.
  bind_inv H. destruct v as [basis ks]. rename E into Ebasis.
  destruct (create_ispline_basis_inv _ _ _ _ _ _ Ebasis) as [Hab Hdeg].
  rewrite create_ispline_basis_ok in Ebasis by assumption.
  injection Ebasis as <- <-.
  bind_inv H. rename v into basis_anchor, E into Eanchor.
  bind_inv H. rename v into x0, E into Ex0.
  bind_inv H. rename v into best, E into Ebest.
  bind_inv H. rename v into result, E into Eresult.
  bind_inv H. rename v into icpt, E into Eicpt.
  bind_inv H. rename v into bc, E into Ebc.
  bind_inv H. rename v into residuals, E into Eres.
  bind_inv H. rename v into wr, E into Ewr.
  bind_inv H. rename v into avg, E into Eavg.
  bind_inv H. rename v into wt, E into Ewt.
  bind_inv H. destruct v as [basis_check ks']. rename E into Echeck.
  bind_inv H. rename v into bcc, E into Ebcc.
  injection H as <- <-.
  rewrite create_ispline_basis_ok in Echeck by assumption.
  injection Echeck as <- <-.
  apply matvec_inr in Ebcc. destruct Ebcc as [Hlen ->].
  cbn [is_monotone r2 spline_fitting.x_min spline_fitting.x_max]. split.
  - rewrite !map_map. reflexivity.
  - exists w, wt, avg. repeat split; try assumption.
    intros Hn. destruct (Rlt_dec 0 (Np.sum wt)); [contradiction | reflexivity].
Qed.

(** X4.  Whenever [fit_monotone_spline] returns, its diagnostic
    [is_monotone] is [True]: in exact arithmetic the check on the 200-point
    grid over [[x_min, x_max]] cannot fail, whatever the data, the weights
    and the optimizer. *)
Theorem fit_monotone_flag (x y : list R) (n_basis : nat) (weights : option (list R))
    (degree : nat) (sp : R) (anchor : option (R * R)) (x_min x_max : option R)
    (p : params) (info : fit_info) :
  fit_monotone_spline minimize normal x y n_basis weights degree sp anchor x_min x_max
  = inr (p, info) ->
  is_monotone info = true.
Proof.
  intros H. destruct (fit_info_inv _ _ _ _ _ _ _ _ _ _ _ H) as [-> _].
  pose proof (fit_well_formed _ _ _ _ _ _ _ _ _ _ _ _ _ H) as Hwf.
  pose proof (fit_coefficients_pos _ _ _ _ _ _ _ _ _ _ _ _ _ H) as Hpos.
  apply monotone_check_passes; try assumption.
  - intros v Hv. left. now apply Hpos.
  - lra.
  - destruct Hwf as (Hlt & _). lra.
  - lra.
Qed.

(** X5.  With the default weights and no explicit domain, a fit on data
    whose [x] values are all equal (or on no data at all) raises
    [ValueError]: the domain [[min(x), max(x)]] is a single point and the
    B-spline constructor rejects its knots (an empty [x] has no minimum). *)
Theorem fit_constant_x (x y : list R) (n_basis degree : nat) (sp : R)
    (anchor : option (R * R)) (c : R) :
  (forall v, In v x -> v = c) ->
  fit_monotone_spline minimize normal x y n_basis None degree sp anchor None None
  = inl ValueError.
Proof.
  intros Hx. unfold fit_monotone_spline.
  destruct x as [| a x]; [reflexivity |].
  assert (Np.sum (Np.ones_like (a :: x)) <> 0) as Hs.
  { unfold Np.ones_like. rewrite sum_repeat. cbn [length]. rewrite S_INR.
    pose proof (pos_INR (length x)). lra. }
  rewrite divide_all_ok by assumption. cbn [bind default Np.min Np.max].
  unfold ret at 1 2. cbn [bind].
  assert (a = c) as -> by (apply Hx; now left).
  rewrite fold_left_Rmin_const, fold_left_Rmax_const by (intros; apply Hx; now right).
  rewrite create_ispline_basis_degenerate by lra. reflexivity.
Qed.

(** X6.  When all targets [y] are equal, a fit that returns reports
    [r2 = 0]: the weighted total sum of squares is zero, and the guard
    [ss_tot > 0] keeps the code from dividing by it. *)
Theorem fit_constant_y (x y : list R) (n_basis : nat) (weights : option (list R))
    (degree : nat) (sp : R) (anchor : option (R * R)) (x_min x_max : option R)
    (p : params) (info : fit_info) (c : R) :
  fit_monotone_spline minimize normal x y n_basis weights degree sp anchor x_min x_max
  = inr (p, info) ->
  (forall v, In v y -> v = c) ->
  r2 info = 0.
Proof.
  intros H Hy.
  destruct (fit_info_inv _ _ _ _ _ _ _ _ _ _ _ H) as [_ (w & wt & avg & _ & Eavg & Ewt & Hr)].
  apply Hr. clear Hr H.
  unfold Np.average in Eavg.
  destruct (negb _) eqn:Elen; [discriminate |].
  destruct (Req_dec_T (Np.sum w) 0) as [| Hsw]; [discriminate |].
  injection Eavg as <-.
  apply negb_false_iff, Nat.eqb_eq in Elen.
  assert (Np.sum (map2 Rmult y w) = c * Np.sum w) as Hsum.
  { clear - Hy Elen. revert w Elen.
    induction y as [| a y IH]; intros [| b w] Elen; try discriminate.
    - simpl. lra.
    - cbn [map2 Np.sum fold_right]. fold (Np.sum (map2 Rmult y w)). fold (Np.sum w).
      rewrite (Hy a (or_introl eq_refl)), IH;
        [lra | intros; apply Hy; now right | now injection Elen]. }
  rewrite Hsum in Ewt.
  replace (c * Np.sum w / Np.sum w) with c in Ewt by (field; assumption).
  rewrite broadcast2_ok in Ewt by (now rewrite length_map).
  injection Ewt as <-.
  assert (Np.sum (map2 Rmult w (map (fun v => square (v - c)) y)) = 0) as ->; [| lra].
  apply sum_all_zero. clear - Hy. revert w.
  induction y as [| a y IH]; intros [| b w] v Hv; simpl in Hv; try tauto.
  destruct Hv as [<- | Hv].
  - rewrite (Hy a (or_introl eq_refl)). unfold square. ring.
  - apply (IH (fun u Hu => Hy u (or_intror Hu)) w v Hv).
Qed.

End FitDiagnostics.

Lemma fit_monotone_flag_witness :
  exists (p : spline_fitting.params) (info : spline_fitting.fit_info),
    spline_fitting.fit_monotone_spline minimize_start normal_zero [0; 1] [0; 1] 6 None
      3 0.001 None (Some 0) (Some 1) = inr (p, info)
    /\ spline_fitting.is_monotone info = true.
Proof.
  destruct (fit_start_ok normal_zero [0; 1] [0; 1] 6 None 3 0.001 None 0 1)
    as (p & info & H); [lra | lia | discriminate | reflexivity | exact I |].
  exists p, info. split; [exact H |].
  exact (fit_monotone_flag minimize_start normal_zero _ _ _ _ _ _ _ _ _ p info H).
Defined.

Lemma fit_constant_x_witness :
  (forall v : R, In v [1; 1] -> v = 1)
  /\ spline_fitting.fit_monotone_spline minimize_start normal_zero [1; 1] [0; 1] 6 None
       3 0.001 None None None = inl ValueError.
Proof.
  assert (forall v : R, In v [1; 1] -> v = 1) as H
    by (intros v [<- | [<- | []]]; reflexivity).
  split; [exact H |].
  exact (fit_constant_x minimize_start normal_zero [1; 1] [0; 1] 6 3 0.001 None 1 H).
Defined.

Lemma fit_constant_y_witness :
  exists (p : spline_fitting.params) (info : spline_fitting.fit_info),
    spline_fitting.fit_monotone_spline minimize_start normal_zero [0; 1] [1; 1] 6 None
      3 0.001 None (Some 0) (Some 1) = inr (p, info)
    /\ (forall v : R, In v [1; 1] -> v = 1)
    /\ spline_fitting.r2 info = 0.
Proof.
  destruct (fit_start_ok normal_zero [0; 1] [1; 1] 6 None 3 0.001 None 0 1)
    as (p & info & H); [lra | lia | discriminate | reflexivity | exact I |].
  assert (forall v : R, In v [1; 1] -> v = 1) as Hy
    by (intros v [<- | [<- | []]]; reflexivity).
  exists p, info. split; [exact H |]. split; [exact Hy |].
  exact (fit_constant_y minimize_start normal_zero _ _ _ _ _ _ _ _ _ p info 1 H Hy).
Defined.

(** ** The calibrated curves *)

Lemma compute_C_ok (gpa mcat : R) (gp mp : spline_fitting.params) :
  well_formed gp -> well_formed mp ->
  calibrate_C.compute_C gpa mcat gp mp = inr (curve gp gpa + curve mp mcat).
Proof.
  intros Hg Hm. unfold calibrate_C.compute_C.
  rewrite !evaluate_ok by assumption. reflexivity.
Qed.

Section CalibratedCurves.

Import spline_fitting calibrate_C.

Variables minimize_additive minimize : minimizer.
Variables normal_gpa normal_mcat : nat -> nat -> R.

Lemma calibrate_curves (cells : list cell) (verbose : bool) (gp mp : params)
    (info : calibration_info) :
  calibrate_splines minimize_additive minimize normal_gpa normal_mcat cells verbose
  = inr (gp, mp, info) ->
  (well_formed gp /\ (forall v, In v (coefficients gp) -> 0 < v)
   /\ x_min gp = GPA_MIN /\ x_max gp = GPA_MAX /\ curve gp GPA_ANCHOR = 0)
  /\ (well_formed mp /\ (forall v, In v (coefficients mp) -> 0 < v)
      /\ x_min mp = MCAT_MIN /\ x_max mp = MCAT_MAX /\ curve mp MCAT_ANCHOR = 0).
Proof.
  intros H. apply calibrate_inv in H.
  destruct H as (gp0 & mp0 & gi & mi & ag & am & g_at & m_at & gl
                 & Fg & Fm & Eg & Em & -> & ->).
  pose proof (fit_well_formed _ _ _ _ _ _ _ _ _ _ _ _ _ Fg) as Wg.
  pose proof (fit_well_formed _ _ _ _ _ _ _ _ _ _ _ _ _ Fm) as Wm.
  pose proof (fit_coefficients_pos _ _ _ _ _ _ _ _ _ _ _ _ _ Fg) as Pg.
  pose proof (fit_coefficients_pos _ _ _ _ _ _ _ _ _ _ _ _ _ Fm) as Pm.
  destruct (fit_bounds _ _ _ _ _ _ _ _ _ _ _ _ _ Fg) as (Ag & Bg & _).
  destruct (fit_bounds _ _ _ _ _ _ _ _ _ _ _ _ _ Fm) as (Am & Bm & _).
  rewrite evaluate_ok in Eg, Em by assumption.
  cbn [map] in Eg, Em. injection Eg as Eg. injection Em as Em.
  split.
  - assert (same_shape gp0 (set_globalIntercept (set_intercept gp0 (intercept gp0 - g_at)) gl))
      as Hs by (unfold same_shape; cbn; auto 10).
    split; [exact (same_shape_well_formed _ _ Hs Wg) |].
    split; [exact Pg |]. split; [exact Ag |]. split; [exact Bg |].
    rewrite (same_shape_curve _ _ _ Hs). cbn [intercept set_globalIntercept set_intercept]. lra.
  - assert (same_shape mp0 (set_intercept mp0 (intercept mp0 - m_at)))
      as Hs by (unfold same_shape; cbn; auto 10).
    split; [exact (same_shape_well_formed _ _ Hs Wm) |].
    split; [exact Pm |]. split; [exact Am |]. split; [exact Bm |].
    rewrite (same_shape_curve _ _ _ Hs). cbn [intercept set_intercept]. lra.
Qed.

Lemma calibrate_flags_inv (cells : list cell) (verbose : bool) (gp mp : params)
    (info : calibration_info) :
  calibrate_splines minimize_additive minimize normal_gpa normal_mcat cells verbose
  = inr (gp, mp, info) ->
  gpa_monotone info
  = Np.all_ge (Np.diff (map (curve gp) (Np.linspace GPA_MIN GPA_MAX 50))) (- 1e-10)
  /\ mcat_monotone info
     = Np.all_ge (Np.diff (map (curve mp) (Np.linspace MCAT_MIN MCAT_MAX 50))) (- 1e-10).
Proof.
  unfold calibrate_splines. intros H.
  bind_inv H. bind_inv H. rename v0 into X_gpa. bind_inv H. rename v0 into X_mcat.
  bind_inv H. rename v0 into res. bind_inv H. bind_inv H. bind_inv H. bind_inv H.
  bind_inv H. destruct v4 as [gp0 gi]. rename E7 into Egp.
  bind_inv H. destruct v4 as [mp0 mi]. rename E7 into Emp.
  bind_inv H. rename v4 into ga, E7 into Ega.
  bind_inv H. rename v4 into g_at, E7 into Eg.
  bind_inv H. rename v4 into ma, E7 into Ema.
  bind_inv H. rename v4 into m_at, E7 into Em.
  bind_inv H. bind_inv H. bind_inv H.
  bind_inv H. rename v7 into gtest, E10 into Egt.
  bind_inv H. rename v7 into mtest, E10 into Emt.
  injection H as <- <- <-.
  destruct (evaluate_inv _ _ _ Egt) as [_ ->].
  destruct (evaluate_inv _ _ _ Emt) as [_ ->].
  cbn [gpa_monotone mcat_monotone]. split; reflexivity.
Qed.

(** X7.  Whenever [calibrate_splines] returns, its two diagnostics
    [gpa_monotone] and [mcat_monotone] are [True]: in exact arithmetic the
    checks on the 50-point grids over the GPA and the MCAT domain cannot
    fail on the re-anchored curves. *)
Theorem calibrate_monotone_flags (cells : list cell) (verbose : bool) (gp mp : params)
    (info : calibration_info) :
  calibrate_splines minimize_additive minimize normal_gpa normal_mcat cells verbose
  = inr (gp, mp, info) ->
  gpa_monotone info = true /\ mcat_monotone info = true.
Proof.
  intros H. destruct (calibrate_flags_inv _ _ _ _ _ H) as [-> ->].
  destruct (calibrate_curves _ _ _ _ _ H)
    as [(Wg & Pg & Ag & Bg & _) (Wm & Pm & Am & Bm & _)].
  split; apply monotone_check_passes; try assumption;
    try (intros v Hv; left; auto);
    try (rewrite ?Ag, ?Bg, ?Am, ?Bm; unfold GPA_MIN, GPA_MAX, MCAT_MIN, MCAT_MAX; lra).
Qed.

(** X8.  On the two curves [calibrate_splines] returns, [compute_C] is
    defined on the whole GPA and MCAT domain and does not decrease when the
    GPA or the MCAT grows; so it is at most 0 for an applicant at or below
    both anchors (GPA 3.75, MCAT 512) and at least 0 for one at or above
    both. *)
Theorem compute_C_monotone (cells : list cell) (verbose : bool) (gp mp : params)
    (info : calibration_info) :
  calibrate_splines minimize_additive minimize normal_gpa normal_mcat cells verbose
  = inr (gp, mp, info) ->
  forall gpa1 gpa2 mcat1 mcat2 : R,
    GPA_MIN <= gpa1 -> gpa1 <= gpa2 -> gpa2 <= GPA_MAX ->
    MCAT_MIN <= mcat1 -> mcat1 <= mcat2 -> mcat2 <= MCAT_MAX ->
    exists c1 c2 : R,
      compute_C gpa1 mcat1 gp mp = inr c1
      /\ compute_C gpa2 mcat2 gp mp = inr c2
      /\ c1 <= c2
      /\ (gpa2 <= GPA_ANCHOR -> mcat2 <= MCAT_ANCHOR -> c2 <= 0)
      /\ (GPA_ANCHOR <= gpa1 -> MCAT_ANCHOR <= mcat1 -> 0 <= c1).
Proof.
  intros H g1 g2 m1 m2 Hg1 Hg12 Hg2 Hm1 Hm12 Hm2.
  destruct (calibrate_curves _ _ _ _ _ H)
    as [(Wg & Pg & Ag & Bg & Zg) (Wm & Pm & Am & Bm & Zm)].
  assert (forall v, In v (coefficients gp) -> 0 <= v) as Pg' by (intros; left; auto).
  assert (forall v, In v (coefficients mp) -> 0 <= v) as Pm' by (intros; left; auto).
  assert (forall u v, GPA_MIN <= u -> u <= v -> v <= GPA_MAX -> curve gp u <= curve gp v)
    as Mg.
  { intros u v ? ? ?. apply curve_monotone; try assumption; rewrite ?Ag, ?Bg; assumption. }
  assert (forall u v, MCAT_MIN <= u -> u <= v -> v <= MCAT_MAX -> curve mp u <= curve mp v)
    as Mm.
  { intros u v ? ? ?. apply curve_monotone; try assumption; rewrite ?Am, ?Bm; assumption. }
  exists (curve gp g1 + curve mp m1), (curve gp g2 + curve mp m2).
  rewrite !compute_C_ok by assumption.
  split; [reflexivity |]. split; [reflexivity |].
  split; [| split].
  - pose proof (Mg g1 g2 Hg1 Hg12 Hg2). pose proof (Mm m1 m2 Hm1 Hm12 Hm2). lra.
  - intros Hga Hma.
    assert (curve gp g2 <= curve gp GPA_ANCHOR)
      by (apply Mg; unfold GPA_MIN, GPA_MAX, GPA_ANCHOR in *; lra).
    assert (curve mp m2 <= curve mp MCAT_ANCHOR)
      by (apply Mm; unfold MCAT_MIN, MCAT_MAX, MCAT_ANCHOR in *; lra).
    lra.
  - intros Hga Hma.
    assert (curve gp GPA_ANCHOR <= curve gp g1)
      by (apply Mg; unfold GPA_MIN, GPA_MAX, GPA_ANCHOR in *; lra).
    assert (curve mp MCAT_ANCHOR <= curve mp m1)
      by (apply Mm; unfold MCAT_MIN, MCAT_MAX, MCAT_ANCHOR in *; lra).
    lra.
Qed.

End CalibratedCurves.

Lemma calibrate_monotone_flags_witness :
  exists (gp mp : spline_fitting.params) (info : calibrate_C.calibration_info),
    calibrate_C.calibrate_splines minimize_start minimize_start normal_zero normal_zero
      example_cells false = inr (gp, mp, info)
    /\ calibrate_C.gpa_monotone info = true /\ calibrate_C.mcat_monotone info = true.
Proof.
  destruct calibrate_example_ok as (gp & mp & info & H).
  exists gp, mp, info. split; [exact H |].
  exact (calibrate_monotone_flags minimize_start minimize_start normal_zero normal_zero
           example_cells false gp mp info H).
Defined.

Lemma compute_C_monotone_witness :
  exists (gp mp : spline_fitting.params) (info : calibrate_C.calibration_info),
    calibrate_C.calibrate_splines minimize_start minimize_start normal_zero normal_zero
      example_cells false = inr (gp, mp, info)
    /\ exists c1 c2 : R,
         calibrate_C.compute_C 3 500 gp mp = inr c1
         /\ calibrate_C.compute_C 3.5 510 gp mp = inr c2
         /\ c1 <= c2.
Proof.
  destruct calibrate_example_ok as (gp & mp & info & H).
  exists gp, mp, info. split; [exact H |].
  destruct (compute_C_monotone minimize_start minimize_start normal_zero normal_zero
              example_cells false gp mp info H 3 3.5 500 510)
    as (c1 & c2 & E1 & E2 & Hle & _);
    try (unfold calibrate_C.GPA_MIN, calibrate_C.GPA_MAX, calibrate_C.MCAT_MIN,
           calibrate_C.MCAT_MAX; lra).
  exists c1, c2. repeat split; assumption.
Defined.

(** ** Acceptance probabilities *)

Lemma expit_range (v : R) : 0 < calibrate_C.expit v < 1.
Proof.
  unfold calibrate_C.expit. pose proof (exp_pos (- v)) as He.
  assert (0 < 1 + exp (- v)) as Hd by lra.
  split.
  - apply Rdiv_lt_0_compat; lra.
  - apply (Rmult_lt_reg_r (1 + exp (- v))); [assumption |].
    unfold Rdiv. rewrite Rmult_assoc, Rinv_l by lra. lra.
Qed.

Lemma exp_le (u v : R) : u <= v -> exp u <= exp v.
Proof. intros [H | ->]; [left; now apply exp_increasing | lra]. Qed.

Lemma expit_monotone (u v : R) : u <= v -> calibrate_C.expit u <= calibrate_C.expit v.
Proof.
  intros H. unfold calibrate_C.expit.
  pose proof (exp_pos (- u)). pose proof (exp_pos (- v)).
  assert (exp (- v) <= exp (- u)) by (apply exp_le; lra).
  apply (Rmult_le_reg_r ((1 + exp (- u)) * (1 + exp (- v)))); [nra |].
  field_simplify; lra.
Qed.

Lemma expit_logit (q t : R) :
  0 < q -> calibrate_C.expit (ln q + t) = q / (q + exp (- t)).
Proof.
  intros Hq. unfold calibrate_C.expit.
  replace (- (ln q + t)) with (- ln q + - t) by lra.
  rewrite exp_plus, exp_Ropp, exp_ln by assumption.
  pose proof (exp_pos (- t)). field. split; lra.
Qed.

Lemma p_accept_single_ok (C : R) (s : School.t) (slope acc : R) :
  total_accepted s = Some acc -> 0 < acc <= total_applicants s ->
  let b := acc / total_applicants s in
  0 < b <= 1
  /\ calibrate_C.compute_p_accept_single C s slope
     = inr (calibrate_C.expit (ln (b / (1 - b + 1e-10)) + slope * C)).
Proof.
  intros Hacc [Hpos Hle] b.
  assert (0 < total_applicants s) as Happs by lra.
  assert (0 < b <= 1) as Hb.
  { unfold b. split.
    - now apply Rdiv_lt_0_compat.
    - apply (Rmult_le_reg_r (total_applicants s)); [assumption |].
      unfold Rdiv. rewrite Rmult_assoc, Rinv_l by lra. lra. }
  split; [exact Hb |].
  unfold calibrate_C.compute_p_accept_single.
  fold (total_applicants s). fold (total_accepted s). rewrite Hacc.
  destruct (Req_dec_T (total_applicants s) 0); [lra |].
  fold b. destruct (Req_dec_T (1 - b + 1e-10) 0); [lra |].
  unfold Np.log.
  destruct (Rlt_dec 0 (b / (1 - b + 1e-10))) as [| Hn]; [reflexivity |].
  exfalso. apply Hn. apply Rdiv_lt_0_compat; lra.
Qed.

(** X9.  For a school with a positive number of acceptances that is not
    above its number of applicants (defaults 200 and 5000),
    [compute_p_accept_single] returns, for every C, a probability strictly
    between 0 and 1; at [C = 0] it is the base rate divided by
    [1 + 1e-10], and with a non-negative slope it does not decrease when C
    grows. *)
Theorem p_accept_single_probability (s : School.t) (slope acc : R) :
  total_accepted s = Some acc -> 0 < acc <= total_applicants s ->
  (forall C : R, exists p : R,
      calibrate_C.compute_p_accept_single C s slope = inr p /\ 0 < p < 1)
  /\ calibrate_C.compute_p_accept_single 0 s slope
     = inr (acc / total_applicants s / (1 + 1e-10))
  /\ (0 <= slope -> forall C1 C2 p1 p2 : R, C1 <= C2 ->
        calibrate_C.compute_p_accept_single C1 s slope = inr p1 ->
        calibrate_C.compute_p_accept_single C2 s slope = inr p2 ->
        p1 <= p2).
Proof.
  intros Hacc Hr.
  pose proof (fun C => p_accept_single_ok C s slope acc Hacc Hr) as Hok.
  cbv zeta in Hok. set (b := acc / total_applicants s) in *.
  destruct (Hok 0) as [Hb _].
  split; [| split].
  - intros C. eexists. split; [apply Hok | apply expit_range].
  - rewrite (proj2 (Hok 0)). f_equal.
    assert (0 < b / (1 - b + 1e-10)) by (apply Rdiv_lt_0_compat; lra).
    rewrite expit_logit by assumption.
    replace (- (slope * 0)) with 0 by lra. rewrite exp_0. field. lra.
  - intros Hs C1 C2 p1 p2 HC H1 H2.
    rewrite (proj2 (Hok C1)) in H1. rewrite (proj2 (Hok C2)) in H2.
    injection H1 as <-. injection H2 as <-.
    apply expit_monotone. nra.
Qed.

Lemma example_school_reports_rate (school_id : option String.string) (t : Z) :
  total_accepted (example_school school_id t) = Some 300
  /\ 0 < 300 <= total_applicants (example_school school_id t).
Proof. unfold total_applicants. cbn. split; [reflexivity | lra]. Qed.

Lemma p_accept_single_probability_witness :
  total_accepted (example_school None 1) = Some 300
  /\ 0 < 300 <= total_applicants (example_school None 1)
  /\ calibrate_C.compute_p_accept_single 0 (example_school None 1) 1
     = inr (300 / total_applicants (example_school None 1) / (1 + 1e-10)).
Proof.
  destruct (example_school_reports_rate None 1) as [Ha Hr].
  split; [exact Ha |]. split; [exact Hr |].
  exact (proj1 (proj2 (p_accept_single_probability (example_school None 1) 1 300 Ha Hr))).
Defined.

Lemma insert_descending_In {A : Type} (key : A -> R) (a x : A) (l : list A) :
  In x (calibrate_C.insert_descending key a l) <-> x = a \/ In x l.
Proof.
  induction l as [| b l IH]; simpl.
  - intuition.
  - destruct (Rlt_dec (key a) (key b)); simpl; rewrite ?IH; intuition.
Qed.

Lemma sorted_descending_In {A : Type} (key : A -> R) (x : A) (l : list A) :
  In x (calibrate_C.sorted_descending key l) <-> In x l.
Proof.
  induction l as [| a l IH]; simpl; [tauto |].
  rewrite insert_descending_In, IH. intuition.
Qed.

(** The schools the loop visits are the first [n] of the sorted list. *)
Lemma selected_firstn {A : Type} (n : nat) (l : list A) :
  firstn n (firstn (Nat.min (n * 2) (length l)) l) = firstn n l.
Proof.
  rewrite firstn_firstn.
  destruct (le_lt_dec n (length l)) as [H | H].
  - f_equal. lia.
  - replace (Nat.min n (Nat.min (n * 2) (length l))) with (length l) by lia.
    rewrite firstn_all. symmetry. apply firstn_all2. lia.
Qed.

Lemma firstn_plus {A : Type} (n k : nat) (l : list A) :
  firstn (n + k) l = firstn n l ++ firstn k (skipn n l).
Proof.
  revert l. induction n as [| n IH]; intros [| a l]; simpl;
    try reflexivity; [now rewrite firstn_nil | now rewrite IH].
Qed.

Lemma reject_all_ok (C slope : R) (l : list School.t) (acc : R) :
  (forall s, In s l -> reports_rate s) ->
  exists q : R,
    calibrate_C.reject_all C slope l acc = inr (acc * q) /\ 0 < q <= 1.
Proof.
  revert acc. induction l as [| s l IH]; intros acc Hl.
  - exists 1. simpl. split; [unfold ret; f_equal; lra | lra].
  - destruct (Hl s (or_introl eq_refl)) as (a & Ha & Hr).
    destruct (p_accept_single_ok C s slope a Ha Hr) as [_ Ep].
    pose proof (expit_range (ln (a / total_applicants s
                                  / (1 - a / total_applicants s + 1e-10)) + slope * C))
      as Hp.
    set (p := calibrate_C.expit _) in *.
    destruct (IH (acc * (1 - p)) (fun u Hu => Hl u (or_intror Hu))) as (q & Eq & Hq).
    exists ((1 - p) * q). cbn [calibrate_C.reject_all]. rewrite Ep. cbn [bind].
    rewrite Eq. split; [f_equal; lra | nra].
Qed.

Lemma reject_all_app (C slope : R) (l1 l2 : list School.t) (acc : R) :
  calibrate_C.reject_all C slope (l1 ++ l2) acc
  = bind (calibrate_C.reject_all C slope l1 acc) (calibrate_C.reject_all C slope l2).
Proof.
  revert acc. induction l1 as [| s l1 IH]; intros acc; [reflexivity |].
  cbn [app calibrate_C.reject_all].
  destruct (calibrate_C.compute_p_accept_single C s slope); [reflexivity |].
  cbn [bind]. apply IH.
Qed.

Lemma reject_all_monotone (C1 C2 slope : R) (l : list School.t) (acc1 acc2 : R) :
  (forall s, In s l -> reports_rate s) -> 0 <= slope -> C1 <= C2 ->
  0 <= acc2 <= acc1 ->
  exists q1 q2 : R,
    calibrate_C.reject_all C1 slope l acc1 = inr q1
    /\ calibrate_C.reject_all C2 slope l acc2 = inr q2
    /\ 0 <= q2 <= q1.
Proof.
  intros Hl Hs HC. revert acc1 acc2. induction l as [| s l IH]; intros acc1 acc2 Hacc.
  - exists acc1, acc2. repeat split; tauto.
  - destruct (Hl s (or_introl eq_refl)) as (a & Ha & Hr).
    destruct (p_accept_single_ok C1 s slope a Ha Hr) as [_ E1].
    destruct (p_accept_single_ok C2 s slope a Ha Hr) as [_ E2].
    set (q := ln (a / total_applicants s / (1 - a / total_applicants s + 1e-10))) in *.
    pose proof (expit_range (q + slope * C1)) as R1.
    pose proof (expit_range (q + slope * C2)) as R2.
    assert (calibrate_C.expit (q + slope * C1) <= calibrate_C.expit (q + slope * C2)) as Hle
      by (apply expit_monotone; nra).
    cbn [calibrate_C.reject_all]. rewrite E1, E2. cbn [bind].
    apply IH; [intros; apply Hl; now right | nra].
Qed.

(** X10.  When every school has a positive number of acceptances that is
    not above its number of applicants, [compute_p_at_least_one] returns a
    probability in [[0, 1)] for every C and every number of applications;
    with a non-negative slope it does not decrease when C grows, and it
    does not decrease when the number of applications grows. *)
Theorem p_at_least_one_probability (schools : list School.t) (slope : R) :
  (forall s, In s schools -> reports_rate s) ->
  (forall (C : R) (n : nat), exists p : R,
      calibrate_C.compute_p_at_least_one C schools n slope = inr p /\ 0 <= p < 1)
  /\ (0 <= slope -> forall (C1 C2 : R) (n : nat) (p1 p2 : R), C1 <= C2 ->
        calibrate_C.compute_p_at_least_one C1 schools n slope = inr p1 ->
        calibrate_C.compute_p_at_least_one C2 schools n slope = inr p2 ->
        p1 <= p2)
  /\ (forall (C : R) (n1 n2 : nat) (p1 p2 : R), (n1 <= n2)%nat ->
        calibrate_C.compute_p_at_least_one C schools n1 slope = inr p1 ->
        calibrate_C.compute_p_at_least_one C schools n2 slope = inr p2 ->
        p1 <= p2).
Proof.
  intros Hs.
  set (sorted := calibrate_C.sorted_descending
                   (fun s => get_or (School.totalApplicants s) 0) schools).
  assert (forall n s, In s (firstn n sorted) -> reports_rate s) as Hsel.
  { intros n s Hin. apply Hs. apply -> (sorted_descending_In
      (fun s => get_or (School.totalApplicants s) 0) s schools).
    fold sorted. rewrite <- (firstn_skipn n sorted). apply in_or_app. now left. }
  assert (forall C n, calibrate_C.compute_p_at_least_one C schools n slope
                      = bind (calibrate_C.reject_all C slope (firstn n sorted) 1.0)
                             (fun q => ret (1 - q))) as Hdef.
  { intros C n. unfold calibrate_C.compute_p_at_least_one. fold sorted.
    now rewrite selected_firstn. }
  split; [| split].
  - intros C n.
    destruct (reject_all_ok C slope (firstn n sorted) 1.0 (Hsel n)) as (q & Eq & Hq).
    exists (1 - 1.0 * q). rewrite Hdef, Eq. split; [reflexivity | lra].
  - intros Hslope C1 C2 n p1 p2 HC H1 H2. rewrite Hdef in H1, H2.
    destruct (reject_all_monotone C1 C2 slope (firstn n sorted) 1.0 1.0 (Hsel n) Hslope HC
                ltac:(lra)) as (q1 & q2 & E1 & E2 & Hq).
    rewrite E1 in H1. rewrite E2 in H2. cbn [bind] in H1, H2.
    injection H1 as <-. injection H2 as <-. lra.
  - intros C n1 n2 p1 p2 Hn H1 H2. rewrite Hdef in H1, H2.
    assert (firstn n2 sorted = firstn n1 sorted ++ firstn (n2 - n1) (skipn n1 sorted))
      as Hsplit.
    { replace n2 with (n1 + (n2 - n1))%nat at 1 by lia. apply firstn_plus. }
    rewrite Hsplit, reject_all_app in H2.
    destruct (reject_all_ok C slope (firstn n1 sorted) 1.0 (Hsel n1)) as (q1 & E1 & Hq1).
    rewrite E1 in H1, H2. cbn [bind] in H1, H2. injection H1 as <-.
    destruct (reject_all_ok C slope (firstn (n2 - n1) (skipn n1 sorted)) (1.0 * q1))
      as (q2 & E2 & Hq2).
    { intros s Hin. apply (Hsel n2). rewrite Hsplit. apply in_or_app. now right. }
    rewrite E2 in H2. cbn [bind] in H2. injection H2 as <-. nra.
Qed.

Lemma example_schools_report_rates :
  forall s, In s example_schools -> reports_rate s.
Proof.
  intros s [<- | [<- | [<- | []]]]; exists 300; apply example_school_reports_rate.
Qed.

Lemma p_at_least_one_probability_witness :
  (forall s, In s example_schools -> reports_rate s)
  /\ forall (C : R) (n : nat), exists p : R,
       calibrate_C.compute_p_at_least_one C example_schools n 1 = inr p /\ 0 <= p < 1.
Proof.
  split; [exact example_schools_report_rates |].
  exact (proj1 (p_at_least_one_probability example_schools 1 example_schools_report_rates)).
Defined.

(** ** The parameters of one school *)

Lemma clip_range (a lo hi : R) : lo <= hi -> lo <= Np.clip a lo hi <= hi.
Proof.
  intros H. unfold Np.clip, Rmin, Rmax.
  destruct (Rle_dec a lo);
    match goal with |- context [Rle_dec ?u ?v] => destruct (Rle_dec u v) end; lra.
Qed.

Lemma clip_id (a lo hi : R) : lo <= a <= hi -> Np.clip a lo hi = a.
Proof.
  intros H. unfold Np.clip, Rmin, Rmax.
  destruct (Rle_dec a lo);
    match goal with |- context [Rle_dec ?u ?v] => destruct (Rle_dec u v) end; lra.
Qed.

Lemma ln_le (u w : R) : 0 < u -> u <= w -> ln u <= ln w.
Proof. intros Hu [Hlt | ->]; [left; now apply ln_increasing | lra]. Qed.

Lemma odds_monotone (p q : R) : 0 < p -> p <= q -> q < 1 -> p / (1 - p) <= q / (1 - q).
Proof.
  intros Hp Hpq Hq.
  apply (Rmult_le_reg_r ((1 - p) * (1 - q))); [nra |].
  field_simplify; lra.
Qed.

Lemma logit_ok (p : R) : 0 < p < 1 -> Special.logit p = inr (ln (p / (1 - p))).
Proof.
  intros [H0 H1]. unfold Special.logit.
  destruct (Rlt_dec 0 p); [| lra]. destruct (Rlt_dec p 1); [reflexivity | lra].
Qed.

Lemma logit_monotone (p q : R) :
  0 < p -> p <= q -> q < 1 -> ln (p / (1 - p)) <= ln (q / (1 - q)).
Proof.
  intros Hp Hpq Hq. apply ln_le; [apply Rdiv_lt_0_compat; lra | now apply odds_monotone].
Qed.

Lemma logit_clip (r : R) :
  Special.logit (Np.clip r 0.01 0.99)
  = inr (ln (Np.clip r 0.01 0.99 / (1 - Np.clip r 0.01 0.99)))
  /\ logit_min <= ln (Np.clip r 0.01 0.99 / (1 - Np.clip r 0.01 0.99)) <= logit_max.
Proof.
  pose proof (clip_range r 0.01 0.99 ltac:(lra)) as Hc.
  split; [apply logit_ok; lra |].
  unfold logit_min, logit_max.
  replace (0.01 / 0.99) with (0.01 / (1 - 0.01)) by lra.
  replace (0.99 / 0.01) with (0.99 / (1 - 0.99)) by lra.
  split; apply logit_monotone; lra.
Qed.

(** X11.  [compute_intercepts] returns for every school, and both
    intercepts lie between the log-odds of 0.01 and of 0.99; an interview
    rate that is missing, null, zero or negative gives the log-odds of the
    default 0.10, and such an interview-to-accept rate the log-odds of
    0.40. *)
Theorem compute_intercepts_bounds (s : School.t) :
  exists a b : R,
    calibrate_schools.compute_intercepts s = inr (a, b)
    /\ logit_min <= a <= logit_max /\ logit_min <= b <= logit_max
    /\ ((forall r, School.interviewRate s = Some r -> r <= 0) -> a = ln (0.10 / 0.90))
    /\ ((forall r, School.interviewToAcceptRate s = Some r -> r <= 0) ->
        b = ln (0.40 / 0.60)).
Proof.
  unfold calibrate_schools.compute_intercepts.
  set (ir := match School.interviewRate s with
             | Some r => if Rle_dec r 0 then 0.10 else r | None => 0.10 end).
  set (ar := match School.interviewToAcceptRate s with
             | Some r => if Rle_dec r 0 then 0.40 else r | None => 0.40 end).
  destruct (logit_clip ir) as [Ei Hi]. destruct (logit_clip ar) as [Ea Ha].
  eexists _, _. rewrite Ei. cbn [bind]. rewrite Ea. cbn [bind].
  split; [reflexivity |]. split; [exact Hi |]. split; [exact Ha |].
  split.
  - intros H. assert (ir = 0.10) as ->.
    { unfold ir. destruct (School.interviewRate s) as [r |]; [| reflexivity].
      destruct (Rle_dec r 0); [reflexivity |]. specialize (H r eq_refl). lra. }
    rewrite clip_id by lra. f_equal. lra.
  - intros H. assert (ar = 0.40) as ->.
    { unfold ar. destruct (School.interviewToAcceptRate s) as [r |]; [| reflexivity].
      destruct (Rle_dec r 0); [reflexivity |]. specialize (H r eq_refl). lra. }
    rewrite clip_id by lra. f_equal. lra.
Qed.

Lemma evaluate_spline_ok (x : R) (p : spline_fitting.params) :
  well_formed p -> calibrate_schools.evaluate_spline x p = inr (curve p x).
Proof.
  intros (Hab & Hdeg & Hlen). unfold calibrate_schools.evaluate_spline.
  rewrite schools_basis_agrees, create_ispline_basis_ok by assumption.
  cbn [bind fst]. unfold ret at 1. cbn [bind].
  rewrite matvec_ok by (now rewrite Hlen). cbn [bind map spline_fitting.item0].
  reflexivity.
Qed.

Lemma schools_compute_C_ok (gpa mcat : R) (cp : calibrate_schools.comp_params) :
  well_formed (calibrate_schools.gpaSpline cp) ->
  well_formed (calibrate_schools.mcatSpline cp) ->
  calibrate_schools.compute_C gpa mcat cp
  = inr (curve (calibrate_schools.gpaSpline cp) gpa
         + curve (calibrate_schools.mcatSpline cp) mcat).
Proof.
  intros Hg Hm. unfold calibrate_schools.compute_C.
  rewrite !evaluate_spline_ok by assumption. reflexivity.
Qed.

Lemma default_slope_valid (t : Z) :
  valid_tier t ->
  exists d, calibrate_schools.DEFAULT_SLOPES_INTERVIEW t = inr d /\ 0.6 <= d <= 1.2.
Proof.
  intros H. unfold valid_tier in H. unfold calibrate_schools.DEFAULT_SLOPES_INTERVIEW.
  assert (t = 1 \/ t = 2 \/ t = 3 \/ t = 4)%Z as [-> | [-> | [-> | ->]]] by lia;
    cbn; eexists; (split; [reflexivity | lra]).
Qed.

Lemma default_slope_invalid (t : Z) :
  ~ valid_tier t -> calibrate_schools.DEFAULT_SLOPES_INTERVIEW t = inl KeyError.
Proof.
  intros H. unfold valid_tier in H. unfold calibrate_schools.DEFAULT_SLOPES_INTERVIEW.
  destruct (Z.eqb_spec t 1); [lia |]. destruct (Z.eqb_spec t 2); [lia |].
  destruct (Z.eqb_spec t 3); [lia |]. destruct (Z.eqb_spec t 4); [lia |]. reflexivity.
Qed.

Lemma default_slope_inv (t : Z) (d : R) :
  calibrate_schools.DEFAULT_SLOPES_INTERVIEW t = inr d -> 0.6 <= d <= 1.2.
Proof.
  intros E. destruct (Z_le_dec 1 t) as [H1 | H1];
    [destruct (Z_le_dec t 4) as [H4 | H4] |].
  - destruct (default_slope_valid t (conj H1 H4)) as (d' & Ed & Hd).
    rewrite E in Ed. injection Ed as <-. exact Hd.
  - rewrite default_slope_invalid in E by (unfold valid_tier; lia). discriminate.
  - rewrite default_slope_invalid in E by (unfold valid_tier; lia). discriminate.
Qed.

(** The function after the two evaluations of C. *)
Lemma estimate_slope_unfold (s : School.t) (cp : calibrate_schools.comp_params)
    (c25 c75 : R) :
  calibrate_schools.compute_C (gpa_25 s) (mcat_25 s) cp = inr c25 ->
  calibrate_schools.compute_C (gpa_75 s) (mcat_75 s) cp = inr c75 ->
  calibrate_schools.estimate_slope_from_iqr s cp
  = (raw_slope <- (if Rlt_dec 0.1 (c75 - c25) then ret (1.0 / (c75 - c25))
                   else calibrate_schools.DEFAULT_SLOPES_INTERVIEW (school_tier s)) ;;
     tier_default <- calibrate_schools.DEFAULT_SLOPES_INTERVIEW (school_tier s) ;;
     ret (Np.clip (0.5 * tier_default + (1 - 0.5) * raw_slope) 0.3 2.0,
          Np.clip (0.5 * tier_default + (1 - 0.5) * raw_slope) 0.3 2.0 * 0.5)).
Proof.
  intros E25 E75. unfold calibrate_schools.estimate_slope_from_iqr.
  fold (gpa_25 s). fold (gpa_75 s). fold (mcat_25 s). fold (mcat_75 s).
  rewrite E25. cbn [bind]. rewrite E75. reflexivity.
Qed.

Lemma estimate_slope_ok (s : School.t) (cp : calibrate_schools.comp_params) (c25 c75 : R) :
  calibrate_schools.compute_C (gpa_25 s) (mcat_25 s) cp = inr c25 ->
  calibrate_schools.compute_C (gpa_75 s) (mcat_75 s) cp = inr c75 ->
  valid_tier (school_tier s) ->
  exists slope : R,
    calibrate_schools.estimate_slope_from_iqr s cp = inr (slope, slope * 0.5)
    /\ 0.3 <= slope <= 2.0.
Proof.
  intros E25 E75 Ht. rewrite (estimate_slope_unfold s cp c25 c75) by assumption.
  destruct (default_slope_valid _ Ht) as (d & Ed & Hd). rewrite Ed.
  destruct (Rlt_dec 0.1 (c75 - c25)); cbn [bind ret]; unfold ret; cbn [bind];
    eexists; (split; [reflexivity | apply clip_range; lra]).
Qed.

Lemma estimate_slope_invalid (s : School.t) (cp : calibrate_schools.comp_params)
    (c25 c75 : R) :
  calibrate_schools.compute_C (gpa_25 s) (mcat_25 s) cp = inr c25 ->
  calibrate_schools.compute_C (gpa_75 s) (mcat_75 s) cp = inr c75 ->
  ~ valid_tier (school_tier s) ->
  calibrate_schools.estimate_slope_from_iqr s cp = inl KeyError.
Proof.
  intros E25 E75 Ht. rewrite (estimate_slope_unfold s cp c25 c75) by assumption.
  rewrite (default_slope_invalid _ Ht).
  destruct (Rlt_dec 0.1 (c75 - c25)); reflexivity.
Qed.

(** X12.  When C can be computed at the school's two percentile points:
    for a tier from 1 to 4 (3 when the key is missing)
    [estimate_slope_from_iqr] returns an interview slope in [[0.3, 2.0]]
    and an acceptance slope that is half of it; for any other tier it
    raises [KeyError]. *)
Theorem estimate_slope_tier (s : School.t) (cp : calibrate_schools.comp_params)
    (c25 c75 : R) :
  calibrate_schools.compute_C (gpa_25 s) (mcat_25 s) cp = inr c25 ->
  calibrate_schools.compute_C (gpa_75 s) (mcat_75 s) cp = inr c75 ->
  (valid_tier (school_tier s) ->
   exists slope : R,
     calibrate_schools.estimate_slope_from_iqr s cp = inr (slope, slope * 0.5)
     /\ 0.3 <= slope <= 2.0)
  /\ (~ valid_tier (school_tier s) ->
      calibrate_schools.estimate_slope_from_iqr s cp = inl KeyError).
Proof.
  intros E25 E75. split.
  - now apply (estimate_slope_ok s cp c25 c75).
  - now apply (estimate_slope_invalid s cp c25 c75).
Qed.

(** X13.  When the spread of C between the two percentile points is at
    most 0.1, the interview slope is exactly the default of the tier; when
    it is just above, between 0.1 and [1 / (4 - default)], the slope is the
    upper clamp 2.0: the estimate jumps at the threshold. *)
Theorem estimate_slope_threshold (s : School.t) (cp : calibrate_schools.comp_params)
    (c25 c75 d : R) :
  calibrate_schools.compute_C (gpa_25 s) (mcat_25 s) cp = inr c25 ->
  calibrate_schools.compute_C (gpa_75 s) (mcat_75 s) cp = inr c75 ->
  calibrate_schools.DEFAULT_SLOPES_INTERVIEW (school_tier s) = inr d ->
  (c75 - c25 <= 0.1 ->
   calibrate_schools.estimate_slope_from_iqr s cp = inr (d, d * 0.5))
  /\ (0.1 < c75 - c25 <= 1 / (4 - d) ->
      calibrate_schools.estimate_slope_from_iqr s cp = inr (2.0, 2.0 * 0.5)).
Proof.
  intros E25 E75 Ed. rewrite (estimate_slope_unfold s cp c25 c75) by assumption.
  rewrite Ed. pose proof (default_slope_inv _ _ Ed) as Hd.
  split.
  - intros Hi. destruct (Rlt_dec 0.1 (c75 - c25)); [lra |]. cbn [bind]. unfold ret.
    replace (0.5 * d + (1 - 0.5) * d) with d by lra.
    rewrite clip_id by lra. reflexivity.
  - intros [Hlo Hhi]. destruct (Rlt_dec 0.1 (c75 - c25)); [| lra]. unfold ret. cbn [bind].
    assert (2.0 <= 0.5 * d + (1 - 0.5) * (1.0 / (c75 - c25))) as Hbig.
    { assert (4 - d <= 1.0 / (c75 - c25)); [| lra].
      apply (Rmult_le_reg_r (c75 - c25)); [lra |].
      replace (1.0 / (c75 - c25) * (c75 - c25)) with 1
        by (unfold Rdiv; rewrite Rmult_assoc, Rinv_l by lra; lra).
      apply (Rmult_le_compat_l (4 - d)) in Hhi; [| lra].
      replace ((4 - d) * (1 / (4 - d))) with 1 in Hhi by (field; lra). lra. }
    assert (Np.clip (0.5 * d + (1 - 0.5) * (1.0 / (c75 - c25))) 0.3 2.0 = 2.0) as ->.
    { unfold Np.clip, Rmin, Rmax.
      destruct (Rle_dec _ 0.3);
        match goal with |- context [Rle_dec ?u ?v] => destruct (Rle_dec u v) end; lra. }
    reflexivity.
Qed.

Lemma estimate_slope_tier_witness :
  exists c25 c75 slope : R,
    calibrate_schools.compute_C (gpa_25 (example_school None 1))
      (mcat_25 (example_school None 1)) example_comp_params = inr c25
    /\ calibrate_schools.compute_C (gpa_75 (example_school None 1))
         (mcat_75 (example_school None 1)) example_comp_params = inr c75
    /\ valid_tier (school_tier (example_school None 1))
    /\ calibrate_schools.estimate_slope_from_iqr (example_school None 1) example_comp_params
       = inr (slope, slope * 0.5)
    /\ 0.3 <= slope <= 2.0.
Proof.
  destruct example_comp_params_well_formed as [Wg Wm].
  pose proof (schools_compute_C_ok (gpa_25 (example_school None 1))
                (mcat_25 (example_school None 1)) example_comp_params Wg Wm) as E25.
  pose proof (schools_compute_C_ok (gpa_75 (example_school None 1))
                (mcat_75 (example_school None 1)) example_comp_params Wg Wm) as E75.
  assert (valid_tier (school_tier (example_school None 1))) as Ht
    by (unfold valid_tier; cbn; lia).
  destruct (proj1 (estimate_slope_tier _ _ _ _ E25 E75) Ht) as (slope & Es & Hs).
  eexists _, _, slope.
  split; [exact E25 |]. split; [exact E75 |]. split; [exact Ht |].
  split; [exact Es | exact Hs].
Defined.

Lemma estimate_slope_threshold_witness :
  exists c : R,
    calibrate_schools.compute_C (gpa_25 example_school_narrow)
      (mcat_25 example_school_narrow) example_comp_params = inr c
    /\ calibrate_schools.compute_C (gpa_75 example_school_narrow)
         (mcat_75 example_school_narrow) example_comp_params = inr c
    /\ calibrate_schools.DEFAULT_SLOPES_INTERVIEW (school_tier example_school_narrow)
       = inr 1.2
    /\ c - c <= 0.1
    /\ calibrate_schools.estimate_slope_from_iqr example_school_narrow example_comp_params
       = inr (1.2, 1.2 * 0.5).
Proof.
  destruct example_comp_params_well_formed as [Wg Wm].
  pose proof (schools_compute_C_ok 3.7 512 example_comp_params Wg Wm) as E.
  set (c := curve (calibrate_schools.gpaSpline example_comp_params) 3.7
            + curve (calibrate_schools.mcatSpline example_comp_params) 512) in *.
  assert (calibrate_schools.compute_C (gpa_25 example_school_narrow)
            (mcat_25 example_school_narrow) example_comp_params = inr c) as E25 by exact E.
  assert (calibrate_schools.compute_C (gpa_75 example_school_narrow)
            (mcat_75 example_school_narrow) example_comp_params = inr c) as E75 by exact E.
  assert (calibrate_schools.DEFAULT_SLOPES_INTERVIEW (school_tier example_school_narrow)
          = inr 1.2) as Ed by reflexivity.
  assert (c - c <= 0.1) as Hle by lra.
  exists c. split; [exact E25 |]. split; [exact E75 |]. split; [exact Ed |].
  split; [exact Hle |].
  exact (proj1 (estimate_slope_threshold example_school_narrow example_comp_params
                  c c 1.2 E25 E75 Ed) Hle).
Defined.

(** The two branches of [compute_in_state_bonus]. *)
Lemma in_state_bonus_cases (s : School.t) :
  (in_state_preference s ->
   exists v : R,
     calibrate_schools.compute_in_state_bonus s
     = inr (Np.clip v 0.2 2.0, Np.clip v 0.2 2.0 * 0.3))
  /\ (~ in_state_preference s ->
      calibrate_schools.compute_in_state_bonus s = inr (0.1, 0.1 * 0.3)).
Proof.
  unfold calibrate_schools.compute_in_state_bonus, in_state_preference.
  destruct (School.isPublic s) as [[|] |]; cbn [get_or andb].
  2, 3: (split; [intros [H _]; discriminate | intros _; reflexivity]).
  destruct (Rlt_dec 0.3 (get_or (School.pctInStateMatriculants s) 0.5)) as [Hp | Hp].
  - split; [intros _ | intros H; exfalso; apply H; split; [reflexivity | exact Hp]].
    assert (exists v, (match School.inStateInterviewRate s, School.oosInterviewRate s with
                       | Some is_r, Some oos_r =>
                           if truthy (School.inStateInterviewRate s)
                              && truthy (School.oosInterviewRate s)
                              && (if Rlt_dec oos_r is_r then true else false)
                           then
                             is_logit <- Special.logit (Np.clip is_r 0.01 0.99) ;;
                             oos_logit <- Special.logit (Np.clip oos_r 0.01 0.99) ;;
                             ret (is_logit - oos_logit)
                           else ret (calibrate_schools.PUBLIC_IN_STATE_BONUS_MEAN
                                     * (get_or (School.pctInStateMatriculants s) 0.5 / 0.5))
                       | _, _ => ret (calibrate_schools.PUBLIC_IN_STATE_BONUS_MEAN
                                      * (get_or (School.pctInStateMatriculants s) 0.5 / 0.5))
                       end) = inr v) as (v & Ev).
    { destruct (School.inStateInterviewRate s) as [is_r |]; [| eexists; reflexivity].
      destruct (School.oosInterviewRate s) as [oos_r |]; [| eexists; reflexivity].
      destruct (_ && _); [| eexists; reflexivity].
      rewrite (proj1 (logit_clip is_r)). cbn [bind].
      rewrite (proj1 (logit_clip oos_r)). cbn [bind]. eexists; reflexivity. }
    rewrite Ev. cbn [bind]. exists v. reflexivity.
  - split; [intros [_ H]; contradiction | intros _; reflexivity].
Qed.

(** X14.  [compute_in_state_bonus] returns for every school, and the
    acceptance bonus is 0.3 times the interview bonus; the interview bonus
    lies in [[0.2, 2.0]] for a public school with more than 30% in-state
    matriculants (50% assumed when the key is missing) and is exactly 0.1
    for every other school. *)
Theorem in_state_bonus_range (s : School.t) :
  exists bonus : R,
    calibrate_schools.compute_in_state_bonus s = inr (bonus, bonus * 0.3)
    /\ (in_state_preference s -> 0.2 <= bonus <= 2.0)
    /\ (~ in_state_preference s -> bonus = 0.1).
Proof.
  destruct (in_state_bonus_cases s) as [Hpub Hpriv].
  assert (in_state_preference s \/ ~ in_state_preference s) as [Hp | Hn].
  { unfold in_state_preference.
    destruct (School.isPublic s) as [[|] |];
      [| right; intros [H _]; discriminate | right; intros [H _]; discriminate].
    destruct (Rlt_dec 0.3 (get_or (School.pctInStateMatriculants s) 0.5));
      [left; split; [reflexivity | assumption] | right; intros [_ H]; contradiction]. }
  - destruct (Hpub Hp) as (v & ->). eexists. split; [reflexivity |].
    split; [intros _; apply clip_range; lra | intros Hn; contradiction].
  - rewrite (Hpriv Hn). eexists. split; [reflexivity |].
    split; [intros Hp; contradiction | reflexivity].
Qed.

Section SchoolCalibration.

Import calibrate_schools.
Import String.StringSyntax.

Lemma in_state_preference_dec (s : School.t) :
  in_state_preference s \/ ~ in_state_preference s.
Proof.
  unfold in_state_preference.
  destruct (School.isPublic s) as [[|] |];
    [| right; intros [H _]; discriminate | right; intros [H _]; discriminate].
  destruct (Rlt_dec 0.3 (get_or (School.pctInStateMatriculants s) 0.5));
    [left; split; [reflexivity | assumption] | right; intros [_ H]; contradiction].
Qed.

Lemma calibrate_school_ok (s : School.t) (cp : comp_params) (ts : list (Z * tier_stat)) :
  well_formed (gpaSpline cp) -> well_formed (mcatSpline cp) ->
  valid_tier (school_tier s) ->
  exists p, calibrate_school s cp ts = inr p /\ in_range p /\ tier p = school_tier s.
Proof.
  intros Hg Hm Ht. unfold calibrate_school, compute_intercepts.
  match goal with
  | |- context [Special.logit (Np.clip ?r 0.01 0.99)] =>
      destruct (logit_clip r) as [-> Ha]
  end.
  cbn [bind].
  match goal with
  | |- context [Special.logit (Np.clip ?r 0.01 0.99)] =>
      destruct (logit_clip r) as [-> Hb]
  end.
  cbn [bind]. unfold ret at 1. cbn [bind].
  destruct (estimate_slope_ok s cp _ _
              (schools_compute_C_ok _ _ cp Hg Hm) (schools_compute_C_ok _ _ cp Hg Hm) Ht)
    as (sl & -> & Hsl).
  cbn [bind].
  destruct (in_state_bonus_cases s) as [Hpub Hpriv].
  destruct (in_state_preference_dec s) as [Hp | Hn].
  - destruct (Hpub Hp) as (v & ->). cbn [bind].
    pose proof (clip_range v 0.2 2.0 ltac:(lra)).
    eexists. split; [reflexivity |]. split; [| reflexivity].
    unfold in_range. cbn. repeat split; try tauto; lra.
  - rewrite (Hpriv Hn). cbn [bind].
    eexists. split; [reflexivity |]. split; [| reflexivity].
    unfold in_range. cbn. repeat split; try tauto; lra.
Qed.

Lemma calibrate_school_invalid (s : School.t) (cp : comp_params) (ts : list (Z * tier_stat)) :
  well_formed (gpaSpline cp) -> well_formed (mcatSpline cp) ->
  ~ valid_tier (school_tier s) ->
  calibrate_school s cp ts = inl KeyError.
Proof.
  intros Hg Hm Ht. unfold calibrate_school, compute_intercepts.
  match goal with
  | |- context [Special.logit (Np.clip ?r 0.01 0.99)] =>
      destruct (logit_clip r) as [-> _]
  end.
  cbn [bind].
  match goal with
  | |- context [Special.logit (Np.clip ?r 0.01 0.99)] =>
      destruct (logit_clip r) as [-> _]
  end.
  cbn [bind]. unfold ret at 1. cbn [bind].
  rewrite (estimate_slope_invalid s cp _ _
             (schools_compute_C_ok _ _ cp Hg Hm) (schools_compute_C_ok _ _ cp Hg Hm) Ht).
  reflexivity.
Qed.

(** *** Dictionaries *)

Lemma dict_get_set {A : Type} (k k' : String.string) (v : A) (d : dict A) :
  dict_get k (dict_set k' v d) = if String.eqb k' k then Some v else dict_get k d.
Proof.
  induction d as [| [k0 v0] d IH]; cbn [dict_set dict_get].
  - reflexivity.
  - destruct (String.eqb_spec k0 k') as [-> | Hne]; cbn [dict_get].
    + destruct (String.eqb k' k); reflexivity.
    + destruct (String.eqb_spec k0 k) as [-> | Hne'].
      * destruct (String.eqb_spec k' k) as [-> | _]; [congruence | reflexivity].
      * exact IH.
Qed.

Lemma dict_set_values {A : Type} (P : A -> Prop) (k : String.string) (v : A) (d : dict A) :
  P v -> (forall e, In e d -> P (snd e)) -> forall e, In e (dict_set k v d) -> P (snd e).
Proof.
  intros Hv. induction d as [| [k0 v0] d IH]; intros Hd e He; cbn [dict_set] in He.
  - destruct He as [<- | []]. exact Hv.
  - destruct (String.eqb k0 k).
    + destruct He as [<- | He]; [exact Hv | apply Hd; now right].
    + destruct He as [<- | He]; [apply (Hd (k0, v0)); now left |].
      apply IH; [intros; apply Hd; now right | exact He].
Qed.

(** *** The first pass *)

Lemma first_pass_ok (schools : list School.t) (cp : comp_params) (raw : dict school_params) :
  well_formed (gpaSpline cp) -> well_formed (mcatSpline cp) ->
  (forall s, In s schools -> valid_tier (school_tier s)) ->
  (forall e, In e raw -> in_range (snd e) /\ valid_tier (tier (snd e))) ->
  exists raw', first_pass schools cp raw = inr raw'
               /\ forall e, In e raw' -> in_range (snd e) /\ valid_tier (tier (snd e)).
Proof.
  intros Hg Hm. revert raw. induction schools as [| s schools IH]; intros raw Hs Hraw.
  - exists raw. split; [reflexivity | exact Hraw].
  - cbn [first_pass].
    destruct (calibrate_school_ok s cp [] Hg Hm (Hs s (or_introl eq_refl)))
      as (p & -> & Hp & Htier).
    cbn [bind]. apply IH; [intros; apply Hs; now right |].
    apply (dict_set_values (fun p => in_range p /\ valid_tier (tier p))); [| exact Hraw].
    split; [exact Hp |]. rewrite Htier. apply Hs. now left.
Qed.

Lemma valid_tier_dec (t : Z) : ((1 <=? t) && (t <=? 4))%Z = true <-> valid_tier t.
Proof. unfold valid_tier. lia. Qed.

Lemma first_pass_invalid (schools : list School.t) (cp : comp_params)
    (raw : dict school_params) :
  well_formed (gpaSpline cp) -> well_formed (mcatSpline cp) ->
  (exists s, In s schools /\ ~ valid_tier (school_tier s)) ->
  first_pass schools cp raw = inl KeyError.
Proof.
  intros Hg Hm. revert raw. induction schools as [| s schools IH]; intros raw (u & Hu & Hn).
  - destruct Hu.
  - cbn [first_pass].
    destruct (valid_tier_dec (school_tier s)) as [Hd1 Hd2].
    destruct ((1 <=? school_tier s) && (school_tier s <=? 4))%Z eqn:Hv.
    + destruct (calibrate_school_ok s cp [] Hg Hm (Hd1 eq_refl)) as (p & -> & _).
      cbn [bind]. apply IH. destruct Hu as [<- | Hu]; [| eauto].
      elim Hn. now apply Hd1.
    + rewrite calibrate_school_invalid; [reflexivity | assumption | assumption |].
      intros Hc. apply Hd2 in Hc. congruence.
Qed.

(** *** The tier statistics *)

Lemma append_at_four {A : Type} (t : Z) (v : A) (l1 l2 l3 l4 : list A) :
  append_at t v (four l1 l2 l3 l4)
  = if ((1 <=? t) && (t <=? 4))%Z
    then inr (four (l1 ++ at_tier 1 t [v]) (l2 ++ at_tier 2 t [v])
                   (l3 ++ at_tier 3 t [v]) (l4 ++ at_tier 4 t [v]))
    else inl KeyError.
Proof.
  unfold four, at_tier. cbn [append_at].
  destruct (Z.eqb_spec 1 t) as [<- | H1]; [cbn; now rewrite !app_nil_r |].
  destruct (Z.eqb_spec 2 t) as [<- | H2]; [cbn; now rewrite !app_nil_r |].
  destruct (Z.eqb_spec 3 t) as [<- | H3]; [cbn; now rewrite !app_nil_r |].
  destruct (Z.eqb_spec 4 t) as [<- | H4]; [cbn; now rewrite !app_nil_r |].
  cbn [bind raise].
  destruct (Z.leb_spec 1 t); [| reflexivity].
  destruct (Z.leb_spec t 4); [lia | reflexivity].
Qed.

Lemma of_tier_cons (t : Z) (k : String.string) (p : school_params)
    (params : dict school_params) :
  map pooled (of_tier t ((k, p) :: params))
  = at_tier t (tier p) [pooled p] ++ map pooled (of_tier t params).
Proof.
  unfold of_tier, at_tier. cbn [map snd filter].
  destruct (tier p =? t)%Z; reflexivity.
Qed.

Lemma group_by_tier_valid (params : dict school_params) (l1 l2 l3 l4 : list (R * R * R)) :
  (forall e, In e params -> valid_tier (tier (snd e))) ->
  group_by_tier params (four l1 l2 l3 l4)
  = inr (four (l1 ++ map pooled (of_tier 1 params)) (l2 ++ map pooled (of_tier 2 params))
              (l3 ++ map pooled (of_tier 3 params)) (l4 ++ map pooled (of_tier 4 params))).
Proof.
  revert l1 l2 l3 l4. induction params as [| [k p] params IH]; intros l1 l2 l3 l4 Hv.
  - cbn. now rewrite !app_nil_r.
  - cbn [group_by_tier]. fold (pooled p). rewrite append_at_four.
    rewrite (proj2 (valid_tier_dec (tier p))) by (apply (Hv (k, p)); now left).
    cbn [bind]. rewrite IH by (intros; apply Hv; now right).
    rewrite !of_tier_cons, <- !app_assoc. reflexivity.
Qed.

Lemma group_by_tier_invalid (params : dict school_params) (l1 l2 l3 l4 : list (R * R * R)) :
  (exists e, In e params /\ ~ valid_tier (tier (snd e))) ->
  group_by_tier params (four l1 l2 l3 l4) = inl KeyError.
Proof.
  revert l1 l2 l3 l4.
  induction params as [| [k p] params IH]; intros l1 l2 l3 l4 (e & He & Hn).
  - destruct He.
  - cbn [group_by_tier]. fold (pooled p). rewrite append_at_four.
    destruct ((1 <=? tier p) && (tier p <=? 4))%Z eqn:Hv; [| reflexivity].
    cbn [bind]. apply IH. destruct He as [<- | He].
    + apply valid_tier_dec in Hv. contradiction.
    + eauto.
Qed.

Lemma mean_ok (l : list R) : l <> [] -> Np.mean l = inr (mean_of l).
Proof. destruct l; [congruence | reflexivity]. Qed.

Lemma std_ok (l : list R) : l <> [] -> Np.std l = inr (sd_of l).
Proof.
  intros H. unfold Np.std. rewrite mean_ok by assumption. cbn [bind].
  rewrite mean_ok by (destruct l; [congruence | discriminate]). reflexivity.
Qed.

Lemma tier_statistics_valid (schools : list School.t) (params : dict school_params) :
  (forall e, In e params -> valid_tier (tier (snd e))) ->
  compute_tier_statistics schools params
  = inr (four (tier_summary 1 (map pooled (of_tier 1 params)))
              (tier_summary 2 (map pooled (of_tier 2 params)))
              (tier_summary 3 (map pooled (of_tier 3 params)))
              (tier_summary 4 (map pooled (of_tier 4 params)))).
Proof.
  intros Hv. unfold compute_tier_statistics.
  change [(1%Z, []); (2%Z, []); (3%Z, []); (4%Z, [])]
    with (four (@nil (R * R * R)) [] [] []).
  rewrite group_by_tier_valid by assumption. cbn [bind app].
  assert (forall t l, valid_tier t ->
            (if (0 <? length l)%nat
             then
               int_mean <- Np.mean (map (fun p : R * R * R => fst (fst p)) l) ;;
               int_sd <- Np.std (map (fun p : R * R * R => fst (fst p)) l) ;;
               acc_mean <- Np.mean (map (fun p : R * R * R => snd (fst p)) l) ;;
               acc_sd <- Np.std (map (fun p : R * R * R => snd (fst p)) l) ;;
               slope_mean <- Np.mean (map (fun p : R * R * R => snd p) l) ;;
               slope_sd <- Np.std (map (fun p : R * R * R => snd p) l) ;;
               ret (t, mk_tier_stat (length l) int_mean int_sd acc_mean acc_sd
                         slope_mean slope_sd)
             else
               slope_default <- DEFAULT_SLOPES_INTERVIEW t ;;
               ret (t, mk_tier_stat 0 (- 2.0) 0.5 (- 0.5) 0.3 slope_default 0.2))
            = inr (t, tier_summary t l)) as Hentry.
  { intros t l Ht. destruct l as [| a l].
    - cbn [length Nat.ltb Nat.leb tier_summary]. unfold DEFAULT_SLOPES_INTERVIEW.
      unfold valid_tier in Ht.
      destruct (Z.eqb_spec t 1); [reflexivity |]. destruct (Z.eqb_spec t 2); [reflexivity |].
      destruct (Z.eqb_spec t 3); [reflexivity |]. destruct (Z.eqb_spec t 4); [reflexivity | lia].
    - change (0 <? length (a :: l))%nat with true. cbv iota.
      rewrite !mean_ok, !std_ok by discriminate. reflexivity. }
  unfold four. cbn [mapM].
  rewrite !Hentry by (unfold valid_tier; lia). reflexivity.
Qed.

Lemma tier_statistics_invalid (schools : list School.t) (params : dict school_params) :
  (exists e, In e params /\ ~ valid_tier (tier (snd e))) ->
  compute_tier_statistics schools params = inl KeyError.
Proof.
  intros H. unfold compute_tier_statistics.
  change [(1%Z, []); (2%Z, []); (3%Z, []); (4%Z, [])]
    with (four (@nil (R * R * R)) [] [] []).
  now rewrite group_by_tier_invalid.
Qed.

Lemma tier_statistics_inv (schools : list School.t) (params : dict school_params) ts :
  compute_tier_statistics schools params = inr ts ->
  forall e, In e params -> valid_tier (tier (snd e)).
Proof.
  intros H e He.
  destruct ((1 <=? tier (snd e)) && (tier (snd e) <=? 4))%Z eqn:Hv.
  - now apply valid_tier_dec.
  - exfalso. rewrite tier_statistics_invalid in H; [discriminate |].
    exists e. split; [assumption |]. intros Hc. apply valid_tier_dec in Hc. congruence.
Qed.

Lemma of_tier_partition (params : dict school_params) :
  (forall e, In e params -> valid_tier (tier (snd e))) ->
  (length (of_tier 1 params) + length (of_tier 2 params)
   + length (of_tier 3 params) + length (of_tier 4 params))%nat = length params.
Proof.
  induction params as [| [k p] params IH]; intros Hv; [reflexivity |].
  specialize (IH (fun e He => Hv e (or_intror He))).
  pose proof (Hv (k, p) (or_introl eq_refl)) as Hp. cbn [snd] in Hp. unfold valid_tier in Hp.
  unfold of_tier in *. cbn [map snd filter length].
  assert (tier p = 1 \/ tier p = 2 \/ tier p = 3 \/ tier p = 4)%Z as [E | [E | [E | E]]] by lia;
    rewrite E; cbn [Z.eqb Pos.eqb length]; lia.
Qed.

Lemma tier_summary_count (t : Z) (l : list (R * R * R)) :
  count (tier_summary t l) = length l.
Proof. destruct l; reflexivity. Qed.

(** X15.  When every parameter set has a tier from 1 to 4,
    [compute_tier_statistics] returns the four entries of the tiers 1, 2, 3
    and 4 in this order; the count of each entry is the number of parameter
    sets of its tier, and the four counts add up to the number of parameter
    sets.  A parameter set of any other tier makes it raise [KeyError]. *)
Theorem tier_statistics_counts (schools : list School.t) (params : dict school_params) :
  ((forall e, In e params -> valid_tier (tier (snd e))) ->
   exists s1 s2 s3 s4 : tier_stat,
     compute_tier_statistics schools params
     = inr [(1%Z, s1); (2%Z, s2); (3%Z, s3); (4%Z, s4)]
     /\ count s1 = length (of_tier 1 params) /\ count s2 = length (of_tier 2 params)
     /\ count s3 = length (of_tier 3 params) /\ count s4 = length (of_tier 4 params)
     /\ (count s1 + count s2 + count s3 + count s4)%nat = length params)
  /\ ((exists e, In e params /\ ~ valid_tier (tier (snd e))) ->
      compute_tier_statistics schools params = inl KeyError).
Proof.
  split; [| apply tier_statistics_invalid].
  intros Hv. eexists _, _, _, _. split; [now apply tier_statistics_valid |].
  rewrite !tier_summary_count, !length_map.
  repeat split; try reflexivity. now apply of_tier_partition.
Qed.

(** *** The shrinkage *)

Lemma apply_shrinkage_ok (params : dict school_params) (ts : list (Z * tier_stat))
    (f : R) (fb : tier_stat) :
  tier_get 3%Z ts = Some fb ->
  apply_shrinkage params ts f
  = inr (map (fun e => (fst e, shrink f (stats_for ts fb (tier (snd e))) (snd e))) params).
Proof.
  intros H3. unfold apply_shrinkage.
  apply mapM_const_inr. intros [k p] _. rewrite H3. reflexivity.
Qed.

Lemma of_tier_shrunk (params : dict school_params) (ts : list (Z * tier_stat)) (f : R)
    (fb : tier_stat) (t : Z) :
  of_tier t (map (fun e => (fst e, shrink f (stats_for ts fb (tier (snd e))) (snd e))) params)
  = map (shrink f (stats_for ts fb t)) (of_tier t params).
Proof.
  unfold of_tier. induction params as [| [k p] params IH]; [reflexivity |].
  cbn [map snd fst filter]. cbn [shrink tier].
  destruct (Z.eqb_spec (tier p) t) as [<- | Hne]; cbn [map]; now rewrite IH.
Qed.

Lemma sum_affine (a b : R) (l : list R) :
  Np.sum (map (fun x => a * x + b) l) = a * Np.sum l + INR (length l) * b.
Proof.
  induction l as [| x l IH]; [simpl; lra |].
  cbn [map Np.sum fold_right length]. fold (Np.sum (map (fun x => a * x + b) l)).
  fold (Np.sum l). rewrite IH, S_INR. lra.
Qed.

Lemma mean_affine (a b : R) (l : list R) :
  l <> [] -> mean_of (map (fun x => a * x + b) l) = a * mean_of l + b.
Proof.
  intros H. unfold mean_of. rewrite sum_affine, length_map.
  assert (0 < INR (length l)) by (apply lt_0_INR; destruct l; [congruence | simpl; lia]).
  field. lra.
Qed.

Lemma sd_affine (a b : R) (l : list R) :
  l <> [] -> sd_of (map (fun x => a * x + b) l) = Rabs a * sd_of l.
Proof.
  intros H. unfold sd_of. rewrite mean_affine by assumption. rewrite map_map.
  rewrite (map_ext _ (fun x => a ^ 2 * ((x - mean_of l) ^ 2) + 0)) by (intros; ring).
  rewrite <- (map_map (fun x => (x - mean_of l) ^ 2) (fun z => a ^ 2 * z + 0)).
  rewrite mean_affine by (destruct l; [congruence | discriminate]).
  rewrite Rplus_0_r, sqrt_mult_alt by apply pow2_ge_0.
  f_equal. replace (a ^ 2) with (Rsqr a) by (unfold Rsqr; ring). apply sqrt_Rsqr_abs.
Qed.

(** The three pooled values of the shrunk schools of a tier. *)
Lemma pooled_shrunk (f : R) (st : tier_stat) (l : list school_params) :
  map (fun p => fst (fst p)) (map pooled (map (shrink f st) l))
  = map (fun x => (1 - f) * x + f * interceptInterview_mean st)
        (map (fun p => fst (fst p)) (map pooled l))
  /\ map (fun p => snd (fst p)) (map pooled (map (shrink f st) l))
     = map (fun x => (1 - f) * x + f * interceptAccept_mean st)
           (map (fun p => snd (fst p)) (map pooled l))
  /\ map (fun p => snd p) (map pooled (map (shrink f st) l))
     = map (fun x => (1 - f) * x + f * slopeC_mean st)
           (map (fun p => snd p) (map pooled l)).
Proof. rewrite !map_map. repeat split; apply map_ext; reflexivity. Qed.

Lemma summary_shrunk (t : Z) (f : R) (l : list school_params) :
  let st := tier_summary t (map pooled l) in
  let st' := tier_summary t (map pooled (map (shrink f st) l)) in
  count st' = count st
  /\ interceptInterview_mean st' = interceptInterview_mean st
  /\ interceptAccept_mean st' = interceptAccept_mean st
  /\ slopeC_mean st' = slopeC_mean st
  /\ ((0 < count st)%nat ->
      interceptInterview_sd st' = Rabs (1 - f) * interceptInterview_sd st
      /\ interceptAccept_sd st' = Rabs (1 - f) * interceptAccept_sd st
      /\ slopeC_sd st' = Rabs (1 - f) * slopeC_sd st).
Proof.
  intros st st'. destruct l as [| p l].
  - cbn. do 4 (split; [reflexivity |]). intros H. lia.
  - assert (forall g : R * R * R -> R, map g (map pooled (p :: l)) <> []) as Hne
      by (intros g; discriminate).
    set (L := p :: l) in *.
    assert (st = mk_tier_stat (length (map pooled L))
                   (mean_of (map (fun p => fst (fst p)) (map pooled L)))
                   (sd_of (map (fun p => fst (fst p)) (map pooled L)))
                   (mean_of (map (fun p => snd (fst p)) (map pooled L)))
                   (sd_of (map (fun p => snd (fst p)) (map pooled L)))
                   (mean_of (map (fun p => snd p) (map pooled L)))
                   (sd_of (map (fun p => snd p) (map pooled L)))) as Est by reflexivity.
    assert (st' = mk_tier_stat (length (map pooled (map (shrink f st) L)))
                   (mean_of (map (fun p => fst (fst p)) (map pooled (map (shrink f st) L))))
                   (sd_of (map (fun p => fst (fst p)) (map pooled (map (shrink f st) L))))
                   (mean_of (map (fun p => snd (fst p)) (map pooled (map (shrink f st) L))))
                   (sd_of (map (fun p => snd (fst p)) (map pooled (map (shrink f st) L))))
                   (mean_of (map (fun p => snd p) (map pooled (map (shrink f st) L))))
                   (sd_of (map (fun p => snd p) (map pooled (map (shrink f st) L))))) as Est'
      by reflexivity.
    destruct (pooled_shrunk f st L) as (E1 & E2 & E3).
    rewrite E1, E2, E3 in Est'. clear E1 E2 E3.
    rewrite !mean_affine, !sd_affine in Est' by apply Hne.
    rewrite Est'. cbn [count interceptInterview_mean interceptAccept_mean slopeC_mean
                        interceptInterview_sd interceptAccept_sd slopeC_sd].
    rewrite !length_map.
    replace (mean_of (map (fun p => fst (fst p)) (map pooled L)))
      with (interceptInterview_mean st) by (rewrite Est; reflexivity).
    replace (mean_of (map (fun p => snd (fst p)) (map pooled L)))
      with (interceptAccept_mean st) by (rewrite Est; reflexivity).
    replace (mean_of (map (fun p => snd p) (map pooled L)))
      with (slopeC_mean st) by (rewrite Est; reflexivity).
    replace (sd_of (map (fun p => fst (fst p)) (map pooled L)))
      with (interceptInterview_sd st) by (rewrite Est; reflexivity).
    replace (sd_of (map (fun p => snd (fst p)) (map pooled L)))
      with (interceptAccept_sd st) by (rewrite Est; reflexivity).
    replace (sd_of (map (fun p => snd p) (map pooled L)))
      with (slopeC_sd st) by (rewrite Est; reflexivity).
    split; [rewrite Est; cbn [count]; now rewrite length_map |].
    repeat split; lra.
Qed.

Lemma tier_get_four {A : Type} (t : Z) (a1 a2 a3 a4 v : A) :
  tier_get t (four a1 a2 a3 a4) = Some v ->
  (t = 1%Z /\ v = a1) \/ (t = 2%Z /\ v = a2) \/ (t = 3%Z /\ v = a3) \/ (t = 4%Z /\ v = a4).
Proof.
  unfold four. cbn [tier_get].
  destruct (Z.eqb_spec 1 t); [intros [= <-]; auto |].
  destruct (Z.eqb_spec 2 t); [intros [= <-]; auto |].
  destruct (Z.eqb_spec 3 t); [intros [= <-]; auto 6 |].
  destruct (Z.eqb_spec 4 t); [intros [= <-]; auto 6 | discriminate].
Qed.

(** X16.  Shrinking the parameter sets toward the statistics computed from
    them leaves these statistics in place: the tier statistics of the
    adjusted sets have, tier by tier, the same count and the same three
    means, and the three standard deviations of a tier that has schools
    are multiplied by [|1 - shrinkage_factor|]. *)
Theorem shrinkage_keeps_tier_means (schools : list School.t)
    (params adjusted : dict school_params) (ts : list (Z * tier_stat)) (f : R) :
  compute_tier_statistics schools params = inr ts ->
  apply_shrinkage params ts f = inr adjusted ->
  exists ts' : list (Z * tier_stat),
    compute_tier_statistics schools adjusted = inr ts'
    /\ forall (t : Z) (st : tier_stat), tier_get t ts = Some st ->
         exists st' : tier_stat,
           tier_get t ts' = Some st'
           /\ count st' = count st
           /\ interceptInterview_mean st' = interceptInterview_mean st
           /\ interceptAccept_mean st' = interceptAccept_mean st
           /\ slopeC_mean st' = slopeC_mean st
           /\ ((0 < count st)%nat ->
               interceptInterview_sd st' = Rabs (1 - f) * interceptInterview_sd st
               /\ interceptAccept_sd st' = Rabs (1 - f) * interceptAccept_sd st
               /\ slopeC_sd st' = Rabs (1 - f) * slopeC_sd st).
Proof.
  intros Hts Hadj.
  pose proof (tier_statistics_inv _ _ _ Hts) as Hv.
  rewrite tier_statistics_valid in Hts by assumption. injection Hts as <-.
  set (S1 := tier_summary 1 (map pooled (of_tier 1 params))) in *.
  set (S2 := tier_summary 2 (map pooled (of_tier 2 params))) in *.
  set (S3 := tier_summary 3 (map pooled (of_tier 3 params))) in *.
  set (S4 := tier_summary 4 (map pooled (of_tier 4 params))) in *.
  rewrite (apply_shrinkage_ok _ _ _ S3) in Hadj by reflexivity. injection Hadj as <-.
  eexists. split.
  - apply tier_statistics_valid. intros e He. apply in_map_iff in He.
    destruct He as (e0 & <- & He0). cbn [snd shrink tier]. now apply Hv.
  - intros t st Hst. rewrite !of_tier_shrunk.
    apply tier_get_four in Hst.
    destruct Hst as [[-> ->] | [[-> ->] | [[-> ->] | [-> ->]]]];
      eexists; (split; [reflexivity |]).
    + apply (summary_shrunk 1 f (of_tier 1 params)).
    + apply (summary_shrunk 2 f (of_tier 2 params)).
    + apply (summary_shrunk 3 f (of_tier 3 params)).
    + apply (summary_shrunk 4 f (of_tier 4 params)).
Qed.

(** *** The ranges after the shrinkage *)

Lemma logit_min_low : logit_min <= - 2.0.
Proof.
  unfold logit_min. rewrite <- (ln_exp (- 2.0)). apply ln_le; [lra |].
  replace (- 2.0) with (- (1 + 1)) by lra. rewrite exp_Ropp, exp_plus.
  pose proof exp_le_3 as H3. pose proof (exp_pos 1) as Hp.
  assert (exp 1 * exp 1 <= 9) by nra.
  assert (0 < exp 1 * exp 1) by nra.
  apply (Rmult_le_reg_r (exp 1 * exp 1)); [assumption |].
  rewrite Rinv_l by lra. lra.
Qed.

Lemma logit_max_high : 0 <= logit_max.
Proof.
  unfold logit_max. rewrite <- ln_1. apply ln_le; lra.
Qed.

Lemma sum_bounds (lo hi : R) (l : list R) :
  (forall v, In v l -> lo <= v <= hi) ->
  INR (length l) * lo <= Np.sum l <= INR (length l) * hi.
Proof.
  induction l as [| a l IH]; intros H.
  - simpl. lra.
  - cbn [length Np.sum fold_right]. fold (Np.sum l). rewrite S_INR.
    pose proof (H a (or_introl eq_refl)).
    specialize (IH (fun v Hv => H v (or_intror Hv))). lra.
Qed.

Lemma mean_bounds (lo hi : R) (l : list R) :
  l <> [] -> (forall v, In v l -> lo <= v <= hi) -> lo <= mean_of l <= hi.
Proof.
  intros Hne H. unfold mean_of.
  assert (0 < INR (length l)) as Hn
    by (apply lt_0_INR; destruct l; [congruence | simpl; lia]).
  pose proof (sum_bounds lo hi l H) as [H1 H2].
  split.
  - apply (Rmult_le_reg_r (INR (length l))); [assumption |].
    unfold Rdiv. rewrite Rmult_assoc, Rinv_l by lra. lra.
  - apply (Rmult_le_reg_r (INR (length l))); [assumption |].
    unfold Rdiv. rewrite Rmult_assoc, Rinv_l by lra. lra.
Qed.

Lemma summary_in_range (t : Z) (l : list school_params) :
  (forall p, In p l -> in_range p) -> stat_in_range (tier_summary t (map pooled l)).
Proof.
  intros H. destruct l as [| p l].
  - unfold stat_in_range. cbn.
    pose proof logit_min_low. pose proof logit_max_high.
    repeat split; try lra;
      destruct (t =? 1)%Z; try lra; destruct (t =? 2)%Z; try lra; destruct (t =? 3)%Z; lra.
  - set (L := p :: l) in *. unfold stat_in_range.
    change (tier_summary t (map pooled L))
      with (mk_tier_stat (length (map pooled L))
              (mean_of (map (fun p => fst (fst p)) (map pooled L)))
              (sd_of (map (fun p => fst (fst p)) (map pooled L)))
              (mean_of (map (fun p => snd (fst p)) (map pooled L)))
              (sd_of (map (fun p => snd (fst p)) (map pooled L)))
              (mean_of (map (fun p => snd p) (map pooled L)))
              (sd_of (map (fun p => snd p) (map pooled L)))).
    cbn [interceptInterview_mean interceptAccept_mean slopeC_mean].
    rewrite !map_map.
    split; [| split]; apply mean_bounds; try discriminate;
      intros v Hv; apply in_map_iff in Hv; destruct Hv as (q & <- & Hq);
      destruct (H q Hq) as (H1 & H2 & H3 & _); cbn; lra.
Qed.

Lemma shrink_in_range (f : R) (st : tier_stat) (p : school_params) :
  0 <= f <= 1 -> in_range p -> stat_in_range st -> in_range (shrink f st p).
Proof.
  intros Hf (H1 & H2 & H3 & H4 & H5 & H6) (S1 & S2 & S3).
  unfold in_range. cbn. repeat split; try assumption; try lra; nra.
Qed.

(** *** The lookup table of the validation *)

Lemma school_lookup_ok (schools : list School.t) (d : dict School.t) :
  (forall s, In s schools -> School.id s <> None) ->
  exists d', school_lookup schools d = inr d'
             /\ forall k, dict_get k d' <> None <-> (dict_get k d <> None \/ listed schools k).
Proof.
  revert d. induction schools as [| s schools IH]; intros d Hs.
  - exists d. split; [reflexivity |]. intros k. split; [auto |].
    intros [H | (s & [] & _)]. exact H.
  - cbn [school_lookup].
    destruct (School.id s) as [i |] eqn:Ei;
      [| exfalso; apply (Hs s (or_introl eq_refl)); exact Ei].
    destruct (IH (dict_set i s d) (fun u Hu => Hs u (or_intror Hu))) as (d' & -> & Hk).
    exists d'. split; [reflexivity |]. intros k. rewrite Hk, dict_get_set.
    destruct (String.eqb_spec i k) as [-> | Hne].
    + split; [intros _ | intros _; left; discriminate].
      right. exists s. split; [now left | exact Ei].
    + split.
      * intros [H | (u & Hu & Eu)]; [now left |]. right. exists u. split; [now right | exact Eu].
      * intros [H | (u & [<- | Hu] & Eu)]; [now left | congruence |].
        right. exists u. split; assumption.
Qed.

Lemma school_lookup_missing (schools : list School.t) (d : dict School.t) :
  (exists s, In s schools /\ School.id s = None) -> school_lookup schools d = inl KeyError.
Proof.
  revert d. induction schools as [| s schools IH]; intros d (u & Hu & Eu).
  - destruct Hu.
  - cbn [school_lookup]. destruct (School.id s) as [i |] eqn:Ei; [| reflexivity].
    apply IH. destruct Hu as [<- | Hu]; [congruence | eauto].
Qed.

Lemma school_lookup_inv (schools : list School.t) (d d' : dict School.t) :
  school_lookup schools d = inr d' -> forall s, In s schools -> School.id s <> None.
Proof.
  revert d. induction schools as [| s schools IH]; intros d H u Hu; [destruct Hu |].
  cbn [school_lookup] in H. destruct (School.id s) as [i |] eqn:Ei; [| discriminate].
  destruct Hu as [<- | Hu]; [congruence | eapply IH; eassumption].
Qed.

(** *** The checks of the validation *)

Lemma check_parameters_errors (lookup : dict School.t) (params : dict school_params)
    (errs warns : list String.string) :
  fst (check_parameters lookup params errs warns)
  = errs ++ map (fun e => String.append (fst e) ": negative or zero slope on C"%string)
                (filter (offending lookup) params).
Proof.
  revert errs warns. induction params as [| [k p] params IH]; intros errs warns.
  - cbn. now rewrite app_nil_r.
  - cbn [check_parameters filter fst].
    assert (offending lookup (k, p)
            = match dict_get k lookup with
              | Some _ => if Rle_dec (slopeC_interview p) 0 then true else false
              | None => false
              end) as -> by reflexivity.
    destruct (dict_get k lookup) as [s |].
    + rewrite IH. destruct (Rle_dec (slopeC_interview p) 0); [| reflexivity].
      cbn [map fst]. now rewrite <- app_assoc.
    + apply IH.
Qed.

Lemma check_parameters_unmatched (lookup : dict School.t) (params : dict school_params)
    (errs warns : list String.string) :
  (forall e, In e params -> dict_get (fst e) lookup = None) ->
  check_parameters lookup params errs warns = (errs, warns).
Proof.
  induction params as [| [k p] params IH]; intros H; [reflexivity |].
  cbn [check_parameters].
  pose proof (H (k, p) (or_introl eq_refl)) as Hk. cbn [fst] in Hk. rewrite Hk.
  apply IH. intros; apply H; now right.
Qed.

Lemma interview_rates_unmatched (lookup : dict School.t) (params : dict school_params)
    (pred obs : list R) :
  (forall e, In e params -> dict_get (fst e) lookup = None) ->
  interview_rates lookup params pred obs = (pred, obs).
Proof.
  induction params as [| [k p] params IH]; intros H; [reflexivity |].
  cbn [interview_rates].
  pose proof (H (k, p) (or_introl eq_refl)) as Hk. cbn [fst] in Hk. rewrite Hk.
  apply IH. intros; apply H; now right.
Qed.

Lemma validate_inv (params : dict school_params) (schools : list School.t) (v : validation) :
  validate_parameters params schools = inr v ->
  exists lookup, school_lookup schools [] = inr lookup
    /\ errors v = fst (check_parameters lookup params [] [])
    /\ n_schools v = length params.
Proof.
  unfold validate_parameters. intros H. bind_inv H. exists v0. split; [exact E |].
  destruct (check_parameters v0 params [] []) as [errs warns].
  destruct (interview_rates v0 params [] []) as [pred obs].
  injection H as <-. split; reflexivity.
Qed.

Lemma validate_ok (params : dict school_params) (schools : list School.t) :
  (forall s, In s schools -> School.id s <> None) ->
  exists v, validate_parameters params schools = inr v.
Proof.
  intros Hid. unfold validate_parameters.
  destruct (school_lookup_ok schools [] Hid) as (lookup & -> & _). cbn [bind].
  destruct (check_parameters lookup params [] []) as [errs warns].
  destruct (interview_rates lookup params [] []) as [pred obs].
  eexists. reflexivity.
Qed.

(** X17.  Whenever [validate_parameters] returns, its error list is empty
    exactly when every parameter set whose id is the id of a school of the
    list has a positive interview slope (parameter sets of unlisted ids are
    not checked), and [n_schools] is the number of parameter sets. *)
Theorem validate_errors (params : dict school_params) (schools : list School.t)
    (v : validation) :
  validate_parameters params schools = inr v ->
  (errors v = [] <->
   forall (school_id : String.string) (p : school_params),
     In (school_id, p) params -> listed schools school_id -> 0 < slopeC_interview p)
  /\ n_schools v = length params.
Proof.
  intros H. destruct (validate_inv _ _ _ H) as (lookup & El & -> & Hn).
  split; [| exact Hn].
  destruct (school_lookup_ok schools [] (school_lookup_inv _ _ _ El)) as (d' & El' & Hk).
  rewrite El in El'. injection El' as <-.
  rewrite check_parameters_errors. cbn [app]. split.
  - intros Hnil k p Hin Hl.
    destruct (Rlt_dec 0 (slopeC_interview p)) as [| Hn0]; [assumption | exfalso].
    assert (In (k, p) (filter (offending lookup) params)) as Hf.
    { apply filter_In. split; [assumption |]. unfold offending. cbn [fst snd].
      destruct (dict_get k lookup) eqn:Eg.
      - destruct (Rle_dec (slopeC_interview p) 0); [reflexivity | lra].
      - exfalso. apply (proj2 (Hk k)); [now right | exact Eg]. }
    destruct (filter (offending lookup) params); [destruct Hf | discriminate].
  - intros Hall.
    destruct (filter (offending lookup) params) as [| [k p] rest] eqn:Ef; [reflexivity |].
    exfalso.
    assert (In (k, p) (filter (offending lookup) params)) as Hf by (rewrite Ef; now left).
    apply filter_In in Hf. destruct Hf as [Hin Hoff].
    unfold offending in Hoff. cbn [fst snd] in Hoff.
    destruct (dict_get k lookup) eqn:Eg; [| discriminate].
    destruct (Rle_dec (slopeC_interview p) 0) as [Hle |]; [| discriminate].
    assert (listed schools k) as Hl.
    { destruct (proj1 (Hk k)) as [Hc | Hl]; [congruence | now elim Hc | exact Hl]. }
    specialize (Hall k p Hin Hl). lra.
Qed.

(** X18.  When every school has an id and no parameter set has the id of
    a school of the list, [validate_parameters] checks nothing: it returns
    no error and no warning, whatever the parameters are, with the
    correlation 0 and the mean absolute error 1. *)
Theorem validate_unmatched (params : dict school_params) (schools : list School.t) :
  (forall s, In s schools -> School.id s <> None) ->
  (forall e, In e params -> ~ listed schools (fst e)) ->
  validate_parameters params schools
  = inr (mk_validation [] [] (length params) (inr 0) (inr 1)).
Proof.
  intros Hid Hun. unfold validate_parameters.
  destruct (school_lookup_ok schools [] Hid) as (lookup & -> & Hk). cbn [bind].
  assert (forall e, In e params -> dict_get (fst e) lookup = None) as Hnone.
  { intros e He. destruct (dict_get (fst e) lookup) eqn:Eg; [| reflexivity].
    exfalso. destruct (proj1 (Hk (fst e))) as [Hc | Hl]; [congruence | now elim Hc |].
    exact (Hun e He Hl). }
  rewrite check_parameters_unmatched, interview_rates_unmatched by assumption.
  reflexivity.
Qed.

(** *** The whole calibration *)

Lemma pipeline_ok (schools : list School.t) (cp : comp_params) :
  well_formed (gpaSpline cp) -> well_formed (mcatSpline cp) ->
  (forall s, In s schools -> valid_tier (school_tier s)) ->
  exists raw ts final,
    first_pass schools cp [] = inr raw
    /\ compute_tier_statistics schools raw = inr ts
    /\ apply_shrinkage raw ts 0.3 = inr final
    /\ forall e, In e final -> in_range (snd e).
Proof.
  intros Hg Hm Hs.
  destruct (first_pass_ok schools cp [] Hg Hm Hs) as (raw & Eraw & Hraw);
    [intros e [] |].
  exists raw. eexists _, _. split; [exact Eraw |].
  split; [apply tier_statistics_valid; intros e He; now apply Hraw |].
  split; [apply apply_shrinkage_ok; reflexivity |].
  intros e He. apply in_map_iff in He. destruct He as (e0 & <- & He0). cbn [snd].
  apply shrink_in_range; [lra | now apply Hraw |].
  assert (forall t, stat_in_range (tier_summary t (map pooled (of_tier t raw)))) as Hst.
  { intros t. apply summary_in_range. intros p Hp. unfold of_tier in Hp.
    apply filter_In in Hp. destruct Hp as [Hp _]. apply in_map_iff in Hp.
    destruct Hp as (e1 & <- & He1). now apply Hraw. }
  unfold stats_for.
  destruct (tier_get (tier (snd e0)) _) as [st |] eqn:Et; cbn [get_or]; [| apply Hst].
  apply tier_get_four in Et.
  destruct Et as [[_ ->] | [[_ ->] | [[_ ->] | [_ ->]]]]; apply Hst.
Qed.

(** X19.  With two curves that can be evaluated and schools that all have
    an id and a tier from 1 to 4, the calibration of [main] returns; every
    final parameter set has its two intercepts between the log-odds of
    0.01 and of 0.99, an interview slope in [[0.3, 2.0]], an acceptance
    slope that is half of it, an interview bonus in [[0.1, 2.0]] and an
    acceptance bonus that is 0.3 times it; and the validation reports no
    error. *)
Theorem main_calibrates (schools : list School.t) (cp : comp_params) :
  well_formed (gpaSpline cp) -> well_formed (mcatSpline cp) ->
  (forall s, In s schools -> valid_tier (school_tier s) /\ School.id s <> None) ->
  exists final ts v,
    main schools cp = inr (final, ts, v)
    /\ (forall e, In e final -> in_range (snd e))
    /\ errors v = [].
Proof.
  intros Hg Hm Hs.
  destruct (pipeline_ok schools cp Hg Hm (fun s H => proj1 (Hs s H)))
    as (raw & ts & final & Eraw & Ets & Efinal & Hrange).
  destruct (school_lookup_ok schools [] (fun s H => proj2 (Hs s H))) as (lookup & El & _).
  unfold main. rewrite Eraw. cbn [bind]. rewrite Ets. cbn [bind]. rewrite Efinal. cbn [bind].
  unfold validate_parameters. rewrite El. cbn [bind].
  pose proof (check_parameters_errors lookup final [] []) as Herr.
  destruct (check_parameters lookup final [] []) as [errs warns].
  destruct (interview_rates lookup final [] []) as [pred obs].
  cbn [bind]. eexists _, _, _. split; [reflexivity |]. split; [exact Hrange |].
  cbn [errors]. cbn [fst app] in Herr. rewrite Herr.
  assert (filter (offending lookup) final = []) as ->; [| reflexivity].
  destruct (filter (offending lookup) final) as [| e rest] eqn:Ef; [reflexivity | exfalso].
  assert (In e (filter (offending lookup) final)) as Hf by (rewrite Ef; now left).
  apply filter_In in Hf. destruct Hf as [Hin Hoff].
  destruct (Hrange e Hin) as (_ & _ & H3 & _).
  unfold offending in Hoff. destruct (dict_get (fst e) lookup); [| discriminate].
  destruct (Rle_dec (slopeC_interview (snd e)) 0); [lra | discriminate].
Qed.

(** X20.  With two curves that can be evaluated, the calibration of [main]
    raises [KeyError] as soon as one school has a tier outside 1 to 4 (in
    the first pass) or no id: a school without id is calibrated under the
    id "unknown" and then makes the validation fail on its lookup table. *)
Theorem main_key_error (schools : list School.t) (cp : comp_params) :
  well_formed (gpaSpline cp) -> well_formed (mcatSpline cp) ->
  (exists s, In s schools /\ (~ valid_tier (school_tier s) \/ School.id s = None)) ->
  main schools cp = inl KeyError.
Proof.
  intros Hg Hm (u & Hu & Hbad). unfold main.
  destruct (forallb (fun s => ((1 <=? school_tier s) && (school_tier s <=? 4))%Z) schools)
    eqn:Hall.
  - assert (forall s, In s schools -> valid_tier (school_tier s)) as Hs.
    { intros s Hin. apply valid_tier_dec. rewrite forallb_forall in Hall. now apply Hall. }
    destruct (pipeline_ok schools cp Hg Hm Hs) as (raw & ts & final & -> & Ets & Efinal & _).
    cbn [bind]. rewrite Ets. cbn [bind]. rewrite Efinal. cbn [bind].
    unfold validate_parameters. rewrite school_lookup_missing; [reflexivity |].
    exists u. split; [assumption |]. destruct Hbad as [Hn | Hid]; [| exact Hid].
    elim Hn. now apply Hs.
  - rewrite first_pass_invalid; [reflexivity | assumption | assumption |].
    assert (exists s, In s schools
              /\ ((1 <=? school_tier s) && (school_tier s <=? 4))%Z = false) as (s & Hin & Hf).
    { clear - Hall. induction schools as [| s schools IH]; [discriminate |].
      cbn [forallb] in Hall. apply andb_false_iff in Hall. destruct Hall as [H | H].
      - exists s. split; [now left | exact H].
      - destruct (IH H) as (s' & Hin & Hf). exists s'. split; [now right | exact Hf]. }
    exists s. split; [assumption |]. intros Hc. apply valid_tier_dec in Hc. congruence.
Qed.

End SchoolCalibration.

(** *** The examples *)

Lemma example_params_valid :
  forall e, In e example_params -> valid_tier (calibrate_schools.tier (snd e)).
Proof.
  intros e [<- | [<- | [<- | []]]]; unfold valid_tier; cbn; lia.
Qed.

Lemma example_schools_have_ids :
  forall s, In s example_schools -> School.id s <> None.
Proof. intros s [<- | [<- | [<- | []]]]; discriminate. Qed.

Lemma example_schools_valid :
  forall s, In s example_schools ->
    valid_tier (school_tier s) /\ School.id s <> None.
Proof.
  intros s [<- | [<- | [<- | []]]]; (split; [unfold valid_tier; cbn; lia | discriminate]).
Qed.

Lemma tier_statistics_counts_witness :
  (forall e, In e example_params -> valid_tier (calibrate_schools.tier (snd e)))
  /\ exists s1 s2 s3 s4 : calibrate_schools.tier_stat,
       calibrate_schools.compute_tier_statistics example_schools example_params
       = inr [(1%Z, s1); (2%Z, s2); (3%Z, s3); (4%Z, s4)]
       /\ (calibrate_schools.count s1 + calibrate_schools.count s2
           + calibrate_schools.count s3 + calibrate_schools.count s4)%nat = 3%nat.
Proof.
  split; [exact example_params_valid |].
  destruct (proj1 (tier_statistics_counts example_schools example_params)
              example_params_valid)
    as (s1 & s2 & s3 & s4 & E & _ & _ & _ & _ & Hsum).
  exists s1, s2, s3, s4. split; [exact E | exact Hsum].
Defined.

Lemma shrinkage_keeps_tier_means_witness :
  exists (ts ts' : list (Z * calibrate_schools.tier_stat))
         (adjusted : calibrate_schools.dict calibrate_schools.school_params),
    calibrate_schools.compute_tier_statistics example_schools example_params = inr ts
    /\ calibrate_schools.apply_shrinkage example_params ts 0.3 = inr adjusted
    /\ calibrate_schools.compute_tier_statistics example_schools adjusted = inr ts'
    /\ forall (t : Z) (st : calibrate_schools.tier_stat),
         calibrate_schools.tier_get t ts = Some st ->
         exists st' : calibrate_schools.tier_stat,
           calibrate_schools.tier_get t ts' = Some st'
           /\ calibrate_schools.count st' = calibrate_schools.count st
           /\ calibrate_schools.slopeC_mean st' = calibrate_schools.slopeC_mean st.
Proof.
  pose proof (tier_statistics_valid example_schools example_params example_params_valid)
    as Ets.
  set (ts := four _ _ _ _) in Ets.
  pose proof (apply_shrinkage_ok example_params ts 0.3 _ eq_refl) as Eadj.
  set (adjusted := map _ example_params) in Eadj.
  destruct (shrinkage_keeps_tier_means example_schools example_params adjusted ts 0.3
              Ets Eadj) as (ts' & Ets' & H).
  exists ts, ts', adjusted.
  split; [exact Ets |]. split; [exact Eadj |]. split; [exact Ets' |].
  intros t st Hst. destruct (H t st Hst) as (st' & Hg & Hc & _ & _ & Hm & _).
  exists st'. repeat split; assumption.
Defined.

Lemma validate_errors_witness :
  exists v : calibrate_schools.validation,
    calibrate_schools.validate_parameters example_params example_schools = inr v
    /\ calibrate_schools.n_schools v = 3%nat.
Proof.
  destruct (validate_ok example_params example_schools example_schools_have_ids)
    as (v & Hv).
  exists v. split; [exact Hv |].
  exact (proj2 (validate_errors example_params example_schools v Hv)).
Defined.

Lemma validate_unmatched_witness :
  (forall s, In s [example_school (Some "z"%string) 2] -> School.id s <> None)
  /\ (forall e, In e example_params ->
        ~ listed [example_school (Some "z"%string) 2] (fst e))
  /\ calibrate_schools.validate_parameters example_params
       [example_school (Some "z"%string) 2]
     = inr (calibrate_schools.mk_validation [] [] 3 (inr 0) (inr 1)).
Proof.
  assert (forall s, In s [example_school (Some "z"%string) 2] -> School.id s <> None)
    as Hid by (intros s [<- | []]; discriminate).
  assert (forall e, In e example_params ->
            ~ listed [example_school (Some "z"%string) 2] (fst e)) as Hun.
  { intros e [<- | [<- | [<- | []]]] (s & [<- | []] & Hs); discriminate. }
  split; [exact Hid |]. split; [exact Hun |].
  exact (validate_unmatched example_params [example_school (Some "z"%string) 2] Hid Hun).
Defined.

Lemma main_calibrates_witness :
  well_formed (calibrate_schools.gpaSpline example_comp_params)
  /\ well_formed (calibrate_schools.mcatSpline example_comp_params)
  /\ exists final ts v,
       calibrate_schools.main example_schools example_comp_params = inr (final, ts, v)
       /\ (forall e, In e final -> in_range (snd e))
       /\ calibrate_schools.errors v = [].
Proof.
  destruct example_comp_params_well_formed as [Wg Wm].
  split; [exact Wg |]. split; [exact Wm |].
  exact (main_calibrates example_schools example_comp_params Wg Wm example_schools_valid).
Defined.

Lemma main_key_error_witness :
  (exists s, In s [example_school None 1]
             /\ (~ valid_tier (school_tier s) \/ School.id s = None))
  /\ calibrate_schools.main [example_school None 1] example_comp_params = inl KeyError.
Proof.
  destruct example_comp_params_well_formed as [Wg Wm].
  assert (exists s, In s [example_school None 1]
                    /\ (~ valid_tier (school_tier s) \/ School.id s = None)) as H.
  { exists (example_school None 1). split; [now left | right; reflexivity]. }
  split; [exact H |].
  exact (main_key_error [example_school None 1] example_comp_params Wg Wm H).
Defined.

(** ** The two scripts together *)

(** X21.  The two implementations of [compute_C] agree: on the record
    made of a GPA curve and an MCAT curve, [compute_C] of
    [calibrate_schools.py] gives what [compute_C] of [calibrate_C.py]
    gives on the two curves, for every GPA and MCAT, errors included. *)
Theorem schools_compute_C_agrees (gpa mcat : R) (gp mp : spline_fitting.params) :
  calibrate_schools.compute_C gpa mcat (calibrate_schools.mk_comp_params gp mp)
  = calibrate_C.compute_C gpa mcat gp mp.
Proof.
  unfold calibrate_schools.compute_C, calibrate_C.compute_C,
    calibrate_schools.evaluate_spline, spline_fitting.evaluate_monotone_spline.
  cbn [calibrate_schools.gpaSpline calibrate_schools.mcatSpline].
  rewrite !schools_basis_agrees.
  destruct (spline_fitting.create_ispline_basis [gpa] _ _ _ _) as [e | [bg kg]];
    [reflexivity |].
  destruct (spline_fitting.create_ispline_basis [mcat] _ _ _ _) as [e | [bm km]];
    unfold ret, bind; cbn [fst];
    destruct (Np.matvec bg _ _) as [e' | vg]; try reflexivity;
    destruct (spline_fitting.item0 _) as [e'' | g0]; try reflexivity.
  destruct (Np.matvec bm _ _) as [e | vm]; [reflexivity |].
  destruct (spline_fitting.item0 _) as [e | m0]; reflexivity.
Qed.

Section CalibratedSchools.

Import spline_fitting.

Variables minimize_additive minimize : minimizer.
Variables normal_gpa normal_mcat : nat -> nat -> R.

(** X22.  On the two curves [calibrate_splines] returns, taken as the
    competitiveness parameters, [calibrate_school] returns for every school
    with a tier from 1 to 4, whatever its rates and percentiles, with its
    six parameters in their ranges, the tier of the school and its id (or
    "unknown"); for a school of any other tier it raises [KeyError]. *)
Theorem calibrate_school_on_calibrated_curves (cells : list calibrate_C.cell)
    (verbose : bool) (gp mp : params) (info : calibrate_C.calibration_info)
    (s : School.t) (ts : list (Z * calibrate_schools.tier_stat)) :
  calibrate_C.calibrate_splines minimize_additive minimize normal_gpa normal_mcat
    cells verbose = inr (gp, mp, info) ->
  (valid_tier (school_tier s) ->
   exists p : calibrate_schools.school_params,
     calibrate_schools.calibrate_school s (calibrate_schools.mk_comp_params gp mp) ts
     = inr p
     /\ in_range p
     /\ calibrate_schools.tier p = school_tier s
     /\ calibrate_schools.schoolId p = school_key s)
  /\ (~ valid_tier (school_tier s) ->
      calibrate_schools.calibrate_school s (calibrate_schools.mk_comp_params gp mp) ts
      = inl KeyError).
Proof.
  intros H.
  destruct (calibrate_curves _ _ _ _ _ _ _ _ _ H) as [(Wg & _) (Wm & _)].
  split.
  - intros Ht.
    destruct (calibrate_school_ok s (calibrate_schools.mk_comp_params gp mp) ts Wg Wm Ht)
      as (p & Ep & Hr & Htier).
    exists p. split; [exact Ep |]. split; [exact Hr |]. split; [exact Htier |].
    unfold calibrate_schools.calibrate_school in Ep.
    bind_inv Ep. destruct v as [a b]. bind_inv Ep. destruct v as [c d].
    bind_inv Ep. destruct v as [e f]. injection Ep as <-. reflexivity.
  - intros Ht. now apply calibrate_school_invalid.
Qed.

End CalibratedSchools.

Lemma calibrate_school_on_calibrated_curves_witness :
  exists (gp mp : spline_fitting.params) (info : calibrate_C.calibration_info)
         (p : calibrate_schools.school_params),
    calibrate_C.calibrate_splines minimize_start minimize_start normal_zero normal_zero
      example_cells false = inr (gp, mp, info)
    /\ valid_tier (school_tier (example_school None 1))
    /\ calibrate_schools.calibrate_school (example_school None 1)
         (calibrate_schools.mk_comp_params gp mp) [] = inr p
    /\ in_range p.
Proof.
  destruct calibrate_example_ok as (gp & mp & info & H).
  assert (valid_tier (school_tier (example_school None 1))) as Ht
    by (unfold valid_tier; cbn; lia).
  destruct (proj1 (calibrate_school_on_calibrated_curves minimize_start minimize_start
                     normal_zero normal_zero example_cells false gp mp info
                     (example_school None 1) [] H) Ht) as (p & Ep & Hr & _).
  exists gp, mp, info, p. split; [exact H |]. split; [exact Ht |].
  split; [exact Ep | exact Hr].
Defined.

(** ** Records and configurations that are refused *)

Lemma matvec_mismatch (m : list (list R)) (ncols : nat) (v : list R) :
  ncols <> length v -> Np.matvec m ncols v = inl ValueError.
Proof.
  intros H. unfold Np.matvec.
  destruct (Nat.eqb_spec ncols (length v)); [contradiction | reflexivity].
Qed.

(** X23.  With explicit bounds, [create_ispline_basis] raises
    [ValueError] for every list of points, the empty one included, as soon
    as [x_max <= x_min] or [n_basis < degree]. *)
Theorem ispline_basis_rejects (x : list R) (n_basis degree : nat) (a b : R) :
  ~ (a < b /\ (degree <= n_basis)%nat) ->
  spline_fitting.create_ispline_basis x n_basis degree (Some a) (Some b) = inl ValueError.
Proof.
  intros H. destruct (Rlt_dec a b) as [Hab | Hab].
  - apply create_ispline_basis_small.
    destruct (le_lt_dec degree n_basis); [tauto | assumption].
  - now apply create_ispline_basis_degenerate.
Qed.

Lemma ispline_basis_rejects_witness :
  ~ (1 < 0 /\ (3 <= 6)%nat)
  /\ spline_fitting.create_ispline_basis [0; 1] 6 3 (Some 1) (Some 0) = inl ValueError.
Proof.
  assert (~ (1 < 0 /\ (3 <= 6)%nat)) as H by (intros [H _]; lra).
  split; [exact H |].
  exact (ispline_basis_rejects [0; 1] 6 3 1 0 H).
Defined.

(** X24.  [evaluate_monotone_spline] raises [ValueError], at every list of
    points, on a record that cannot be evaluated: one with
    [x_max <= x_min], with [n_basis] below the degree (3 when the key is
    missing), or with a number of coefficients other than [n_basis]. *)
Theorem evaluate_rejects_malformed (x : list R) (p : spline_fitting.params) :
  ~ well_formed p -> spline_fitting.evaluate_monotone_spline x p = inl ValueError.
Proof.
  intros H. unfold spline_fitting.evaluate_monotone_spline.
  destruct (Rlt_dec (spline_fitting.x_min p) (spline_fitting.x_max p)) as [Hab | Hab].
  - destruct (le_lt_dec (spline_fitting.get_degree p) (spline_fitting.n_basis p))
      as [Hd | Hd].
    + rewrite create_ispline_basis_ok by assumption. cbn [bind].
      rewrite matvec_mismatch; [reflexivity |].
      intros Hl. apply H. unfold well_formed. auto.
    + rewrite create_ispline_basis_small by assumption. reflexivity.
  - rewrite create_ispline_basis_degenerate by assumption. reflexivity.
Qed.

Lemma evaluate_rejects_malformed_witness :
  ~ well_formed example_malformed
  /\ spline_fitting.evaluate_monotone_spline [1 / 2] example_malformed = inl ValueError.
Proof.
  assert (~ well_formed example_malformed) as H
    by (intros (_ & _ & Hl); discriminate).
  split; [exact H |].
  exact (evaluate_rejects_malformed [1 / 2] example_malformed H).
Defined.

(** ** Runs and edge cases of the calibration *)



Section CalibrationEdges.

Import spline_fitting calibrate_C.

Variables minimize_additive minimize : minimizer.
Variables normal_gpa normal_mcat : nat -> nat -> R.



(** X26.  On an empty table [calibrate_splines] raises [ValueError]: with
    [verbose] at the minimum of the empty array of rates, and otherwise,
    once the optimizer has returned, at the [argmin] over the empty array
    of GPA bins. *)
Theorem calibrate_empty_table (verbose : bool) :
  keeps_dimension minimize_additive ->
  calibrate_splines minimize_additive minimize normal_gpa normal_mcat [] verbose
  = inl ValueError.
Proof.
  intros Hk. unfold calibrate_splines. destruct verbose; [reflexivity |].
  cbn [map clamped_rates calibrate_C.observed_logit Np.unique fold_right length mapM].
  unfold ret. cbn [bind].
  match goal with
  | |- context [minimize_additive ?f ?x0] => destruct (Hk f x0) as (res & -> & _)
  end.
  reflexivity.
Qed.

End CalibrationEdges.


Lemma calibrate_empty_table_witness :
  keeps_dimension minimize_start
  /\ calibrate_C.calibrate_splines minimize_start minimize_start normal_zero normal_zero
       [] false = inl ValueError.
Proof.
  split; [exact minimize_start_keeps |].
  exact (calibrate_empty_table minimize_start minimize_start normal_zero normal_zero
           false minimize_start_keeps).
Defined.

Section Returns.

Import spline_fitting.

Variable minimize : minimizer.
Variable normal : nat -> nat -> R.
Hypothesis minimize_keeps : keeps_dimension minimize.

(** X27.  With an optimizer that returns a point of the dimension of its
    starting point, [fit_monotone_spline] returns on every configuration
    with [x_min < x_max] and [degree <= n_basis] and every non-empty data
    set with as many [y] as [x] (and weights, when given, of this length
    with a non-zero sum); the returned record holds the configuration
    ([x_min], [x_max], [n_basis], [degree]) and [n_basis] coefficients, all
    of them strictly positive. *)
Theorem fit_returns_configuration (x y : list R) (n_basis : nat)
    (weights : option (list R)) (degree : nat) (sp : R) (anchor : option (R * R))
    (a b : R) :
  a < b -> (degree <= n_basis)%nat -> x <> [] -> length y = length x ->
  match weights with
  | None => True
  | Some w => length w = length x /\ Np.sum w <> 0
  end ->
  exists p info,
    fit_monotone_spline minimize normal x y n_basis weights degree sp anchor
      (Some a) (Some b) = inr (p, info)
    /\ x_min p = a /\ x_max p = b
    /\ spline_fitting.n_basis p = n_basis /\ spline_fitting.degree p = Some degree
    /\ length (coefficients p) = n_basis
    /\ (forall v, In v (coefficients p) -> 0 < v)
    /\ globalIntercept p = None.
Proof.
  intros Hab Hdeg Hx Hy Hw.
  destruct (fit_ok minimize normal minimize_keeps x y n_basis weights degree sp anchor a b
              Hab Hdeg Hx Hy Hw) as (p & info & H).
  exists p, info. split; [exact H |].
  destruct (fit_bounds _ _ _ _ _ _ _ _ _ _ _ _ _ H) as (Ea & Eb & En & Ed).
  pose proof (fit_coefficients_pos _ _ _ _ _ _ _ _ _ _ _ _ _ H) as Hpos.
  pose proof (fit_well_formed _ _ _ _ _ _ _ _ _ _ _ _ _ H) as (_ & _ & Hlen).
  apply fit_inv in H.
  destruct H as (a' & b' & w & res & icpt & residuals & _ & _ & _ & _ & Hp & _).
  repeat split; try assumption.
  - congruence.
  - rewrite Hp. reflexivity.
Qed.

End Returns.

Lemma fit_returns_configuration_witness :
  keeps_dimension minimize_start
  /\ exists p info,
       spline_fitting.fit_monotone_spline minimize_start normal_zero [0; 1] [0; 1] 6
         None 3 0.001 None (Some 0) (Some 1) = inr (p, info)
       /\ spline_fitting.x_min p = 0 /\ spline_fitting.x_max p = 1
       /\ length (spline_fitting.coefficients p) = 6%nat.
Proof.
  split; [exact minimize_start_keeps |].
  destruct (fit_returns_configuration minimize_start normal_zero minimize_start_keeps
              [0; 1] [0; 1] 6 None 3 0.001 None 0 1)
    as (p & info & H & Ha & Hb & _ & _ & Hl & _);
    [lra | lia | discriminate | reflexivity | exact I |].
  exists p, info. repeat split; assumption.
Defined.

Section CalibrationReturns.

Import spline_fitting calibrate_C.

Variables minimize_additive minimize : minimizer.
Variables normal_gpa normal_mcat : nat -> nat -> R.
Hypothesis additive_keeps : keeps_dimension minimize_additive.
Hypothesis minimize_keeps : keeps_dimension minimize.

(** X28.  With optimizers that return a point of the dimension of their
    starting point, [calibrate_splines] returns on every non-empty table
    whose weights do not sum to zero; the GPA curve is over [[2.0, 4.0]]
    and the MCAT curve over [[486, 528]], each with 6 coefficients and
    degree 3, and only the GPA record carries the key [globalIntercept]. *)
Theorem calibrate_returns_configuration (cells : list cell) (verbose : bool) :
  cells <> [] -> Np.sum (map weight cells) <> 0 ->
  exists gp mp info,
    calibrate_splines minimize_additive minimize normal_gpa normal_mcat cells verbose
    = inr (gp, mp, info)
    /\ (x_min gp = GPA_MIN /\ x_max gp = GPA_MAX /\ n_basis gp = 6%nat
        /\ degree gp = Some 3%nat /\ length (coefficients gp) = 6%nat
        /\ globalIntercept gp <> None)
    /\ (x_min mp = MCAT_MIN /\ x_max mp = MCAT_MAX /\ n_basis mp = 6%nat
        /\ degree mp = Some 3%nat /\ length (coefficients mp) = 6%nat
        /\ globalIntercept mp = None).
Proof.
  intros Hne Hsum.
  destruct (calibrate_ok minimize_additive minimize normal_gpa normal_mcat
              additive_keeps minimize_keeps cells verbose Hne Hsum) as (gp & mp & info & H).
  exists gp, mp, info. split; [exact H |].
  apply calibrate_inv in H.
  destruct H as (gp0 & mp0 & gi & mi & ag & am & g_at & m_at & gl
                 & Fg & Fm & _ & _ & -> & ->).
  destruct (fit_bounds _ _ _ _ _ _ _ _ _ _ _ _ _ Fg) as (Ag & Bg & Ng & Dg).
  destruct (fit_bounds _ _ _ _ _ _ _ _ _ _ _ _ _ Fm) as (Am & Bm & Nm & Dm).
  pose proof (fit_well_formed _ _ _ _ _ _ _ _ _ _ _ _ _ Fg) as (_ & _ & Lg).
  pose proof (fit_well_formed _ _ _ _ _ _ _ _ _ _ _ _ _ Fm) as (_ & _ & Lm).
  apply fit_inv in Fm.
  destruct Fm as (a' & b' & w & res & icpt & residuals & _ & _ & _ & _ & Hp & _).
  cbn [set_globalIntercept set_intercept x_min x_max n_basis degree coefficients
       globalIntercept].
  unfold GPA_N_BASIS, MCAT_N_BASIS in *.
  split.
  - repeat split; try assumption; try congruence.
  - repeat split; try assumption; try congruence; try (rewrite Hp; reflexivity).
Qed.

End CalibrationReturns.

Lemma calibrate_returns_configuration_witness :
  example_cells <> [] /\ Np.sum (map calibrate_C.weight example_cells) <> 0
  /\ exists gp mp info,
       calibrate_C.calibrate_splines minimize_start minimize_start normal_zero
         normal_zero example_cells false = inr (gp, mp, info)
       /\ spline_fitting.globalIntercept gp <> None
       /\ spline_fitting.globalIntercept mp = None.
Proof.
  assert (example_cells <> []) as Hne by discriminate.
  assert (Np.sum (map calibrate_C.weight example_cells) <> 0) as Hs by (cbn; lra).
  split; [exact Hne |]. split; [exact Hs |].
  destruct (calibrate_returns_configuration minimize_start minimize_start normal_zero
              normal_zero minimize_start_keeps minimize_start_keeps example_cells false
              Hne Hs)
    as (gp & mp & info & H & (_ & _ & _ & _ & _ & Hg) & (_ & _ & _ & _ & _ & Hm)).
  exists gp, mp, info. repeat split; assumption.
Defined.

(** ** One parameter set per school id *)

Section OneEntryPerId.

Import calibrate_schools.
Import String.StringSyntax.

Lemma dict_set_In {A : Type} (k k0 : String.string) (v : A) (d : dict A) :
  In k0 (map fst (dict_set k v d)) <-> k0 = k \/ In k0 (map fst d).
Proof.
  induction d as [| [k1 v1] d IH]; cbn [dict_set map fst In].
  - intuition.
  - destruct (String.eqb_spec k1 k) as [-> | Hne]; cbn [map fst In].
    + intuition.
    + rewrite IH. intuition.
Qed.

Lemma dict_set_NoDup {A : Type} (k : String.string) (v : A) (d : dict A) :
  NoDup (map fst d) -> NoDup (map fst (dict_set k v d)).
Proof.
  induction d as [| [k1 v1] d IH]; cbn [dict_set map fst]; intros Hd.
  - constructor; [intros [] | constructor].
  - destruct (String.eqb_spec k1 k) as [-> | Hne]; cbn [map fst]; [exact Hd |].
    inversion Hd as [| ? ? Hnin Hd']; subst. constructor; [| now apply IH].
    rewrite dict_set_In. intros [-> | Hin]; [congruence | contradiction].
Qed.

Lemma dict_set_length {A : Type} (k : String.string) (v : A) (d : dict A) :
  (length (dict_set k v d) <= S (length d))%nat.
Proof.
  induction d as [| [k1 v1] d IH]; cbn [dict_set length]; [lia |].
  destruct (String.eqb k1 k); cbn [length]; lia.
Qed.

Lemma first_pass_keys (schools : list School.t) (cp : comp_params)
    (raw raw' : dict school_params) :
  first_pass schools cp raw = inr raw' -> NoDup (map fst raw) ->
  NoDup (map fst raw')
  /\ (forall k, In k (map fst raw')
                <-> In k (map fst raw) \/ exists s, In s schools /\ school_key s = k)
  /\ (length raw' <= length raw + length schools)%nat.
Proof.
  revert raw. induction schools as [| s schools IH]; intros raw H Hd.
  - injection H as <-. split; [exact Hd |]. split; [| cbn [length]; lia].
    intros k. split; [auto |]. intros [Hk | (s & [] & _)]. exact Hk.
  - cbn [first_pass] in H. bind_inv H.
    destruct (IH _ H (dict_set_NoDup _ v raw Hd)) as (Hn & Hk & Hl).
    split; [exact Hn |]. split.
    + intros k. rewrite Hk, dict_set_In. fold (school_key s). split.
      * intros [[-> | Hin] | (u & Hu & Eu)].
        -- right. exists s. split; [now left | reflexivity].
        -- now left.
        -- right. exists u. split; [now right | exact Eu].
      * intros [Hin | (u & [<- | Hu] & Eu)].
        -- left. now right.
        -- left. left. now symmetry.
        -- right. exists u. split; assumption.
    + pose proof (dict_set_length (get_or (School.id s) "unknown"%string) v raw).
      cbn [length]. lia.
Qed.

Lemma apply_shrinkage_keys (params adjusted : dict school_params)
    (ts : list (Z * tier_stat)) (f : R) :
  apply_shrinkage params ts f = inr adjusted -> map fst adjusted = map fst params.
Proof.
  unfold apply_shrinkage. revert adjusted.
  induction params as [| [k p] params IH]; intros adjusted H.
  - injection H as <-. reflexivity.
  - cbn [mapM] in H. bind_inv H. bind_inv E. injection E as <-.
    bind_inv H. injection H as <-. cbn [map fst]. f_equal. now apply IH.
Qed.

Lemma main_returns (schools : list School.t) (cp : comp_params) :
  well_formed (gpaSpline cp) -> well_formed (mcatSpline cp) ->
  (forall s, In s schools -> valid_tier (school_tier s) /\ School.id s <> None) ->
  exists r, main schools cp = inr r.
Proof.
  intros Hg Hm Hs.
  destruct (pipeline_ok schools cp Hg Hm (fun s H => proj1 (Hs s H)))
    as (raw & ts & final & Eraw & Ets & Efinal & _).
  destruct (validate_ok final schools (fun s H => proj2 (Hs s H))) as (v & Ev).
  unfold main. rewrite Eraw. cbn [bind]. rewrite Ets. cbn [bind].
  rewrite Efinal. cbn [bind]. rewrite Ev. eexists. reflexivity.
Qed.

(** X29.  Whenever the calibration of [main] returns, the final parameter
    sets have pairwise distinct ids, their ids are exactly the ids of the
    schools, and [n_schools] is their number, at most the number of
    schools: schools that share an id share one parameter set. *)
Theorem main_one_entry_per_id (schools : list School.t) (cp : comp_params)
    (final : dict school_params) (ts : list (Z * tier_stat)) (v : validation) :
  main schools cp = inr (final, ts, v) ->
  NoDup (map fst final)
  /\ (forall k : String.string, In k (map fst final) <-> listed schools k)
  /\ n_schools v = length final
  /\ (length final <= length schools)%nat.
Proof.
  unfold main. intros H.
  bind_inv H. rename v0 into raw, E into Eraw.
  bind_inv H. rename v0 into ts0, E into Ets.
  bind_inv H. rename v0 into final0, E into Efinal.
  bind_inv H. rename v0 into v1, E into Ev.
  injection H as <- <- <-.
  destruct (first_pass_keys _ _ _ _ Eraw) as (Hn & Hk & Hl); [constructor |].
  pose proof (apply_shrinkage_keys _ _ _ _ Efinal) as Hkeys.
  destruct (validate_inv _ _ _ Ev) as (lookup & El & _ & Hcount).
  pose proof (school_lookup_inv _ _ _ El) as Hid.
  rewrite Hkeys. split; [exact Hn |]. split; [| split].
  - intros k. rewrite Hk. cbn [map In]. split.
    + intros [[] | (s & Hs & Es)]. exists s. split; [exact Hs |].
      unfold school_key in Es. destruct (School.id s) as [i |] eqn:Ei.
      * cbn [get_or] in Es. congruence.
      * elim (Hid s Hs). exact Ei.
    + intros (s & Hs & Es). right. exists s. split; [exact Hs |].
      unfold school_key. rewrite Es. reflexivity.
  - exact Hcount.
  - rewrite <- (length_map fst final0), Hkeys, length_map. cbn [length] in Hl. lia.
Qed.

End OneEntryPerId.

Lemma main_one_entry_per_id_witness :
  exists final ts v,
    calibrate_schools.main example_schools example_comp_params = inr (final, ts, v)
    /\ NoDup (map fst final)
    /\ calibrate_schools.n_schools v = length final
    /\ (length final <= 3)%nat.
Proof.
  destruct example_comp_params_well_formed as [Wg Wm].
  destruct (main_returns example_schools example_comp_params Wg Wm example_schools_valid)
    as ([[final ts] v] & H).
  destruct (main_one_entry_per_id example_schools example_comp_params final ts v H)
    as (Hn & _ & Hc & Hl).
  exists final, ts, v. repeat split; assumption.
Defined.
